(** * Local Object Metadata (LOM), its cache runner and the capacity flags

    A shallow embedding of [cluster/lom.go] (package cluster) and, from
    [stats/target_stats.go], of [Trunner._cap], the disk metrics,
    [Trunner._softErrs] and [Trunner.logDiskStats].

    Conventions.
    - Go [int], [int64], [time.Duration] and nanosecond timestamps are [Z]
      with the two's-complement wrap-around written out where the code does
      arithmetic on them; [atomic.Uint32] counters wrap modulo 2^32.
    - A method with a pointer receiver [lom *LOM] is a function from the
      receiver and the world to the result, the updated receiver and the
      updated world; [cmn.Assert] failing is the outcome [Panic].
    - The filesystem, the LOM caches and the health-check collaborator make
      up the [world]; maps are stdpp's [gmap]. *)

From Stdlib Require Import ZArith String Ascii List Bool Lia.
From stdpp Require Import base option gmap strings list fin_maps.

Local Open Scope string_scope.
Local Open Scope Z_scope.

(** ** Machine integers *)

Module Int.

Definition min_int64 : Z := - 2 ^ 63.
Definition max_int64 : Z := 2 ^ 63 - 1.

(** Two's-complement reduction of a mathematical integer to [int64]. *)
Definition wrap64 (z : Z) : Z := (z + 2 ^ 63) mod 2 ^ 64 - 2 ^ 63.

(** Reduction to [uint32], as [atomic.Uint32.Add] does. *)
Definition wrap_u32 (z : Z) : Z := z mod 2 ^ 32.

Definition in_int64 (z : Z) : Prop := min_int64 <= z <= max_int64.

End Int.

(** ** strconv.Atoi and the %d verb

    [strconv.Atoi s] is [ParseInt s 10 0]: an optional sign, then one or
    more ASCII digits and nothing else; the value has to fit [int]
    (64 bits), otherwise the call fails with a range error. *)

Module Strconv.

Inductive NumError := ErrSyntax | ErrRange.

Definition digit_of (c : ascii) : option Z :=
  let n := Z.of_N (N_of_ascii c) in
  if (48 <=? n) && (n <=? 57) then Some (n - 48) else None.

(** The digit loop: [n = n*10 + int(ch)], failing on the first byte that
    is not a digit. *)
Fixpoint digits_from (acc : Z) (s : string) : option Z :=
  match s with
  | EmptyString => Some acc
  | String c s' =>
      match digit_of c with
      | Some d => digits_from (acc * 10 + d) s'
      | None => None
      end
  end.

Definition parse_unsigned (s : string) : NumError + Z :=
  match s with
  | EmptyString => inl ErrSyntax
  | _ => match digits_from 0 s with
         | Some n => inr n
         | None => inl ErrSyntax
         end
  end.

Definition Atoi (s : string) : NumError + Z :=
  match s with
  | EmptyString => inl ErrSyntax
  | String c s' =>
      let '(neg, body) :=
        if Ascii.eqb c "-" then (true, s')
        else if Ascii.eqb c "+" then (false, s')
        else (false, s) in
      match parse_unsigned body with
      | inl e => inl e
      | inr un =>
          if neg then
            if un <=? 2 ^ 63 then inr (- un) else inl ErrRange
          else
            if un <? 2 ^ 63 then inr un else inl ErrRange
      end
  end.

(** [fmt.Sprintf("%d", n)]: the decimal digits, most significant first,
    after a minus sign for a negative number.  [utoa_aux] peels digits off
    the low end; the fuel bounds the number of digits. *)
Definition digit_char (d : Z) : ascii := ascii_of_N (Z.to_N (48 + d)).

Fixpoint utoa_aux (fuel : nat) (n : Z) (acc : string) : string :=
  match fuel with
  | O => acc
  | S fuel' =>
      let acc' := String (digit_char (n mod 10)) acc in
      if n <? 10 then acc' else utoa_aux fuel' (n / 10) acc'
  end.

Definition utoa (n : Z) : string :=
  utoa_aux (S (Z.to_nat (Z.log2 n))) n EmptyString.

Definition FormatInt (n : Z) : string :=
  if n <? 0 then String "-" (utoa (- n)) else utoa n.

End Strconv.

(** ** Errors, checksums and the metadata record *)

Inductive errno := ENOENT | ENODATA | EIO | EACCES | ENOSPC.

#[global] Instance errno_eq_dec : EqDecision errno.
Proof. solve_decision. Defined.

(** [os.IsNotExist]. *)
Definition os_IsNotExist (e : errno) : bool := bool_decide (e = ENOENT).

(** A checksum value: [cmn.Cksummer.Get()] returns the algorithm and the
    value.  A nil [cmn.Cksummer] is [None]. *)
Record Cksum := mkCksum { ckType : string; ckVal : string }.

#[global] Instance Cksum_eq_dec : EqDecision Cksum.
Proof. solve_decision. Defined.

(** Modelled from the spec: the constants [cmn.ChecksumNone],
    [cmn.ChecksumXXHash] and [cmn.PropInherit] are not under src/; the spec
    names the algorithms none and xxhash, and a bucket that sets no type of
    its own inherits the one of the cluster. *)
Definition ChecksumNone : string := "none".
Definition ChecksumXXHash : string := "xxhash".
Definition PropInherit : string := "inherit".

(** Modelled from the spec: [cmn.NewCksum] and [cmn.EqCksum] are not under
    src/.  The spec has the checksum as an algorithm-tagged value and
    compares two of them by value.  An absent checksum equals nothing, and
    no checksum is built from an empty algorithm or an empty value (the
    code asserts that a stored value is never empty). *)
Definition NewCksum (kind val : string) : option Cksum :=
  if decide (kind = "") then None
  else if decide (val = "") then None
  else Some (mkCksum kind val).

Definition EqCksum (a b : option Cksum) : bool :=
  match a, b with
  | Some x, Some y =>
      bool_decide (ckType x = ckType y) && bool_decide (ckVal x = ckVal y)
  | _, _ => false
  end.

(** The error strings of the package.  The code returns [errstr string],
    empty when there is no error; the model keeps the kind of the message
    and its arguments, and [None] is the empty string. *)
Inductive errmsg :=
  | ErrErrno (e : errno)                       (* err.Error() *)
  | ErrAtoi (e : Strconv.NumError) (s : string)(* err.Error() of strconv *)
  | ErrMeta (e : errno)                        (* "%s: errmeta %v" *)
  | ErrStat (e : errno)                        (* "%s: errstat %v" *)
  | ErrSize (mdsize fsize : Z)                 (* "%s: errsize (%d != %d)" *)
  | ErrOpen (fqn : string) (e : errno)         (* "%s, err: %v" *)
  | ErrBadCksum (got have : option Cksum).     (* cmn.BadCksum(got, have) *)

Definition errstr := option errmsg.

(** [lmeta]: the cached and persisted part of a LOM. *)
Record lmeta := mkLmeta {
  md_uname : string;
  md_version : string;
  md_size : Z;
  md_atime : Z;
  md_atimefs : Z;
  md_bckID : Z;
  md_cksum : option Cksum;
  md_copies : gmap string string   (* fs.MPI: copy FQN to its mountpath *)
}.

Definition set_md_cksum (c : option Cksum) (m : lmeta) : lmeta :=
  mkLmeta (md_uname m) (md_version m) (md_size m) (md_atime m) (md_atimefs m)
          (md_bckID m) c (md_copies m).

Definition set_md_bckID (b : Z) (m : lmeta) : lmeta :=
  mkLmeta (md_uname m) (md_version m) (md_size m) (md_atime m) (md_atimefs m)
          b (md_cksum m) (md_copies m).

Definition set_md_atimes (a : Z) (m : lmeta) : lmeta :=
  mkLmeta (md_uname m) (md_version m) (md_size m) a a
          (md_bckID m) (md_cksum m) (md_copies m).

(** Bucket metadata.  Modelled from the spec: [BMD] and its method
    [Exists(bucket, bckID, local)] are not under src/; the spec only says
    that a cached entry's bucket-id has to match the current one, so the
    method is kept as the snapshot's own function. *)
Record BMD := mkBMD { bmd_Exists : string -> Z -> bool -> bool }.

Record BucketProps := mkBucketProps {
  BID : Z;
  Cksum_Type : string        (* BckProps.Cksum.Type *)
}.

Record Config := mkConfig { Config_Cksum_Type : string }.

Record ParsedFQN := mkParsedFQN {
  MpathInfo : string;        (* the mountpath, by its path *)
  Digest : Z
}.

Record LOM := mkLOM {
  md : lmeta;
  FQN : string;
  Bucket : string;
  Objname : string;
  HrwFQN : string;
  config : Config;
  bmd : BMD;
  BckProps : BucketProps;
  parsedFQN : ParsedFQN;
  BckIsLocal : bool;
  BadCksum : bool;
  exists_ : bool;
  loaded : bool
}.

Definition set_md (m : lmeta) (l : LOM) : LOM :=
  mkLOM m (FQN l) (Bucket l) (Objname l) (HrwFQN l) (config l) (bmd l)
        (BckProps l) (parsedFQN l) (BckIsLocal l) (BadCksum l) (exists_ l)
        (loaded l).

Definition set_BadCksum (b : bool) (l : LOM) : LOM :=
  mkLOM (md l) (FQN l) (Bucket l) (Objname l) (HrwFQN l) (config l) (bmd l)
        (BckProps l) (parsedFQN l) (BckIsLocal l) b (exists_ l) (loaded l).

Definition set_exists (b : bool) (l : LOM) : LOM :=
  mkLOM (md l) (FQN l) (Bucket l) (Objname l) (HrwFQN l) (config l) (bmd l)
        (BckProps l) (parsedFQN l) (BckIsLocal l) (BadCksum l) b (loaded l).

Definition set_loaded (b : bool) (l : LOM) : LOM :=
  mkLOM (md l) (FQN l) (Bucket l) (Objname l) (HrwFQN l) (config l) (bmd l)
        (BckProps l) (parsedFQN l) (BckIsLocal l) (BadCksum l) (exists_ l) b.

(** [lom.CksumConf().Type]: the bucket's own type unless it inherits the
    cluster-wide one. *)
Definition CksumConf_Type (l : LOM) : string :=
  if decide (Cksum_Type (BckProps l) = PropInherit)
  then Config_Cksum_Type (config l)
  else Cksum_Type (BckProps l).

(** ** The world: filesystem, LOM caches, health check *)

Record file := mkFile {
  f_size : Z;
  f_atime : Z;      (* ns since the epoch *)
  f_mtime : Z;
  f_xxhash : string (* xxhash of the content, as cmn.ComputeXXHash prints it *)
}.

(** Files with their metadata blobs (the xattr [cmn.XattrLOM]), and the
    paths on which a system call fails with an I/O fault. *)
Record fsys := mkFsys {
  files : gmap string file;
  xattrs : gmap string lmeta;
  stat_fault : gmap string errno;
  getxattr_fault : gmap string errno;
  setxattr_fault : gmap string errno;
  read_fault : gmap string errno;
  chtimes_fault : gmap string errno
}.

(** [fs.LomCacheMask]: the stripes of a mountpath are indexed by
    [Digest & LomCacheMask].  Modelled from the spec: the constant is not
    under src/; the spec asks for a small fixed power-of-two number of
    stripes. *)
Definition LomCacheMask : Z := 63.

(** The LOM caches of all mountpaths: the entry of [uname] in stripe [idx]
    of mountpath [mp] is at key [(mp, idx, uname)]; each stripe is a
    [sync.Map] from uname to [*lmeta]. *)
Record world := mkWorld {
  caches : gmap (string * Z * string) lmeta;
  fs : fsys;
  fshc : list (errno * string)   (* calls of T.FSHC(err, fqn), latest first *)
}.

Definition set_caches (c : gmap (string * Z * string) lmeta) (w : world) : world :=
  mkWorld c (fs w) (fshc w).

Definition set_fs (f : fsys) (w : world) : world :=
  mkWorld (caches w) f (fshc w).

Definition FSHC (e : errno) (fqn : string) (w : world) : world :=
  mkWorld (caches w) (fs w) ((e, fqn) :: fshc w).

(** Outcome of a call that may trip a [cmn.Assert]. *)
Inductive outcome (A : Type) : Type :=
  | Ret (a : A)
  | Panic.
Arguments Ret {A} a.
Arguments Panic {A}.

Definition bind {A B} (m : outcome A) (k : A -> outcome B) : outcome B :=
  match m with
  | Ret a => k a
  | Panic => Panic
  end.

Notation "'do' x <- m ; k" := (bind m (fun x => k))
  (at level 10, x pattern, m at level 100, k at level 200).

(** Modelled from the spec: [cmn.Assert] is not under src/.  The spec has
    [ReCache] and [Uncache] assert [FQN == hrw-FQN]; an assertion that
    fails does not return to its caller. *)
Definition Assert (cond : bool) : outcome unit :=
  if cond then Ret tt else Panic.

(** ** Filesystem calls *)

(** [os.Stat]: a fault if there is one, otherwise the file or [ENOENT]. *)
Definition os_Stat (f : fsys) (fqn : string) : errno + file :=
  match stat_fault f !! fqn with
  | Some e => inl e
  | None =>
      match files f !! fqn with
      | Some fi => inr fi
      | None => inl ENOENT
      end
  end.

(** Reading the metadata blob: [ENOENT] when the file is absent and
    [ENODATA] when the file has no blob (the two distinguished errors of
    the xattr interface). *)
Definition getxattr (f : fsys) (fqn : string) : errno + lmeta :=
  match getxattr_fault f !! fqn with
  | Some e => inl e
  | None =>
      match files f !! fqn with
      | None => inl ENOENT
      | Some _ =>
          match xattrs f !! fqn with
          | Some m => inr m
          | None => inl ENODATA
          end
      end
  end.

Definition setxattr (f : fsys) (fqn : string) (m : lmeta) : errno + fsys :=
  match setxattr_fault f !! fqn with
  | Some e => inl e
  | None =>
      match files f !! fqn with
      | None => inl ENOENT
      | Some _ =>
          inr (mkFsys (files f) (<[fqn := m]> (xattrs f)) (stat_fault f)
                 (getxattr_fault f) (setxattr_fault f) (read_fault f)
                 (chtimes_fault f))
      end
  end.

(** [os.Chtimes(fqn, atime, mtime)]. *)
Definition os_Chtimes (f : fsys) (fqn : string) (at_ mt : Z) : errno + fsys :=
  match chtimes_fault f !! fqn with
  | Some e => inl e
  | None =>
      match files f !! fqn with
      | None => inl ENOENT
      | Some fi =>
          inr (mkFsys (<[fqn := mkFile (f_size fi) at_ mt (f_xxhash fi)]> (files f))
                 (xattrs f) (stat_fault f) (getxattr_fault f)
                 (setxattr_fault f) (read_fault f) (chtimes_fault f))
      end
  end.

(** ** LOM methods *)

(** Modelled from the spec: [lom.lmfs(populate)] and [lom.Persist()] are
    not under src/.  [lmfs] reads the metadata blob of [lom.FQN] from the
    xattr and, when [populate] is set, copies the stored version, size,
    checksum and copies into [lom.md]; it returns the record whenever it
    returns no error, so that the test [md != nil] of its callers holds.
    [Persist] writes [lom.md] as the blob of [lom.FQN], atomically, and
    leaves the LOM as it is. *)
Definition populate_md (cur stored : lmeta) : lmeta :=
  mkLmeta (md_uname cur) (md_version stored) (md_size stored) (md_atime cur)
          (md_atimefs cur) (md_bckID cur) (md_cksum stored) (md_copies stored).

Definition lmfs (populate : bool) (lom : LOM) (w : world) : (errno + lmeta) * LOM :=
  match getxattr (fs w) (FQN lom) with
  | inl e => (inl e, lom)
  | inr m =>
      if populate
      then (inr (populate_md (md lom) m), set_md (populate_md (md lom) m) lom)
      else (inr m, lom)
  end.

Definition Persist (lom : LOM) (w : world) : option errno * world :=
  match setxattr (fs w) (FQN lom) (md lom) with
  | inl e => (Some e, w)
  | inr f => (None, set_fs f w)
  end.

(** [lom.Hkey()]: the key and the stripe.  (The debug-only
    [cmn.Dassert(Digest != 0)] is left out.) *)
Definition Hkey (lom : LOM) : string * Z :=
  (md_uname (md lom), Z.land (Digest (parsedFQN lom)) LomCacheMask).

(** The key of the LOM's entry in the caches:
    [lom.ParsedFQN.MpathInfo.LomCache(idx)] at [hkey]. *)
Definition cache_key (lom : LOM) : string * Z * string :=
  let '(hkey, idx) := Hkey lom in (MpathInfo (parsedFQN lom), idx, hkey).

Definition IsLoaded (lom : LOM) (w : world) : bool :=
  bool_decide (is_Some (caches w !! cache_key lom)).

Definition Uncache (lom : LOM) (w : world) : outcome world :=
  do _ <- Assert (bool_decide (FQN lom = HrwFQN lom));
  Ret (set_caches (delete (cache_key lom) (caches w)) w).

Definition ReCache (lom : LOM) (w : world) : outcome (LOM * world) :=
  do _ <- Assert (bool_decide (FQN lom = HrwFQN lom));
  let m := set_md_bckID (BID (BckProps lom)) (md lom) in
  Ret (set_loaded true lom,
       set_caches (<[cache_key lom := m]> (caches w)) w).

Definition existsInBucket (lom : LOM) (w : world) : outcome (bool * LOM * world) :=
  if BckIsLocal lom && exists_ lom
     && negb (bmd_Exists (bmd lom) (Bucket lom) (md_bckID (md lom)) (BckIsLocal lom))
  then
    do w' <- Uncache lom w;
    Ret (false, set_exists false lom, w')
  else Ret (exists_ lom, lom, w).

Definition FromFS (lom : LOM) (w : world) : errstr * LOM * world :=
  let lom := set_exists true lom in
  match lmfs true lom w with
  | (inl err, lom) =>
      let lom := set_exists false lom in
      if (bool_decide (err = ENODATA) || bool_decide (err = ENOENT))
         && match os_Stat (fs w) (FQN lom) with
            | inl errex => os_IsNotExist errex
            | inr _ => false
            end
      then (None, lom, w)
      else if negb (os_IsNotExist err)
      then (Some (ErrMeta err), lom, FSHC err (FQN lom) w)
      else (None, lom, w)
  | (inr _, lom) =>
      (* fstat & atime *)
      match os_Stat (fs w) (FQN lom) with
      | inl err =>
          let lom := set_exists false lom in
          if negb (os_IsNotExist err)
          then (Some (ErrStat err), lom, FSHC err (FQN lom) w)
          else (None, lom, w)
      | inr finfo =>
          if negb (md_size (md lom) =? f_size finfo)
          then (Some (ErrSize (md_size (md lom)) (f_size finfo)), lom, w)
          else (None, set_md (set_md_atimes (f_atime finfo) (md lom)) lom, w)
      end
  end.

(** [lom.Load(add)]: the result is [(fromCache, errstr)].  [Load_slow] is
    the slow path, from [lom.FromFS()] to the end of the function; the
    stripe and the key are those computed on entry. *)
Definition Load_slow (key : string * Z * string) (add fromCache : bool)
    (lom : LOM) (w : world) : bool * errstr * LOM * world :=
  let '(err, lom, w) := FromFS lom w in
  match err with
  | None =>
      if exists_ lom then
        let lom := set_md (set_md_bckID (BID (BckProps lom)) (md lom)) lom in
        if negb add then (fromCache, err, lom, w)
        else (fromCache, err, lom,
              set_caches (<[key := md lom]> (caches w)) w)
      else (fromCache, err, lom, w)
  | Some _ => (fromCache, err, lom, w)
  end.

Definition Load (add : bool) (lom : LOM) (w : world)
  : outcome (bool * errstr * LOM * world) :=
  let key := cache_key lom in
  let lom := set_loaded true lom in
  if bool_decide (FQN lom = HrwFQN lom) then
    match caches w !! key with
    | Some m =>
        let lom := set_md m (set_exists true lom) in
        let w := if negb add then set_caches (delete key (caches w)) w else w in
        do (ok, lom, w) <- existsInBucket lom w;
        if ok then Ret (true, None, lom, w)
        else Ret (Load_slow key add true lom w)
    | None => Ret (Load_slow key add false lom w)
    end
  else Ret (Load_slow key false false lom w).

Definition Exists (lom : LOM) (w : world) : outcome (bool * LOM * world) :=
  do _ <- Assert (loaded lom);
  existsInBucket lom w.

(** [lom.IncObjectVersion()]: [(newVersion, errstr)]. *)
Definition initialVersion : string := "1".

Definition IncObjectVersion (lom : LOM) (w : world) : string * errstr :=
  if negb (exists_ lom) then (initialVersion, None)
  else
    match lmfs false lom w with
    | (inl err, _) => ("", Some (ErrErrno err))
    | (inr m, _) =>
        if bool_decide (md_version m = "") then (initialVersion, None)
        else
          match Strconv.Atoi (md_version m) with
          | inl err => ("", Some (ErrAtoi err (md_version m)))
          | inr numVersion =>
              (Strconv.FormatInt (Int.wrap64 (numVersion + 1)), None)
          end
    end.

(** [lom.computeXXHash(fqn, size)]: [(cksumstr, errstr)]; the pooled buffer
    is invisible here. *)
Definition computeXXHash (w : world) (fqn : string) : string * errstr :=
  match files (fs w) !! fqn with
  | None => ("", Some (ErrOpen fqn ENOENT))
  | Some fi =>
      match read_fault (fs w) !! fqn with
      | Some e => ("", Some (ErrOpen fqn e))
      | None => (f_xxhash fi, None)
      end
  end.

(** The value of the cached checksum, with the assertion that a cached
    checksum has one:
    [if lom.md.cksum != nil { _, storedCksum = lom.md.cksum.Get(); cmn.Assert(storedCksum != "") }]. *)
Definition storedCksum_of (lom : LOM) : outcome string :=
  match md_cksum (md lom) with
  | Some c =>
      do _ <- Assert (negb (bool_decide (ckVal c = "")));
      Ret (ckVal c)
  | None => Ret ""
  end.

Definition ValidateDiskChecksum (lom : LOM) (w : world)
  : outcome (errstr * LOM * world) :=
  let cksumType := CksumConf_Type lom in
  if bool_decide (cksumType = ChecksumNone) then Ret (None, lom, w)
  else
    do storedCksum <- storedCksum_of lom;
    (* compute *)
    do _ <- Assert (bool_decide (cksumType = ChecksumXXHash));
    match computeXXHash w (FQN lom) with
    | (_, Some e) => Ret (Some e, lom, w)
    | (computedCksum, None) =>
        if bool_decide (storedCksum = "") then
          let oldCksm := md_cksum (md lom) in
          let lom1 := set_md (set_md_cksum (NewCksum cksumType computedCksum) (md lom)) lom in
          match Persist lom1 w with
          | (Some err, w1) =>
              Ret (Some (ErrErrno err),
                   set_md (set_md_cksum oldCksm (md lom1)) lom1, w1)
          | (None, w1) =>
              do (lom2, w2) <- ReCache lom1 w1;
              Ret (None, lom2, w2)
          end
        else
          let v := NewCksum cksumType computedCksum in
          if negb (EqCksum (md_cksum (md lom)) v) then
            let lom1 := set_BadCksum true lom in
            do w1 <- Uncache lom1 w;
            Ret (Some (ErrBadCksum v (md_cksum (md lom))), lom1, w1)
          else Ret (None, lom, w)
    end.

Definition is_nil {A} (o : option A) : bool :=
  match o with Some _ => false | None => true end.

Definition ValidateChecksum (recompute : bool) (lom : LOM) (w : world)
  : outcome (errstr * LOM * world) :=
  let cksumType := CksumConf_Type lom in
  if bool_decide (cksumType = ChecksumNone) then Ret (None, lom, w)
  else
    do storedCksum <- storedCksum_of lom;
    match lmfs false lom w with
    | (inl err, _) => Ret (Some (ErrErrno err), lom, w)
    | (inr m, _) =>
        let v := md_cksum m in
        if negb recompute && is_nil (md_cksum (md lom)) && is_nil v
        then Ret (None, lom, w)
        else
          (* both checksums were missing and recompute requested *)
          let recomputeEmptyCksms :=
            recompute && is_nil v && is_nil (md_cksum (md lom)) in
          if negb recomputeEmptyCksms && negb (EqCksum (md_cksum (md lom)) v)
          then
            let lom1 := set_BadCksum true lom in
            do w1 <- Uncache lom1 w;
            Ret (Some (ErrBadCksum v (md_cksum (md lom))), lom1, w1)
          else if negb (bool_decide (storedCksum = "")) && negb recompute
          then Ret (None, lom, w)
          else ValidateDiskChecksum lom w
    end.

(** ** The LOM cache runner *)

Definition Second : Z := 1000000000.
Definition Minute : Z := 60 * Second.
Definition Hour : Z := 60 * Minute.

Definition oomEvictAtime : Z := Minute.        (* OOM *)
Definition oomTimeIntval : Z := Second * 10.
Definition mpeEvictAtime : Z := Minute * 5.    (* extreme *)
Definition mpeTimeIntval : Z := Minute.
Definition mphEvictAtime : Z := Minute * 10.   (* high *)
Definition mphTimeIntval : Z := Minute * 2.
Definition mpnEvictAtime : Z := Hour.          (* normal *)
Definition mpnTimeIntval : Z := Minute * 10.
Definition minSize2Evict : Z := 1024 * 256.

(** [unsafe.Sizeof(lmeta{})] on a 64-bit platform: two strings (16 bytes
    each), three [int64], one [uint64], an interface (16) and a map (8). *)
Definition sizeof_lmeta : Z := 16 + 16 + 8 + 8 + 8 + 8 + 16 + 8.

Definition minev : Z := minSize2Evict / sizeof_lmeta.

(** [memsys.MemPressure()]; every level that has no case of its own in
    [Run] takes the default branch. *)
Inductive MemPressure := OOM | MemPressureExtreme | MemPressureHigh | MemPressureNormal.

Definition evictAtime (p : MemPressure) : Z :=
  match p with
  | OOM => oomEvictAtime
  | MemPressureExtreme => mpeEvictAtime
  | MemPressureHigh => mphEvictAtime
  | MemPressureNormal => mpnEvictAtime
  end.

Definition timeIntval (p : MemPressure) : Z :=
  match p with
  | OOM => oomTimeIntval
  | MemPressureExtreme => mpeTimeIntval
  | MemPressureHigh => mphTimeIntval
  | MemPressureNormal => mpnTimeIntval
  end.

(** What the runner takes from its target and from packages that are not
    under src/: the current bucket metadata ([r.T.GetBowner().Get()]), the
    available mountpaths ([fs.Mountpaths.Get()], a map keyed by path), and
    the functions [Uname2Bo] and [HrwFQN(fs.ObjectType, bucket, objname,
    isLocal)], the latter without its digest. *)
Record Target := mkTarget {
  GetBMD : BMD;
  availablePaths : gset string;
  Uname2Bo : string -> string * string;
  T_HrwFQN : string -> string -> bool -> string * errstr
}.

Definition lmeta_zero : lmeta := mkLmeta "" "" 0 0 0 0 None ∅.

(** [&LOM{Bucket: bucket, Objname: objname}]: all other fields are zero. *)
Definition LOM_of (bucket objname : string) : LOM :=
  mkLOM lmeta_zero "" bucket objname "" (mkConfig "")
        (mkBMD (fun _ _ _ => false)) (mkBucketProps 0 "") (mkParsedFQN "" 0)
        false false false false.

Definition lomFromLmeta (T : Target) (m : lmeta) (b : BMD) : LOM * errstr :=
  let '(bucket, objname) := Uname2Bo T (md_uname m) in
  let lom := LOM_of bucket objname in
  let '(local, ex) :=
    if bmd_Exists b bucket (md_bckID m) true then (true, true)
    else if bmd_Exists b bucket (md_bckID m) false then (false, true)
    else (false, false) in
  let lom := set_exists ex lom in
  if ex then
    let '(fqn, err) := T_HrwFQN T bucket objname local in
    (mkLOM (md lom) fqn (Bucket lom) (Objname lom) (HrwFQN lom) (config lom)
           (bmd lom) (BckProps lom) (parsedFQN lom) local (BadCksum lom)
           (exists_ lom) (loaded lom), err)
  else (lom, None).

(** [lom.flushAtime(atime)]: [os.Chtimes] with the file's own mtime; a
    failing call leaves the file as it is. *)
Definition flushAtime (lom : LOM) (atime : Z) (w : world) : world :=
  match os_Stat (fs w) (FQN lom) with
  | inl _ => w
  | inr finfo =>
      match os_Chtimes (fs w) (FQN lom) atime (f_mtime finfo) with
      | inl _ => w
      | inr f => set_fs f w
      end
  end.

(** [now.Sub(atime)]: the difference as a [time.Duration], saturating at
    the bounds of [int64]. *)
Definition Time_Sub (t u : Z) : Z :=
  Z.max Int.min_int64 (Z.min Int.max_int64 (t - u)).

(** The two [atomic.Uint32] counters of [work]. *)
Record tally := mkTally { evicted : Z; total : Z }.

(** The callback of [cache.M.Range] in [work]: the result is whether the
    iteration goes on. *)
Definition feviat (T : Target) (stopping : bool) (bmd : BMD) (now d : Z)
    (key : string * Z * string) (m : lmeta) (st : world * tally)
  : bool * (world * tally) :=
  if stopping then (false, st)
  else
    let '(w, c) := st in
    let c := mkTally (evicted c) (Int.wrap_u32 (total c + 1)) in
    if Time_Sub now (md_atime m) <? d then (true, (w, c))
    else
      let w :=
        if negb (md_atime m =? md_atimefs m) then
          match lomFromLmeta T m bmd with
          | (lom, None) => flushAtime lom (md_atime m) w
          | (_, Some _) => w
          end
        else w in
      let w := set_caches (delete key (caches w)) w in
      (true, (w, mkTally (Int.wrap_u32 (evicted c + 1)) (total c))).

(** [sync.Map.Range]: the callback is called on the entries one after the
    other until it returns false. *)
Fixpoint Range {K V S} (f : K -> V -> S -> bool * S) (l : list (K * V)) (s : S) : S :=
  match l with
  | [] => s
  | (k, v) :: l' =>
      let '(continue, s') := f k v s in
      if continue then Range f l' s' else s'
  end.

Definition in_stripe (cache : string * Z) (key : string * Z * string) : Prop :=
  key.1 = cache.

#[global] Instance in_stripe_dec cache key : Decision (in_stripe cache key).
Proof. unfold in_stripe. apply _. Defined.

(** The entries of one stripe. *)
Definition stripe (cache : string * Z) (c : gmap (string * Z * string) lmeta)
  : gmap (string * Z * string) lmeta :=
  filter (fun kv => in_stripe cache kv.1) c.

(** [lomCaches()]: the stripes [0 .. LomCacheMask] of every available
    mountpath. *)
Definition lomCaches (T : Target) : list (string * Z) :=
  mp ← elements (availablePaths T);
  idx ← seqZ 0 (LomCacheMask + 1);
  [(mp, idx)].

(** [r.work(d)]: [(numevicted, numtotal)].  The goroutines, one per
    stripe, are run one after the other; [now] is [time.Now()]. *)
Definition work (T : Target) (stopping : bool) (now d : Z) (w : world)
  : Z * Z * world :=
  let bmd := GetBMD T in
  let '(w', c) :=
    foldl (fun st cache =>
             Range (feviat T stopping bmd now d)
                   (map_to_list (stripe cache (caches st.1))) st)
          (w, mkTally 0 0) (lomCaches T) in
  (evicted c, total c, w').

(** The state of [Run]: the [stopped] flag of the runner and the timer,
    which holds the duration it is armed with, or nothing once it has fired
    or has been stopped. *)
Record LomCacheRunner := mkRunner { stopped : bool; timer : option Z }.

Definition NewLomCacheRunner : LomCacheRunner := mkRunner false None.

(** Entering [Run]: [timer = time.NewTimer(time.Minute * 10)]. *)
Definition Run_start (r : LomCacheRunner) : LomCacheRunner :=
  mkRunner (stopped r) (Some (Minute * 10)).

(** The body of [case <-timer.C]: [p1] and [p2] are the two readings of the
    memory pressure; the result has the duration that is logged. *)
Definition Run_tick (T : Target) (p1 p2 : MemPressure) (now : Z)
    (r : LomCacheRunner) (w : world) : outcome (Z * LomCacheRunner * world) :=
  let d := evictAtime p1 in
  let '(evicted, total, w') := work T (stopped r) now d w in
  let '(d, tm) :=
    if evicted <? minev then (mpnTimeIntval, None)
    else (timeIntval p2, Some (timeIntval p2)) (* timer.Reset(d) *) in
  do _ <- Assert (total >=? evicted);
  Ret (d, mkRunner (stopped r) tm, w').

Inductive event :=
  | TimerFired (p1 p2 : MemPressure) (now : Z)   (* <-timer.C *)
  | StopSignal.                                   (* <-r.stopCh *)

(** One iteration of the [select] loop of [Run]: [None] when the event
    cannot happen in this state (the timer is not armed, or [Run] has
    returned). *)
Definition Run_select (T : Target) (ev : event) (r : LomCacheRunner) (w : world)
  : option (outcome (LomCacheRunner * world)) :=
  if stopped r then None
  else
    match ev with
    | TimerFired p1 p2 now =>
        match timer r with
        | None => None
        | Some _ =>
            Some (do (_, r', w') <- Run_tick T p1 p2 now (mkRunner (stopped r) None) w;
                  Ret (r', w'))
        end
    | StopSignal => Some (Ret (mkRunner true None, w))
    end.

(** ** The capacity check of the stats tracker ([Trunner._cap]) *)

(** What [_cap] reads of [fs.CapStatus]: the field [PctMax] and the results
    of the methods [IsOOS()] and [Err()], which are not under src/. *)
Record CapStatus := mkCapStatus {
  PctMax : Z;
  cs_IsOOS : bool;     (* cs.IsOOS() *)
  cs_Err : bool        (* cs.Err() != nil *)
}.

(** The result of [fs.CapPeriodic(now, config, &r.TargetCDF)]. *)
Record CapPeriodic := mkCapPeriodic {
  cp_cs : CapStatus;
  cp_updated : bool;
  cp_err : bool;       (* err != nil *)
  cp_errCap : bool     (* errCap != nil *)
}.

(** The fields of [Trunner] that [_cap] touches, with the calls of
    [r.t.OOS(pcs, ...)] it makes: each call records whether [pcs] is
    non-nil. *)
Record Trunner := mkTrunner {
  next : Z;
  cs_last : Z;
  lines : list string;
  oos_calls : list bool
}.

Definition wrap32 (z : Z) : Z := (z + 2 ^ 31) mod 2 ^ 32 - 2 ^ 31.

(** [NodeStateFlags.IsSet]. *)
Definition IsSet (flags flag : Z) : bool := Z.land flags flag =? flag.

Section Cap.

(** The bits of [cos.NodeStateFlags] used here and the constant
    [maxCapLogInterval]; their declarations are not under src/. *)
Variables OOS LowCapacity DiskFault : Z.
Variable maxCapLogInterval : Z.

(** The mountpath lines that the logging loop writes; the loop formats the
    capacity of each mountpath with helpers that are not under src/. *)
Variable cap_lines : list string.

(** [r._cap(config, now)]: [(set, clr)] and the tracker.  [CleanupWM] is
    [config.Space.CleanupWM], [hasAlerts0] is [r.TargetCDF.HasAlerts()] and
    [flags] is [r.nodeStateFlags()].  The assertions of the debug build
    are left out. *)
Definition _cap (cp : CapPeriodic) (CleanupWM : Z) (hasAlerts0 : bool)
    (flags : Z) (now : Z) (r : Trunner) : Z * Z * Trunner :=
  let cs := cp_cs cp in
  let updated := cp_updated cp in
  if cp_err cp then (0, 0, r)
  else if negb updated && negb (cp_errCap cp) then (0, 0, r) (* nothing to do *)
  else
    let pcs := updated in        (* pcs = nil unless updated *)
    let hasAlerts := if negb updated then false else hasAlerts0 in
    (* target to run x-space *)
    let '(errCap, r) :=
      if cp_errCap cp then
        (true, mkTrunner (next r) (cs_last r) (lines r) (pcs :: oos_calls r))
      else if wrap32 CleanupWM <? PctMax cs then
        (true, mkTrunner (next r) (cs_last r) (lines r) (pcs :: oos_calls r))
      else (false, r) in
    (* (periodically | on error): log mountpath cap and state *)
    let r :=
      if (Z.min (next r) (cs_last r + maxCapLogInterval) <=? now)
         || errCap || hasAlerts
      then mkTrunner (next r) now (lines r ++ cap_lines) (oos_calls r)
      else r in
    (* and more *)
    let '(clr, r) :=
      if hasAlerts then
        (0, mkTrunner (next r) (cs_last r)
              (lines r ++ ["Warning: node-state-flags"; "(check mountpath alerts!)"])
              (* the printed flags, flags.String(), are left out *)
              (oos_calls r))
      else if IsSet flags DiskFault && updated then (Z.lor 0 DiskFault, r)
      else (0, r) in
    (* cap alert *)
    if cs_IsOOS cs then (OOS, clr, r)
    else if cs_Err cs then (Z.lor 0 LowCapacity, OOS, r)
    else (0, Z.lor OOS LowCapacity, r).

End Cap.

(** ** Local copies of an object *)

Definition set_md_copies (c : gmap string string) (m : lmeta) : lmeta :=
  mkLmeta (md_uname m) (md_version m) (md_size m) (md_atime m) (md_atimefs m)
          (md_bckID m) (md_cksum m) c.

(** [len(lom.md.copies)]; a nil map and an empty map behave alike in every
    function below, and both are the empty [gmap]. *)
Definition len_copies (lom : LOM) : Z := Z.of_nat (size (md_copies (md lom))).

Definition NumCopies (lom : LOM) : Z := len_copies lom + 1.

Definition GetCopies (lom : LOM) : gmap string string := md_copies (md lom).

Definition IsCopy (lom : LOM) : bool :=
  if negb (len_copies lom =? 1) then false
  else bool_decide (is_Some (md_copies (md lom) !! HrwFQN lom)).

Definition HasCopies (lom : LOM) : bool :=
  negb (IsCopy lom) && (1 <? NumCopies lom).

(** Misplaced, and so subject to rebalancing. *)
Definition Misplaced (lom : LOM) : bool :=
  negb (bool_decide (HrwFQN lom = FQN lom)) && negb (IsCopy lom).

Definition SetCopies (cpyfqn mpi : string) (lom : LOM) : LOM :=
  set_md (set_md_copies {[ cpyfqn := mpi ]} (md lom)) lom.

Definition AddCopy (cpyfqn mpi : string) (lom : LOM) : outcome LOM :=
  if bool_decide (md_copies (md lom) = ∅) then Ret (SetCopies cpyfqn mpi lom)
  else
    do _ <- Assert (negb (bool_decide (is_Some (md_copies (md lom) !! cpyfqn))));
    Ret (set_md (set_md_copies (<[cpyfqn := mpi]> (md_copies (md lom))) (md lom)) lom).

(** [lom._whingeCopy()]: the error is logged; its debug-only assertion is
    left out. *)
Definition _whingeCopy (lom : LOM) : bool := IsCopy lom.

(** The error strings of [DelCopy] and [DelAllCopies]. *)
Inductive copy_errmsg :=
  | ErrNoCopy (l : Z) (cpyfqn : string)    (* "lom %s(%d): copy %s does not exist" *)
  | ErrRemove (e : errno).                 (* err.Error() of os.Remove *)

Section Copies.

(** The paths on which [os.Remove] fails with an I/O fault. *)
Variable remove_fault : gmap string errno.

(** [os.Remove]: the file goes, and its metadata blob with it. *)
Definition os_Remove (f : fsys) (fqn : string) : option errno * fsys :=
  match remove_fault !! fqn with
  | Some e => (Some e, f)
  | None =>
      match files f !! fqn with
      | None => (Some ENOENT, f)
      | Some _ =>
          (None, mkFsys (delete fqn (files f)) (delete fqn (xattrs f)) (stat_fault f)
                   (getxattr_fault f) (setxattr_fault f) (read_fault f)
                   (chtimes_fault f))
      end
  end.

(** The state of the loop of [DelAllCopies]: the filesystem, the copies
    still in [lom.md.copies], the count [n] and the last error. *)
Definition del_state : Type := fsys * gmap string string * Z * option copy_errmsg.

(** One round of [for cpyfqn := range lom.md.copies]. *)
Definition del_step (st : del_state) (cpy : string * string) : del_state :=
  let '(f, copies, n, errstr) := st in
  match os_Remove f cpy.1 with
  | (Some err, f1) =>
      if negb (os_IsNotExist err) then (f1, copies, n, Some (ErrRemove err))
      else (f1, delete cpy.1 copies, n + 1, errstr)
  | (None, f1) => (f1, delete cpy.1 copies, n + 1, errstr)
  end.

Definition DelAllCopies (lom : LOM) (f : fsys) : option copy_errmsg * LOM * fsys :=
  if _whingeCopy lom then (None, lom, f)
  else if negb (HasCopies lom) then (None, lom, f)
  else
    let '(f1, copies, n, errstr) :=
      foldl del_step (f, md_copies (md lom), 0, None)
            (map_to_list (md_copies (md lom))) in
    if n <? Z.of_nat (size copies)
    then (errstr, set_md (set_md_copies copies (md lom)) lom, f1)
    else (errstr, set_md (set_md_copies ∅ (md lom)) lom, f1).

Definition DelCopy (cpyfqn : string) (lom : LOM) (f : fsys)
  : option copy_errmsg * LOM * fsys :=
  let l := len_copies lom in
  if negb (bool_decide (is_Some (md_copies (md lom) !! cpyfqn)))
  then (Some (ErrNoCopy l cpyfqn), lom, f)
  else if l =? 1 then DelAllCopies lom f
  else if _whingeCopy lom then (None, lom, f)
  else
    let lom1 := set_md (set_md_copies (delete cpyfqn (md_copies (md lom))) (md lom)) lom in
    match os_Remove f cpyfqn with
    | (Some err, f1) =>
        if negb (os_IsNotExist err) then (Some (ErrRemove err), lom1, f1)
        else (None, lom1, f1)
    | (None, f1) => (None, lom1, f1)
    end.

End Copies.

(** ** Checksum of an object that may have none *)

(** [lom.CksumComputeIfMissing()]: [(cksum, errstr)]. *)
Definition CksumComputeIfMissing (lom : LOM) (w : world) : option Cksum * errstr :=
  if bool_decide (CksumConf_Type lom = ChecksumNone) then (None, None)
  else
    match md_cksum (md lom) with
    | Some c => (Some c, None)
    | None =>
        match computeXXHash w (FQN lom) with
        | (_, Some e) => (None, Some e)
        | (val, None) => (NewCksum ChecksumXXHash val, None)
        end
    end.

(** ** Evicting a bucket from the caches *)

(** The callback of [cache.M.Range] in [EvictCache]: the key is the uname,
    decoded by [Uname2Bo]. *)
Definition fevict (T : Target) (bucket : string) (key : string * Z * string)
    (_ : lmeta) (w : world) : bool * world :=
  let '(b, _) := Uname2Bo T key.2 in
  (true,
   if bool_decide (bucket = b) then set_caches (delete key (caches w)) w else w).

(** [EvictCache(bucket)]; the goroutines, one per stripe, are run one after
    the other. *)
Definition EvictCache (T : Target) (bucket : string) (w : world) : world :=
  foldl (fun w cache =>
           Range (fevict T bucket) (map_to_list (stripe cache (caches w))) w)
        w (lomCaches T).

(** ** The stats tracker: disk metrics *)

Definition diskMetricLabel : string := "disk".

Definition _dmetric (disk metric : string) : string :=
  diskMetricLabel ++ "." ++ disk ++ "." ++ metric.

Definition nameRbps (disk : string) : string := _dmetric disk "read.bps".
Definition nameRavg (disk : string) : string := _dmetric disk "avg.rsize".
Definition nameWbps (disk : string) : string := _dmetric disk "write.bps".
Definition nameWavg (disk : string) : string := _dmetric disk "avg.wsize".
Definition nameUtil (disk : string) : string := _dmetric disk "util".

(** [strings.HasPrefix] and [strings.HasSuffix]. *)
Definition HasPrefix (s pre : string) : bool := String.prefix pre s.

Fixpoint drop_string (n : nat) (s : string) : string :=
  match n, s with
  | O, _ => s
  | S n', String _ s' => drop_string n' s'
  | S _, EmptyString => EmptyString
  end.

Definition HasSuffix (s suf : string) : bool :=
  (String.length suf <=? String.length s)%nat
  && String.eqb (drop_string (String.length s - String.length suf) s) suf.

Definition isDiskMetric (name : string) : bool := HasPrefix name "disk.".

Definition isDiskUtilMetric (name : string) : bool :=
  isDiskMetric name && HasSuffix name ".util".

(** Modelled from the spec: the kinds of metrics and [runner.reg] are not
    under src/.  The spec lists the kinds and has [Register(name, kind)]
    add the metric, the registration of a name that is registered with
    the same kind changing nothing.  For a name that is registered with
    another kind, which the spec leaves open, the model keeps the
    registered metric; no property below depends on it. *)
Inductive kind :=
  | KindCounter | KindSize | KindLatency | KindTotal | KindThroughput
  | KindComputedThroughput | KindGauge.

Record statsValue := mkStatsValue { sv_kind : kind; Value : Z }.

Definition reg (name : string) (k : kind) (t : gmap string statsValue)
  : gmap string statsValue :=
  match t !! name with
  | Some _ => t
  | None => <[name := mkStatsValue k 0]> t
  end.

(** [r.RegDiskMetrics(snode, disk)] on the tracker [r.core.Tracker]. *)
Definition RegDiskMetrics (disk : string) (s : gmap string statsValue)
  : gmap string statsValue :=
  let n := nameRbps disk in
  match s !! n with
  | Some _ => s   (* must be config.TestingEnv() *)
  | None =>
      let s := reg n KindComputedThroughput s in
      let s := reg (nameWbps disk) KindComputedThroughput s in
      let s := reg (nameRavg disk) KindGauge s in
      let s := reg (nameWavg disk) KindGauge s in
      reg (nameUtil disk) KindGauge s
  end.

(** ** The stats tracker: soft errors *)

(** [config.FSHC]: what [_softErrs] reads of it. *)
Record FSHCConf := mkFSHCConf {
  FSHC_Enabled : bool;
  SoftErrs : Z;        (* int *)
  SoftErrTime : Z      (* a duration, in nanoseconds *)
}.

(** [r._softErrs(config)]: the new value of [r.softErrs] and whether
    [r.t.SoftFSHC()] is called.  [statsTime] is [r.core.statsTime],
    [numSoftErrs] is [r.numSoftErrs()] and [nonIOErr] the counter that is
    read atomically; the sums and the product are taken in [int64], and the
    division truncates.  The assertions of the debug build are left out. *)
Definition _softErrs (c : FSHCConf) (statsTime numSoftErrs nonIOErr softErrs : Z)
  : Z * bool :=
  if negb (FSHC_Enabled c) then (softErrs, false)
  else if statsTime <? 5 * Second then (softErrs, false)
  else
    let n := Int.wrap64 (numSoftErrs - nonIOErr) in   (* num soft excluding non-IO *)
    let d := Int.wrap64 (n - softErrs) in             (* the delta *)
    let j := Int.wrap64 (Z.quot (Int.wrap64 (d * SoftErrTime c)) statsTime) in
    if j <? SoftErrs c then (n, false) else (n, true).

(** ** The stats tracker: logging the disks *)

Definition minLogDiskUtil : Z := 10.

(** [ios.DiskStats]: what [logDiskStats] prints. *)
Record DiskStats := mkDiskStats {
  RBps : Z; Ravg : Z; WBps : Z; Wavg : Z; Util : Z
}.

Section LogDiskStats.

(** [cos.ToSizeIEC(size, digits)] is not under src/. *)
Variable ToSizeIEC : Z -> Z -> string.

(** The line of one disk, e.g. [sda: 94MiB/s, 68KiB, 25MiB/s, 21KiB, 82%]. *)
Definition disk_line (disk : string) (stats : DiskStats) : string :=
  disk ++ ": " ++ ToSizeIEC (RBps stats) 0 ++ "/s, " ++ ToSizeIEC (Ravg stats) 0
       ++ ", " ++ ToSizeIEC (WBps stats) 0 ++ "/s, " ++ ToSizeIEC (Wavg stats) 0
       ++ ", " ++ Strconv.FormatInt (Util stats) ++ "%".

(** Whether the loop of [logDiskStats] skips a disk. *)
Definition skip_disk (now next_ : Z) (stats : DiskStats) : bool :=
  (Util stats <? Z.quot minLogDiskUtil 2)
  || ((Util stats <? minLogDiskUtil) && (now <? next_)).

(** [r.logDiskStats(now)]: the new [r.lines], from [r.disk], [r.next] and
    the old [r.lines]. *)
Definition logDiskStats (disk : gmap string DiskStats) (now next_ : Z)
    (ls : list string) : list string :=
  foldl (fun ls ds =>
           if skip_disk now next_ ds.2 then ls
           else (ls ++ [disk_line ds.1 ds.2])%list)
        ls (map_to_list disk).

End LogDiskStats.

(** ** Notions used in the statements *)

(** The world after [lom.Uncache()]. *)
Definition uncached (lom : LOM) (w : world) : world :=
  set_caches (delete (cache_key lom) (caches w)) w.

(** [Load] serves the object from the cache when the LOM is in place, its
    entry is cached and the bucket of the entry still exists; otherwise it
    takes the slow path through [FromFS]. *)
Definition cache_hit (lom : LOM) (w : world) : bool :=
  bool_decide (FQN lom = HrwFQN lom) &&
  match caches w !! cache_key lom with
  | Some m =>
      negb (BckIsLocal lom
            && negb (bmd_Exists (bmd lom) (Bucket lom) (md_bckID m) (BckIsLocal lom)))
  | None => false
  end.

(** An entry is kept when it was accessed less than [d] ago. *)
Definition fresh (now d : Z) (m : lmeta) : bool := now - md_atime m <? d.

(** Writing the access time of an evicted entry through to its file. *)
Definition flush_entry (T : Target) (b : BMD) (m : lmeta) (w : world) : world :=
  if negb (md_atime m =? md_atimefs m) then
    match lomFromLmeta T m b with
    | (lom, None) => flushAtime lom (md_atime m) w
    | (_, Some _) => w
    end
  else w.

Definition tally_ok (c : tally) : Prop :=
  0 <= evicted c < 2 ^ 32 /\ 0 <= total c < 2 ^ 32.

(** The caches after evicting the old entries of the list [l]. *)
Definition evict_list (now d : Z) (l : list (string * Z * string * lmeta))
    (c : gmap (string * Z * string) lmeta) : gmap (string * Z * string) lmeta :=
  foldl (fun cc km => if fresh now d km.2 then cc else delete km.1 cc) c l.

Definition old_entry (now d : Z) (kv : string * Z * string * lmeta) : Prop :=
  fresh now d kv.2 = false.

#[global] Instance old_entry_dec now d kv : Decision (old_entry now d kv).
Proof. unfold old_entry. apply _. Defined.

Definition old_entries (now d : Z) (l : list (string * Z * string * lmeta))
  : list (string * Z * string * lmeta) :=
  filter (old_entry now d) l.

(** The entries of a stripe that stay: the old ones are gone. *)
Definition evicted_from (cache : string * Z) (now d : Z)
    (kv : string * Z * string * lmeta) : Prop :=
  in_stripe cache kv.1 /\ fresh now d kv.2 = false.

#[global] Instance evicted_from_dec cache now d kv : Decision (evicted_from cache now d kv).
Proof. unfold evicted_from. apply _. Defined.

(** The loop of [work] over a list of stripes. *)
Definition work_on (T : Target) (b : BMD) (now d : Z) (ss : list (string * Z))
    (st : world * tally) : world * tally :=
  foldl (fun st cache =>
           Range (feviat T false b now d)
                 (map_to_list (stripe cache (caches st.1))) st) st ss.

Definition visited_old (ss : list (string * Z)) (now d : Z)
    (kv : string * Z * string * lmeta) : Prop :=
  kv.1.1 ∈ ss /\ fresh now d kv.2 = false.

#[global] Instance visited_old_dec ss now d kv : Decision (visited_old ss now d kv).
Proof. unfold visited_old. apply _. Defined.

(** [os.Remove] on this path reports an error other than not-exist. *)
Definition removal_fails (remove_fault : gmap string errno) (p : string) : bool :=
  match remove_fault !! p with
  | Some e => negb (os_IsNotExist e)
  | None => false
  end.

(** The copies left in the metadata by [DelAllCopies]. *)
Definition failed_copies (remove_fault : gmap string errno) (lom : LOM)
  : gmap string string :=
  filter (fun kv : string * string => removal_fails remove_fault kv.1 = true)
         (md_copies (md lom)).

(** Every cached entry sits at the key of its own uname, as [ReCache] and
    [Load] store it. *)
Definition caches_wf (w : world) : Prop :=
  map_Forall (fun (k : string * Z * string) m => md_uname m = k.2) (caches w).

#[global] Instance caches_wf_dec w : Decision (caches_wf w).
Proof. unfold caches_wf. apply _. Defined.

(** The metadata of a LOM after a successful [FromFS]: the stored record
    [m] of the object and the access time of its file. *)
Definition md_from_fs (cur m : lmeta) (fi : file) : lmeta :=
  mkLmeta (md_uname cur) (md_version m) (md_size m) (f_atime fi) (f_atime fi)
          (md_bckID cur) (md_cksum m) (md_copies m).

(** The entries that [lomCaches] reaches: those on an available mountpath,
    in one of its stripes. *)
Definition reached (T : Target) (key : string * Z * string) : Prop :=
  key.1.1 ∈ availablePaths T /\ 0 <= key.1.2 <= LomCacheMask.

#[global] Instance reached_dec T key : Decision (reached T key).
Proof. unfold reached. apply _. Defined.

(** The entries that [EvictCache] deletes. *)
Definition evicted_bucket (T : Target) (bucket : string)
    (kv : string * Z * string * lmeta) : Prop :=
  reached T kv.1 /\ (Uname2Bo T kv.1.2).1 = bucket.

#[global] Instance evicted_bucket_dec T bucket kv : Decision (evicted_bucket T bucket kv).
Proof. unfold evicted_bucket. apply _. Defined.

(** The five metrics of a disk. *)
Definition disk_metric_names (disk : string) : list string :=
  [nameRbps disk; nameRavg disk; nameWbps disk; nameWavg disk; nameUtil disk].

(** The file [fi] after [os.Chtimes] with the access time [a] and its own
    modification time. *)
Definition touch (a : Z) (fi : file) : file :=
  mkFile (f_size fi) a (f_mtime fi) (f_xxhash fi).

(** An entry [m] of the caches [c] whose access time a walk over the
    stripes [ss] with the eviction age [d] writes to the file at [fqn]:
    the entry is old, its access time is not the one on the filesystem,
    and [lomFromLmeta] rebuilds its LOM at [fqn]. *)
Definition written_through (T : Target) (b : BMD) (now d : Z)
    (ss : list (string * Z)) (c : gmap (string * Z * string) lmeta)
    (fqn : string) (m : lmeta) : Prop :=
  exists k lom,
    c !! k = Some m /\ k.1 ∈ ss /\ fresh now d m = false /\
    md_atime m <> md_atimefs m /\
    lomFromLmeta T m b = (lom, None) /\ FQN lom = fqn.

(** Two filesystems that differ in their files at most. *)
Definition same_but_files (f f0 : fsys) : Prop :=
  xattrs f = xattrs f0 /\ stat_fault f = stat_fault f0 /\
  getxattr_fault f = getxattr_fault f0 /\ setxattr_fault f = setxattr_fault f0 /\
  read_fault f = read_fault f0 /\ chtimes_fault f = chtimes_fault f0.

(** The files after a walk, against those before it: no file comes or
    goes, and a file is as it was but for its access time, which is the
    one it had or the one of an entry written through to it. *)
Definition files_touched (T : Target) (b : BMD) (now d : Z)
    (ss : list (string * Z)) (w0 w : world) : Prop :=
  forall q,
    match files (fs w) !! q with
    | None => files (fs w0) !! q = None
    | Some f' =>
        exists f0,
          files (fs w0) !! q = Some f0 /\
          (f' = f0 \/
           exists m, written_through T b now d ss (caches w0) q m /\
                     f' = touch (md_atime m) f0)
    end.

(** An entry whose access time has to reach its file: it is old, its
    access time is not the one on the filesystem, its LOM is rebuilt at
    the path of an existing file on which [os.Stat] and [os.Chtimes] do
    not fail, and the entries written through to that file agree on the
    access time. *)
Definition to_flush (T : Target) (b : BMD) (now d : Z) (ss : list (string * Z))
    (w0 : world) (k : string * Z * string) (m : lmeta) (lom : LOM) (fi : file)
  : Prop :=
  caches w0 !! k = Some m /\ fresh now d m = false /\
  md_atime m <> md_atimefs m /\
  lomFromLmeta T m b = (lom, None) /\
  files (fs w0) !! FQN lom = Some fi /\
  stat_fault (fs w0) !! FQN lom = None /\
  chtimes_fault (fs w0) !! FQN lom = None /\
  (forall m', written_through T b now d ss (caches w0) (FQN lom) m' ->
              md_atime m' = md_atime m).

(** What holds of the world [w] in the course of a walk that started from
    [w0]: entries only go, the filesystem changes in access times only,
    and an entry that has to be flushed is still cached or has reached its
    file. *)
Definition walk_inv (T : Target) (b : BMD) (now d : Z) (ss : list (string * Z))
    (w0 w : world) : Prop :=
  (forall k m, caches w !! k = Some m -> caches w0 !! k = Some m) /\
  same_but_files (fs w) (fs w0) /\
  files_touched T b now d ss w0 w /\
  (forall k m lom fi,
     to_flush T b now d ss w0 k m lom fi ->
     caches w !! k = Some m \/
     files (fs w) !! FQN lom = Some (touch (md_atime m) fi)).

(** ** Sample objects

    One object [b/o] of 1 KiB on mountpath [/mp1], used to run the
    definitions on concrete inputs. *)

Definition fs_empty : fsys := mkFsys ∅ ∅ ∅ ∅ ∅ ∅ ∅.

Definition sample_fqn : string := "/mp1/obj/local/b/o".

Definition sample_md (ver : string) (ck : option Cksum) : lmeta :=
  mkLmeta "b/o" ver 1024 100 100 1 ck ∅.

Definition sample_file (hash : string) : file := mkFile 1024 100 90 hash.

(** The filesystem with one file at [fqn] and, if any, its metadata. *)
Definition sample_fs_at (fqn hash : string) (blob : option lmeta) : fsys :=
  mkFsys {[ fqn := sample_file hash ]}
         (match blob with Some m => {[ fqn := m ]} | None => ∅ end)
         ∅ ∅ ∅ ∅ ∅.

Definition sample_world_at (fqn hash : string) (blob : option lmeta) : world :=
  mkWorld ∅ (sample_fs_at fqn hash blob) [].

Definition sample_world : string -> option lmeta -> world :=
  sample_world_at sample_fqn.

(** The path of a copy of the object on another mountpath. *)
Definition copy_fqn : string := "/mp2/obj/local/b/o".

Definition xx (val : string) : option Cksum := Some (mkCksum ChecksumXXHash val).

(** A loaded LOM of the object at [fqn] on mountpath [/mp1]; it is in
    place when [fqn] is [sample_fqn]. *)
Definition sample_lom (fqn : string) (m : lmeta) : LOM :=
  mkLOM m fqn "b" "o" sample_fqn (mkConfig ChecksumXXHash)
        (mkBMD (fun _ _ _ => true)) (mkBucketProps 1 PropInherit)
        (mkParsedFQN "/mp1" 5) true false true true.

(** A loaded LOM of the copy of the object at [copy_fqn], on mountpath
    [/mp2]: it is not in place. *)
Definition sample_copy (m : lmeta) : LOM :=
  mkLOM m copy_fqn "b" "o" sample_fqn (mkConfig ChecksumXXHash)
        (mkBMD (fun _ _ _ => true)) (mkBucketProps 1 PropInherit)
        (mkParsedFQN "/mp2" 5) true false true true.

(** The same LOM in a bucket whose checksum type is none. *)
Definition sample_lom_nocksum (fqn : string) (m : lmeta) : LOM :=
  mkLOM m fqn "b" "o" sample_fqn (mkConfig ChecksumXXHash)
        (mkBMD (fun _ _ _ => true)) (mkBucketProps 1 ChecksumNone)
        (mkParsedFQN "/mp1" 5) true false true true.

(** A target with the mountpath [/mp1], on which every bucket exists and
    the object [b/o] is placed at [sample_fqn]. *)
Definition sample_target : Target :=
  mkTarget (mkBMD (fun _ _ _ => true)) {[ "/mp1" ]}
           (fun _ => ("b", "o")) (fun _ _ _ => (sample_fqn, None)).

(** Two hours, in nanoseconds, and an entry last accessed at [atime] whose
    access time on the filesystem is [atimefs]. *)
Definition two_hours : Z := 2 * Hour.

Definition entry_at (atime atimefs : Z) : lmeta :=
  mkLmeta "b/o" "1" 1024 atime atimefs 1 None ∅.

(** Two cached entries at time [two_hours]: the entry of [b/o], not
    accessed since time 100 and never written through, and an entry of
    another object accessed a second ago. *)
Definition sample_cached_world : world :=
  mkWorld {[ ("/mp1", 5, "b/o") := entry_at 100 90;
             ("/mp1", 7, "b/p") := entry_at (two_hours - Second) 0 ]}
          (sample_fs_at sample_fqn "h" None) [].

(** Three distinct bits for the flags [OOS], [LowCapacity] and
    [DiskFault], a tracker that has logged nothing yet, and a capacity
    snapshot with the given maximum use, out-of-space state and error. *)
Definition bit_OOS : Z := 2 ^ 8.
Definition bit_LowCapacity : Z := 2 ^ 11.
Definition bit_DiskFault : Z := 2 ^ 13.

Definition sample_trunner : Trunner := mkTrunner 0 0 [] [].

Definition sample_cap (cp : CapPeriodic) : Z * Z * Trunner :=
  _cap bit_OOS bit_LowCapacity bit_DiskFault (Minute * 60) ["/mp1: used 85%"]
       cp 80 false 0 Second sample_trunner.

(** The object [b/o] with copies on [/mp2] and [/mp3], the second of which
    cannot be removed, and the filesystem that holds the three files. *)
Definition copy3_fqn : string := "/mp3/obj/local/b/o".

Definition sample_mirrored : LOM :=
  sample_lom sample_fqn
    (mkLmeta "b/o" "1" 1024 100 100 1 None
             {[ copy_fqn := "/mp2"; copy3_fqn := "/mp3" ]}).

Definition sample_remove_fault : gmap string errno := {[ copy3_fqn := EACCES ]}.

Definition sample_mirrored_fs : fsys :=
  mkFsys {[ sample_fqn := sample_file "h"; copy_fqn := sample_file "h";
            copy3_fqn := sample_file "h" ]} ∅ ∅ ∅ ∅ ∅ ∅.

(** The same two entries over a file whose access time is still the one
    the old entry has for the filesystem. *)
Definition sample_stale_world : world :=
  mkWorld {[ ("/mp1", 5, "b/o") := entry_at 100 90;
             ("/mp1", 7, "b/p") := entry_at (two_hours - Second) 0 ]}
          (mkFsys {[ sample_fqn := mkFile 1024 90 80 "h" ]} ∅ ∅ ∅ ∅ ∅ ∅) [].

(** * Properties *)

(** ** Integers and decimal strings *)

Section IntFacts.
Import Int.

Lemma wrap64_id z : in_int64 z -> wrap64 z = z.
Proof.
  unfold in_int64, min_int64, max_int64, wrap64. intros H.
  rewrite Z.mod_small; lia.
Qed.

Lemma wrap64_range z : in_int64 (wrap64 z).
Proof.
  unfold in_int64, min_int64, max_int64, wrap64.
  pose proof (Z.mod_pos_bound (z + 2 ^ 63) (2 ^ 64) ltac:(lia)). lia.
Qed.

Lemma wrap_u32_small z : 0 <= z < 2 ^ 32 -> wrap_u32 z = z.
Proof. intros H. unfold wrap_u32. now apply Z.mod_small. Qed.

End IntFacts.

Section StrconvFacts.
Import Strconv.

Lemma digit_of_digit_char d :
  0 <= d < 10 -> digit_of (digit_char d) = Some d.
Proof.
  intros Hd.
  assert (Hc : d = 0 \/ d = 1 \/ d = 2 \/ d = 3 \/ d = 4 \/
               d = 5 \/ d = 6 \/ d = 7 \/ d = 8 \/ d = 9) by lia.
  repeat (destruct Hc as [-> | Hc]; [reflexivity |]).
  now subst d.
Qed.

Lemma digit_of_not_sign c d :
  digit_of c = Some d -> Ascii.eqb c "-" = false /\ Ascii.eqb c "+" = false.
Proof.
  intros Hd. split.
  - destruct (Ascii.eqb_spec c "-") as [-> | _]; [discriminate Hd | reflexivity].
  - destruct (Ascii.eqb_spec c "+") as [-> | _]; [discriminate Hd | reflexivity].
Qed.

Lemma utoa_aux_nonempty fuel : forall n s,
  s <> EmptyString -> utoa_aux fuel n s <> EmptyString.
Proof.
  induction fuel as [| fuel IH]; intros n s Hs; simpl; [exact Hs |].
  destruct (n <? 10); [discriminate |].
  apply IH. discriminate.
Qed.

(** Parsing the digits that [utoa_aux] puts in front of [s] shifts the
    accumulator by a power of ten and adds the number. *)
Lemma digits_from_utoa_aux fuel : forall n s,
  0 <= n < 10 ^ Z.of_nat fuel ->
  exists p, forall acc,
    digits_from acc (utoa_aux fuel n s) = digits_from (acc * p + n) s.
Proof.
  induction fuel as [| fuel IH]; intros n s Hn.
  - exists 1. intros acc. simpl. f_equal.
    change (10 ^ Z.of_nat 0) with 1 in Hn. lia.
  - simpl utoa_aux. destruct (Z.ltb_spec n 10) as [Hlt | Hge].
    + exists 10. intros acc. simpl.
      rewrite Z.mod_small by lia.
      rewrite digit_of_digit_char by lia. reflexivity.
    + assert (Hq : 0 <= n / 10 < 10 ^ Z.of_nat fuel).
      { split; [apply Z.div_pos; lia |].
        apply Z.div_lt_upper_bound; [lia |].
        rewrite Nat2Z.inj_succ, Z.pow_succ_r in Hn by lia. lia. }
      destruct (IH (n / 10) (String (digit_char (n mod 10)) s) Hq) as [p Hp].
      exists (p * 10). intros acc. rewrite Hp. simpl.
      rewrite digit_of_digit_char by (apply Z.mod_pos_bound; lia).
      f_equal. pose proof (Z.div_mod n 10 ltac:(lia)). lia.
Qed.

Lemma parse_unsigned_utoa n :
  0 <= n -> parse_unsigned (utoa n) = inr n.
Proof.
  intros Hn. unfold utoa.
  assert (Hfuel : 0 <= n < 10 ^ Z.of_nat (S (Z.to_nat (Z.log2 n)))).
  { split; [exact Hn |].
    rewrite Nat2Z.inj_succ, Z2Nat.id by apply Z.log2_nonneg.
    destruct (Z.eq_dec n 0) as [-> | Hnz]; [reflexivity |].
    pose proof (Z.log2_spec n ltac:(lia)) as [_ Hub].
    eapply Z.lt_le_trans; [exact Hub |].
    apply Z.pow_le_mono_l. pose proof (Z.log2_nonneg n). lia. }
  destruct (digits_from_utoa_aux _ n EmptyString Hfuel) as [p Hp].
  specialize (Hp 0). simpl digits_from in Hp at 2.
  unfold parse_unsigned.
  destruct (utoa_aux (S (Z.to_nat (Z.log2 n))) n EmptyString) eqn:E.
  - exfalso. revert E. simpl.
    destruct (n <? 10); [discriminate |].
    apply utoa_aux_nonempty. discriminate.
  - rewrite Hp. f_equal; lia.
Qed.

(** [Atoi] reads back what the %d verb prints, on the whole range of
    [int64]. *)
Lemma Atoi_FormatInt n : Int.in_int64 n -> Atoi (FormatInt n) = inr n.
Proof.
  unfold Int.in_int64, Int.min_int64, Int.max_int64. intros Hn.
  unfold FormatInt. destruct (Z.ltb_spec n 0) as [Hneg | Hpos].
  - unfold Atoi. simpl Ascii.eqb. cbv iota.
    rewrite parse_unsigned_utoa by lia.
    destruct (Z.leb_spec (- n) (2 ^ 63)); [f_equal; lia | lia].
  - pose proof (parse_unsigned_utoa n Hpos) as Hp.
    unfold Atoi. destruct (utoa n) as [| c s] eqn:E; [discriminate Hp |].
    assert (Hc : exists d, digit_of c = Some d).
    { unfold parse_unsigned in Hp. simpl in Hp.
      destruct (digit_of c) as [d |]; [eauto | discriminate Hp]. }
    destruct Hc as [d Hd].
    destruct (digit_of_not_sign c d Hd) as [-> ->].
    rewrite Hp. destruct (Z.ltb_spec n (2 ^ 63)); [reflexivity | lia].
Qed.

End StrconvFacts.

(** ** IncObjectVersion *)

Lemma digit_of_range c d : Strconv.digit_of c = Some d -> 0 <= d <= 9.
Proof.
  unfold Strconv.digit_of.
  destruct (Z.leb_spec 48 (Z.of_N (N_of_ascii c)));
    destruct (Z.leb_spec (Z.of_N (N_of_ascii c)) 57); simpl;
    intros [= <-]; lia.
Qed.

Lemma digits_from_nonneg s : forall acc n,
  0 <= acc -> Strconv.digits_from acc s = Some n -> 0 <= n.
Proof.
  induction s as [| c s IH]; intros acc n Hacc; simpl.
  - intros [= <-]. exact Hacc.
  - destruct (Strconv.digit_of c) as [d |] eqn:Hd; [| discriminate].
    apply digit_of_range in Hd. apply IH. lia.
Qed.

Lemma Atoi_range s n : Strconv.Atoi s = inr n -> Int.in_int64 n.
Proof.
  unfold Strconv.Atoi, Int.in_int64, Int.min_int64, Int.max_int64.
  destruct s as [| c s]; [discriminate |].
  set (sb := if Ascii.eqb c "-" then (true, s)
             else if Ascii.eqb c "+" then (false, s) else (false, String c s)).
  destruct sb as [neg body].
  destruct (Strconv.parse_unsigned body) as [e | un] eqn:Hp; [discriminate |].
  assert (Hun : 0 <= un).
  { unfold Strconv.parse_unsigned in Hp. destruct body; [discriminate |].
    destruct (Strconv.digits_from 0 (String a body)) eqn:Hd; [| discriminate].
    injection Hp as <-. eapply digits_from_nonneg; [| exact Hd]. lia. }
  destruct neg.
  - destruct (Z.leb_spec un (2 ^ 63)); [| discriminate]. intros [= <-]. lia.
  - destruct (Z.ltb_spec un (2 ^ 63)); [| discriminate]. intros [= <-]. lia.
Qed.

Lemma Atoi_empty : Strconv.Atoi "" = inl Strconv.ErrSyntax.
Proof. reflexivity. Qed.

Lemma lmfs_false lom w : lmfs false lom w = (getxattr (fs w) (FQN lom), lom).
Proof. unfold lmfs. now destruct (getxattr (fs w) (FQN lom)). Qed.

(** The version increment on the stored version, in the terms of the
    code: the sum is taken in [int]. *)
Lemma IncObjectVersion_numeric lom w m n :
  exists_ lom = true ->
  getxattr (fs w) (FQN lom) = inr m ->
  Strconv.Atoi (md_version m) = inr n ->
  IncObjectVersion lom w = (Strconv.FormatInt (Int.wrap64 (n + 1)), None).
Proof.
  intros Hex Hx Ha. unfold IncObjectVersion.
  rewrite Hex, lmfs_false, Hx. simpl.
  case_bool_decide as Hv.
  - rewrite Hv, Atoi_empty in Ha. discriminate.
  - now rewrite Ha.
Qed.

(** C5, as amended: [IncObjectVersion] returns "1" when the object does
    not exist or its stored version is empty; when the stored version is a
    decimal integer [n] that [strconv.Atoi] accepts (in particular the
    decimal string of an [int]) and [n] is below the largest [int], it
    returns the decimal string of [n + 1]; when [Atoi] rejects the stored
    version, it fails with that error. *)
Theorem IncObjectVersion_spec lom w :
  (exists_ lom = false -> IncObjectVersion lom w = ("1", None)) /\
  (forall m,
     exists_ lom = true -> getxattr (fs w) (FQN lom) = inr m ->
     (md_version m = "" -> IncObjectVersion lom w = ("1", None)) /\
     (forall n, Strconv.Atoi (md_version m) = inr n -> n < Int.max_int64 ->
        IncObjectVersion lom w = (Strconv.FormatInt (n + 1), None)) /\
     (forall n, md_version m = Strconv.FormatInt n ->
        Int.min_int64 <= n < Int.max_int64 ->
        IncObjectVersion lom w = (Strconv.FormatInt (n + 1), None)) /\
     (forall e, md_version m <> "" -> Strconv.Atoi (md_version m) = inl e ->
        IncObjectVersion lom w = ("", Some (ErrAtoi e (md_version m))))).
Proof.
  split.
  - intros Hex. unfold IncObjectVersion. now rewrite Hex.
  - intros m Hex Hx. repeat split.
    + intros Hv. unfold IncObjectVersion. rewrite Hex, lmfs_false, Hx. simpl.
      now rewrite bool_decide_eq_true_2.
    + intros n Ha Hn. rewrite (IncObjectVersion_numeric lom w m n Hex Hx Ha).
      rewrite wrap64_id; [reflexivity |].
      apply Atoi_range in Ha. unfold Int.in_int64, Int.max_int64 in *. lia.
    + intros n Hv Hn.
      assert (Ha : Strconv.Atoi (md_version m) = inr n).
      { rewrite Hv. apply Atoi_FormatInt. unfold Int.in_int64. lia. }
      rewrite (IncObjectVersion_numeric lom w m n Hex Hx Ha).
      rewrite wrap64_id; [reflexivity |].
      unfold Int.in_int64, Int.max_int64, Int.min_int64 in *. lia.
    + intros e Hv Ha. unfold IncObjectVersion. rewrite Hex, lmfs_false, Hx. simpl.
      rewrite bool_decide_eq_false_2 by exact Hv. now rewrite Ha.
Qed.

(** The three versions of the spec's scenario: "7" gives "8", no stored
    version gives "1", and "v7" fails. *)
Lemma IncObjectVersion_spec_witness :
  IncObjectVersion (sample_lom sample_fqn (sample_md "7" None))
    (sample_world "h" (Some (sample_md "7" None))) = ("8", None) /\
  IncObjectVersion (sample_lom sample_fqn (sample_md "" None))
    (sample_world "h" (Some (sample_md "" None))) = ("1", None) /\
  IncObjectVersion (sample_lom sample_fqn (sample_md "v7" None))
    (sample_world "h" (Some (sample_md "v7" None)))
  = ("", Some (ErrAtoi Strconv.ErrSyntax "v7")).
Proof.
  split; [| split].
  - destruct (IncObjectVersion_spec
                (sample_lom sample_fqn (sample_md "7" None))
                (sample_world "h" (Some (sample_md "7" None)))) as [_ H].
    destruct (H (sample_md "7" None) eq_refl eq_refl) as (_ & H7 & _ & _).
    apply (H7 7); [reflexivity | unfold Int.max_int64; lia].
  - destruct (IncObjectVersion_spec
                (sample_lom sample_fqn (sample_md "" None))
                (sample_world "h" (Some (sample_md "" None)))) as [_ H].
    destruct (H (sample_md "" None) eq_refl eq_refl) as (H0 & _ & _ & _).
    apply H0. reflexivity.
  - destruct (IncObjectVersion_spec
                (sample_lom sample_fqn (sample_md "v7" None))
                (sample_world "h" (Some (sample_md "v7" None)))) as [_ H].
    destruct (H (sample_md "v7" None) eq_refl eq_refl) as (_ & _ & _ & Hv).
    apply (Hv Strconv.ErrSyntax); [discriminate | reflexivity].
Defined.

(** At the largest [int] the sum wraps: the stored version
    "9223372036854775807" is the decimal integer [2^63 - 1], and the
    result is not the decimal string of [2^63]. *)
Lemma IncObjectVersion_max_int_wraps :
  let lom := sample_lom sample_fqn (sample_md "9223372036854775807" None) in
  let w := sample_world "h" (Some (sample_md "9223372036854775807" None)) in
  Strconv.Atoi "9223372036854775807" = inr (2 ^ 63 - 1) /\
  IncObjectVersion lom w = ("-9223372036854775808", None) /\
  IncObjectVersion lom w <> (Strconv.FormatInt (2 ^ 63 - 1 + 1), None).
Proof.
  cbv zeta. split; [reflexivity |]. split; [vm_compute; reflexivity |].
  vm_compute. discriminate.
Qed.

(** ** Checksum validation *)

Lemma EqCksum_true a b :
  EqCksum a b = true <-> exists c, a = Some c /\ b = Some c.
Proof.
  unfold EqCksum. split.
  - destruct a as [[t1 v1] |], b as [[t2 v2] |]; try discriminate. simpl.
    intros H. apply andb_true_iff in H as [Ht Hv].
    apply bool_decide_eq_true in Ht, Hv. subst. eauto.
  - intros (c & -> & ->). now rewrite !bool_decide_eq_true_2.
Qed.



Lemma Persist_failure lom w e : (Persist lom w).1 = Some e -> Persist lom w = (Some e, w).
Proof.
  unfold Persist. destruct (setxattr (fs w) (FQN lom) (md lom)); simpl.
  - now intros [= ->].
  - discriminate.
Qed.

(** C10: when [ValidateDiskChecksum] computes the checksum of an object
    that has none stored and [Persist] then fails, the in-memory checksum
    is set back to what it was and the error of [Persist] is returned; the
    LOM and the world are those before the call. *)
Theorem ValidateDiskChecksum_persist_failure lom w h e :
  CksumConf_Type lom = ChecksumXXHash ->
  md_cksum (md lom) = None ->
  computeXXHash w (FQN lom) = (h, None) ->
  (Persist (set_md (set_md_cksum (NewCksum ChecksumXXHash h) (md lom)) lom) w).1
    = Some e ->
  ValidateDiskChecksum lom w = Ret (Some (ErrErrno e), lom, w).
Proof.
  intros Hty Hnil Hhash Hper. unfold ValidateDiskChecksum.
  rewrite Hty. simpl bool_decide. cbv iota.
  unfold storedCksum_of. rewrite Hnil. simpl.
  rewrite Hhash. rewrite (Persist_failure _ _ _ Hper).
  cbv zeta. clear -Hnil. destruct lom as [[] ?]. simpl in Hnil. now subst.
Qed.

(** The sample object with no checksum on a filesystem that refuses to
    write its metadata. *)
Lemma ValidateDiskChecksum_persist_failure_witness :
  let lom := sample_lom sample_fqn (sample_md "1" None) in
  let w := mkWorld ∅ (mkFsys {[ sample_fqn := sample_file "0123456789abcdef" ]}
                             ∅ ∅ ∅ {[ sample_fqn := ENOSPC ]} ∅ ∅) [] in
  ValidateDiskChecksum lom w = Ret (Some (ErrErrno ENOSPC), lom, w).
Proof.
  cbv zeta.
  apply (ValidateDiskChecksum_persist_failure _ _ "0123456789abcdef" ENOSPC);
    reflexivity.
Defined.

Lemma cache_key_set_BadCksum b lom : cache_key (set_BadCksum b lom) = cache_key lom.
Proof. reflexivity. Qed.

Lemma Uncache_in_place lom w :
  FQN lom = HrwFQN lom -> Uncache lom w = Ret (uncached lom w).
Proof.
  intros H. unfold Uncache. now rewrite bool_decide_eq_true_2.
Qed.

Lemma Uncache_misplaced lom w : FQN lom <> HrwFQN lom -> Uncache lom w = Panic.
Proof.
  intros H. unfold Uncache. now rewrite bool_decide_eq_false_2.
Qed.




(** *** Running the validation twice *)

Lemma NewCksum_Some kind val c :
  NewCksum kind val = Some c -> c = mkCksum kind val /\ val <> "" /\ kind <> "".
Proof.
  unfold NewCksum. repeat case_decide; try discriminate.
  intros [= <-]. auto.
Qed.

Lemma EqCksum_refl c : EqCksum (Some c) (Some c) = true.
Proof. apply EqCksum_true. eauto. Qed.

Lemma setxattr_inr f fqn m f' :
  setxattr f fqn m = inr f' ->
  f' = mkFsys (files f) (<[fqn := m]> (xattrs f)) (stat_fault f)
              (getxattr_fault f) (setxattr_fault f) (read_fault f)
              (chtimes_fault f)
  /\ setxattr_fault f !! fqn = None /\ is_Some (files f !! fqn).
Proof.
  unfold setxattr.
  destruct (setxattr_fault f !! fqn); [discriminate |].
  destruct (files f !! fqn) eqn:E; [| discriminate].
  intros [= <-]. eauto.
Qed.

Lemma getxattr_setxattr f fqn m0 m f' :
  getxattr f fqn = inr m0 -> setxattr f fqn m = inr f' -> getxattr f' fqn = inr m.
Proof.
  intros Hg Hs. apply setxattr_inr in Hs as (-> & _ & _).
  revert Hg. unfold getxattr. simpl.
  destruct (getxattr_fault f !! fqn); [discriminate |].
  destruct (files f !! fqn); [| discriminate].
  intros _. now rewrite lookup_insert_eq.
Qed.

Lemma setxattr_again f fqn m f' :
  setxattr f fqn m = inr f' -> setxattr f' fqn m = inr f'.
Proof.
  intros Hs. apply setxattr_inr in Hs as (-> & Hf & [fi Hfi]).
  unfold setxattr. simpl. rewrite Hf, Hfi. now rewrite insert_insert_eq.
Qed.

Lemma Persist_ok lom w w1 :
  Persist lom w = (None, w1) ->
  exists f', setxattr (fs w) (FQN lom) (md lom) = inr f' /\ w1 = set_fs f' w.
Proof.
  unfold Persist. destruct (setxattr (fs w) (FQN lom) (md lom)) as [e | f'].
  - discriminate.
  - intros [= <-]. eauto.
Qed.

Lemma computeXXHash_files w w' fqn :
  files (fs w') = files (fs w) -> read_fault (fs w') = read_fault (fs w) ->
  computeXXHash w' fqn = computeXXHash w fqn.
Proof. intros H1 H2. unfold computeXXHash. now rewrite H1, H2. Qed.

Lemma uncached_twice lom1 lom w :
  cache_key lom1 = cache_key lom -> uncached lom1 (uncached lom w) = uncached lom w.
Proof.
  intros Hk. unfold uncached. rewrite Hk. simpl.
  unfold set_caches. simpl. now rewrite delete_delete_eq.
Qed.


(** With [recompute] set, [ValidateChecksum] goes on to the disk checksum
    unless the stored and the cached checksum disagree. *)
Lemma ValidateChecksum_true_disk lom w s m :
  bool_decide (CksumConf_Type lom = ChecksumNone) = false ->
  storedCksum_of lom = Ret s ->
  getxattr (fs w) (FQN lom) = inr m ->
  negb (is_nil (md_cksum m) && is_nil (md_cksum (md lom)))
    && negb (EqCksum (md_cksum (md lom)) (md_cksum m)) = false ->
  ValidateChecksum true lom w = ValidateDiskChecksum lom w.
Proof.
  intros Hty Hs Hx Hc. unfold ValidateChecksum.
  rewrite Hty, Hs. simpl bind. rewrite lmfs_false, Hx.
  simpl negb. simpl andb at 1. cbv iota zeta. simpl andb at 2.
  rewrite Hc. now rewrite andb_false_r.
Qed.

(** The mismatch found by [ValidateChecksum] is found again. *)
Lemma ValidateChecksum_mismatch_again lom w s m :
  bool_decide (CksumConf_Type lom = ChecksumNone) = false ->
  storedCksum_of lom = Ret s ->
  getxattr (fs w) (FQN lom) = inr m ->
  negb (is_nil (md_cksum m) && is_nil (md_cksum (md lom)))
    && negb (EqCksum (md_cksum (md lom)) (md_cksum m)) = true ->
  FQN lom = HrwFQN lom ->
  ValidateChecksum true (set_BadCksum true lom) (uncached lom w)
  = Ret (Some (ErrBadCksum (md_cksum m) (md_cksum (md lom))),
         set_BadCksum true lom, uncached lom w).
Proof.
  intros Hty Hs Hx Hc Hfqn. unfold ValidateChecksum.
  change (CksumConf_Type (set_BadCksum true lom)) with (CksumConf_Type lom).
  change (storedCksum_of (set_BadCksum true lom)) with (storedCksum_of lom).
  rewrite Hty, Hs. simpl bind. rewrite lmfs_false.
  change (getxattr (fs (uncached lom w)) (FQN (set_BadCksum true lom)))
    with (getxattr (fs w) (FQN lom)).
  rewrite Hx. simpl negb. simpl andb at 1. cbv iota zeta. simpl andb at 1.
  change (md (set_BadCksum true lom)) with (md lom). rewrite Hc.
  rewrite Uncache_in_place by exact Hfqn.
  simpl bind. now rewrite uncached_twice by reflexivity.
Qed.

Lemma storedCksum_of_empty lom : storedCksum_of lom = Ret "" -> md_cksum (md lom) = None.
Proof.
  unfold storedCksum_of. destruct (md_cksum (md lom)) as [c |]; [| reflexivity].
  case_bool_decide as Hv; simpl; [discriminate |]. now intros [= ?].
Qed.


Lemma cksum_rollback lom c :
  set_md (set_md_cksum (md_cksum (md lom)) (set_md_cksum c (md lom)))
         (set_md (set_md_cksum c (md lom)) lom) = lom.
Proof. now destruct lom as [[] ?]. Qed.

Lemma ReCache_inr lom w lom' w' :
  ReCache lom w = Ret (lom', w') ->
  FQN lom = HrwFQN lom /\ lom' = set_loaded true lom /\
  w' = set_caches (<[cache_key lom := set_md_bckID (BID (BckProps lom)) (md lom)]> (caches w)) w.
Proof.
  unfold ReCache. case_bool_decide as Hf; simpl; [| discriminate].
  intros [= <- <-]. auto.
Qed.

Lemma Uncache_Ret lom w w1 :
  Uncache lom w = Ret w1 -> FQN lom = HrwFQN lom /\ w1 = uncached lom w.
Proof.
  unfold Uncache. case_bool_decide as Hf; simpl; [| discriminate].
  now intros [= <-].
Qed.

(** The branches of [ValidateDiskChecksum] once the checksum is computed. *)
Lemma ValidateDiskChecksum_first lom w h :
  bool_decide (CksumConf_Type lom = ChecksumNone) = false ->
  storedCksum_of lom = Ret "" ->
  bool_decide (CksumConf_Type lom = ChecksumXXHash) = true ->
  computeXXHash w (FQN lom) = (h, None) ->
  ValidateDiskChecksum lom w
  = let lom1 := set_md (set_md_cksum (NewCksum (CksumConf_Type lom) h) (md lom)) lom in
    match Persist lom1 w with
    | (Some err, w1) => Ret (Some (ErrErrno err), lom, w1)
    | (None, w1) => do (lom2, w2) <- ReCache lom1 w1; Ret (None, lom2, w2)
    end.
Proof.
  intros Hty Hs Hxx Hh. unfold ValidateDiskChecksum.
  rewrite Hty, Hs. simpl bind. rewrite Hxx. simpl bind. rewrite Hh.
  simpl bool_decide. cbv iota zeta.
  destruct (Persist _ w) as [[err |] w1]; [| reflexivity].
  change (md (set_md ?x lom)) with x. now rewrite cksum_rollback.
Qed.

Lemma ValidateDiskChecksum_stored lom w s h :
  bool_decide (CksumConf_Type lom = ChecksumNone) = false ->
  storedCksum_of lom = Ret s -> s <> "" ->
  bool_decide (CksumConf_Type lom = ChecksumXXHash) = true ->
  computeXXHash w (FQN lom) = (h, None) ->
  ValidateDiskChecksum lom w
  = let v := NewCksum (CksumConf_Type lom) h in
    if negb (EqCksum (md_cksum (md lom)) v) then
      do w1 <- Uncache (set_BadCksum true lom) w;
      Ret (Some (ErrBadCksum v (md_cksum (md lom))), set_BadCksum true lom, w1)
    else Ret (None, lom, w).
Proof.
  intros Hty Hs Hne Hxx Hh. unfold ValidateDiskChecksum.
  rewrite Hty, Hs. simpl bind. rewrite Hxx. simpl bind. rewrite Hh.
  now rewrite bool_decide_eq_false_2 by exact Hne.
Qed.

(** A second validation after the disk checksum has been validated. *)
Lemma ValidateDiskChecksum_then_again lom w s m e lom' w' :
  bool_decide (CksumConf_Type lom = ChecksumNone) = false ->
  storedCksum_of lom = Ret s ->
  getxattr (fs w) (FQN lom) = inr m ->
  negb (is_nil (md_cksum m) && is_nil (md_cksum (md lom)))
    && negb (EqCksum (md_cksum (md lom)) (md_cksum m)) = false ->
  ValidateDiskChecksum lom w = Ret (e, lom', w') ->
  ValidateChecksum true lom' w' = Ret (e, lom', w').
Proof.
  intros Hty Hs Hx Hc HV.
  pose proof (ValidateChecksum_true_disk lom w s m Hty Hs Hx Hc) as Hred.
  destruct (bool_decide (CksumConf_Type lom = ChecksumXXHash)) eqn:Hxx.
  2:{ revert HV. unfold ValidateDiskChecksum. rewrite Hty, Hs. simpl bind.
      rewrite Hxx. discriminate. }
  destruct (computeXXHash w (FQN lom)) as [h [err |]] eqn:Hh.
  { pose proof HV as HV0. revert HV. unfold ValidateDiskChecksum.
    rewrite Hty, Hs. simpl bind. rewrite Hxx. simpl bind. rewrite Hh.
    intros [= <- <- <-]. now rewrite Hred. }
  destruct (decide (s = "")) as [-> | Hse].
  - (* the first checksum of the object *)
    pose proof HV as HV0.
    rewrite (ValidateDiskChecksum_first lom w h Hty Hs Hxx Hh) in HV.
    cbv zeta in HV.
    remember (NewCksum (CksumConf_Type lom) h) as c' eqn:Hc'. symmetry in Hc'.
    set (lom1 := set_md (set_md_cksum c' (md lom)) lom) in *.
    destruct (Persist lom1 w) as [[perr |] w1] eqn:HP.
    { pose proof (Persist_failure lom1 w perr ltac:(now rewrite HP)) as HP'.
      rewrite HP in HP'. injection HP' as ->.
      injection HV as <- <- <-. now rewrite Hred. }
    destruct (ReCache lom1 w1) as [[lom2 w2] |] eqn:HR; simpl bind in HV; [| discriminate].
    injection HV as <- <- <-.
    apply ReCache_inr in HR as (Hfqn & -> & ->).
    apply Persist_ok in HP as (f' & Hset & ->).
    set (L := set_loaded true lom1).
    set (W := set_caches _ (set_fs f' w)).
    assert (HgL : getxattr (fs W) (FQN L) = inr (md lom1))
      by exact (getxattr_setxattr _ _ _ _ _ Hx Hset).
    assert (HhL : computeXXHash W (FQN L) = (h, None)).
    { transitivity (computeXXHash w (FQN lom)); [| exact Hh].
      destruct (setxattr_inr _ _ _ _ Hset) as (Hf' & _ & _).
      apply computeXXHash_files; simpl; now rewrite Hf'. }
    destruct c' as [c |].
    + (* the checksum is now stored and matches the content *)
      destruct (NewCksum_Some _ _ _ Hc') as (Hcv & Hhne & _).
      assert (HsL : storedCksum_of L = Ret h).
      { unfold storedCksum_of. simpl. subst c. simpl.
        now rewrite bool_decide_eq_false_2. }
      rewrite (ValidateChecksum_true_disk L W h (md lom1) Hty HsL HgL).
      2:{ simpl. now rewrite !bool_decide_eq_true_2. }
      rewrite (ValidateDiskChecksum_stored L W h h Hty HsL Hhne Hxx HhL).
      cbv zeta. change (CksumConf_Type L) with (CksumConf_Type lom).
      rewrite Hc'. change (md_cksum (md L)) with (Some c).
      now rewrite EqCksum_refl.
    + (* no checksum could be built: the same steps are taken again *)
      assert (HsL : storedCksum_of L = Ret "") by reflexivity.
      rewrite (ValidateChecksum_true_disk L W "" (md lom1) Hty HsL HgL) by reflexivity.
      rewrite (ValidateDiskChecksum_first L W h Hty HsL Hxx HhL).
      cbv zeta. change (CksumConf_Type L) with (CksumConf_Type lom).
      rewrite Hc'.
      change (set_md (set_md_cksum None (md L)) L) with L.
      assert (HPL : Persist L W = (None, W)).
      { unfold Persist.
        change (setxattr (fs W) (FQN L) (md L)) with (setxattr f' (FQN lom1) (md lom1)).
        now rewrite (setxattr_again _ _ _ _ Hset). }
      rewrite HPL. unfold ReCache.
      rewrite bool_decide_eq_true_2 by exact Hfqn. simpl bind.
      assert (HW : set_caches (<[cache_key L := set_md_bckID (BID (BckProps L)) (md L)]>
                                 (caches W)) W = W).
      { unfold W, set_caches. simpl. f_equal.
        change (cache_key L) with (cache_key lom1). apply insert_insert_eq. }
      apply (f_equal (fun x : world => Ret (@None errmsg, L, x))). exact HW.
  - (* a checksum was stored: it is compared with the content *)
    pose proof HV as HV0.
    rewrite (ValidateDiskChecksum_stored lom w s h Hty Hs Hse Hxx Hh) in HV.
    cbv zeta in HV.
    destruct (negb (EqCksum (md_cksum (md lom)) (NewCksum (CksumConf_Type lom) h))) eqn:HE.
    + destruct (Uncache (set_BadCksum true lom) w) as [w1 |] eqn:HU;
        simpl bind in HV; [| discriminate].
      injection HV as <- <- <-.
      apply Uncache_Ret in HU as [Hfqn ->].
      change (FQN (set_BadCksum true lom) = HrwFQN (set_BadCksum true lom))
        with (FQN lom = HrwFQN lom) in Hfqn.
      change (uncached (set_BadCksum true lom) w) with (uncached lom w).
      rewrite (ValidateChecksum_true_disk (set_BadCksum true lom) (uncached lom w) s m
                 Hty Hs Hx Hc).
      rewrite (ValidateDiskChecksum_stored (set_BadCksum true lom) (uncached lom w) s h
                 Hty Hs Hse Hxx Hh).
      cbv zeta.
      change (CksumConf_Type (set_BadCksum true lom)) with (CksumConf_Type lom).
      change (md (set_BadCksum true lom)) with (md lom).
      rewrite HE. rewrite Uncache_in_place by exact Hfqn. simpl bind.
      now rewrite uncached_twice by reflexivity.
    + injection HV as <- <- <-. now rewrite Hred.
Qed.

(** [ValidateChecksum(true)] is idempotent: a second call right after the
    first returns what the first returned and changes nothing. *)
Lemma ValidateChecksum_idempotent lom w e lom' w' :
  ValidateChecksum true lom w = Ret (e, lom', w') ->
  ValidateChecksum true lom' w' = Ret (e, lom', w').
Proof.
  intros HV. pose proof HV as HV0. revert HV. unfold ValidateChecksum.
  destruct (bool_decide (CksumConf_Type lom = ChecksumNone)) eqn:Hty.
  { now intros [= <- <- <-]. }
  destruct (storedCksum_of lom) as [s |] eqn:Hs; simpl bind; [| discriminate].
  rewrite lmfs_false.
  destruct (getxattr (fs w) (FQN lom)) as [err | m] eqn:Hx.
  { now intros [= <- <- <-]. }
  simpl negb. simpl andb at 1. cbv iota zeta. simpl andb at 1.
  destruct (negb (is_nil (md_cksum m) && is_nil (md_cksum (md lom)))
            && negb (EqCksum (md_cksum (md lom)) (md_cksum m))) eqn:Hc.
  - destruct (Uncache (set_BadCksum true lom) w) as [w1 |] eqn:HU;
      simpl bind; [| discriminate].
    intros [= <- <- <-].
    apply Uncache_Ret in HU as [Hfqn ->].
    change (FQN (set_BadCksum true lom) = HrwFQN (set_BadCksum true lom))
      with (FQN lom = HrwFQN lom) in Hfqn.
    change (uncached (set_BadCksum true lom) w) with (uncached lom w).
    exact (ValidateChecksum_mismatch_again lom w s m Hty Hs Hx Hc Hfqn).
  - rewrite andb_false_r. intros HV.
    exact (ValidateDiskChecksum_then_again lom w s m e lom' w' Hty Hs Hx Hc HV).
Qed.

(** C8, as amended: on an object that is not modified between the two
    calls, running [ValidateChecksum(true)] twice is a no-op after the
    first: if the first call returns, the second call returns the same
    (no error when the first returned none, the same error otherwise) and
    leaves the LOM (its metadata and flags) and the world (the cache entry,
    the stored xattr) as the first call left them. *)
Theorem ValidateChecksum_twice lom w e lom' w' :
  ValidateChecksum true lom w = Ret (e, lom', w') ->
  ValidateChecksum true lom' w' = Ret (e, lom', w') /\
  (e = None -> ValidateChecksum true lom' w' = Ret (None, lom', w')).
Proof.
  intros H. split.
  - now apply (ValidateChecksum_idempotent lom w).
  - intros ->. now apply (ValidateChecksum_idempotent lom w).
Qed.

(** The sample object without any checksum: the first call computes and
    stores it, the second finds it in place. *)
Lemma ValidateChecksum_twice_witness :
  let lom := sample_lom sample_fqn (sample_md "1" None) in
  let w := sample_world "0123456789abcdef" (Some (sample_md "1" None)) in
  exists lom' w',
    ValidateChecksum true lom w = Ret (None, lom', w') /\
    md_cksum (md lom') = xx "0123456789abcdef" /\
    caches w' !! cache_key lom' = Some (md lom') /\
    ValidateChecksum true lom' w' = Ret (None, lom', w').
Proof.
  cbv zeta. eexists. eexists.
  split; [vm_compute; reflexivity |].
  split; [reflexivity |]. split; [vm_compute; reflexivity |].
  refine (proj2 (ValidateChecksum_twice
                   (sample_lom sample_fqn (sample_md "1" None))
                   (sample_world "0123456789abcdef" (Some (sample_md "1" None)))
                   None _ _ _) eq_refl).
  vm_compute. reflexivity.
Defined.

(** An object whose content no longer matches its checksum: the stored
    and the cached checksum are [aa], the content hashes to [bb].  The
    object is not modified between the two calls, and the second call
    returns the mismatch error again. *)
Lemma ValidateChecksum_twice_corrupted :
  let lom := sample_lom sample_fqn (sample_md "1" (xx "aa")) in
  let w := sample_world "bb" (Some (sample_md "1" (xx "aa"))) in
  let err := ErrBadCksum (xx "bb") (xx "aa") in
  ValidateChecksum true lom w
  = Ret (Some err, set_BadCksum true lom, uncached lom w) /\
  ValidateChecksum true (set_BadCksum true lom) (uncached lom w)
  = Ret (Some err, set_BadCksum true lom, uncached lom w) /\
  ValidateChecksum true (set_BadCksum true lom) (uncached lom w)
  <> Ret (None, set_BadCksum true lom, uncached lom w).
Proof.
  cbv zeta. split; [vm_compute; reflexivity |].
  split; [vm_compute; reflexivity |]. vm_compute. discriminate.
Qed.

(** ** Loading from the filesystem *)

Lemma lmfs_error populate lom w e :
  getxattr (fs w) (FQN lom) = inl e -> lmfs populate lom w = (inl e, lom).
Proof. intros H. unfold lmfs. now rewrite H. Qed.

(** Neither the metadata record nor the file is there. *)
Lemma FromFS_absent lom w e :
  e = ENOENT \/ e = ENODATA ->
  getxattr (fs w) (FQN lom) = inl e ->
  os_Stat (fs w) (FQN lom) = inl ENOENT ->
  FromFS lom w = (None, set_exists false lom, w).
Proof.
  intros He Hx Hst. unfold FromFS.
  rewrite (lmfs_error true (set_exists true lom) w e) by exact Hx.
  change (FQN (set_exists false (set_exists true lom))) with (FQN lom).
  rewrite Hst. destruct He as [-> | ->]; reflexivity.
Qed.

(** C6, as amended: when the metadata record and the file of the object
    are both absent, [FromFS] sets [exists = false] and returns no error,
    and so does every [Load] that goes through [FromFS], without calling
    the health check.  A [Load] of an object in place whose entry is
    cached, the bucket of the entry being there, does not look at the
    filesystem: it returns from the cache, without error, the cached
    metadata and [exists = true]. *)
Theorem Load_absent add lom w e :
  e = ENOENT \/ e = ENODATA ->
  getxattr (fs w) (FQN lom) = inl e ->
  os_Stat (fs w) (FQN lom) = inl ENOENT ->
  FromFS lom w = (None, set_exists false lom, w) /\
  (cache_hit lom w = false ->
   exists fromCache lom' w',
     Load add lom w = Ret (fromCache, None, lom', w') /\
     exists_ lom' = false /\ fshc w' = fshc w) /\
  (cache_hit lom w = true ->
   exists m lom' w',
     caches w !! cache_key lom = Some m /\
     Load add lom w = Ret (true, None, lom', w') /\
     exists_ lom' = true /\ md lom' = m /\ fs w' = fs w /\ fshc w' = fshc w).
Proof.
  intros He Hx Hst. split; [now apply (FromFS_absent lom w e) |].
  assert (HF : forall l1 w1, FQN l1 = FQN lom -> fs w1 = fs w ->
                 FromFS l1 w1 = (None, set_exists false l1, w1)).
  { intros l1 w1 Hl Hw. apply (FromFS_absent l1 w1 e He); now rewrite Hl, Hw. }
  unfold cache_hit, Load.
  change (FQN (set_loaded true lom)) with (FQN lom).
  change (HrwFQN (set_loaded true lom)) with (HrwFQN lom).
  split.
  - case_bool_decide as Hfqn; simpl andb.
    + destruct (caches w !! cache_key lom) as [m |] eqn:Hc.
      * intros Hstale. apply negb_false_iff in Hstale.
        apply andb_true_iff in Hstale as [Hloc Hbmd].
        unfold existsInBucket. simpl. rewrite Hloc in Hbmd |- *. rewrite Hbmd. simpl.
        rewrite Uncache_in_place by exact Hfqn. simpl bind.
        unfold Load_slow.
        destruct add; simpl; rewrite HF by reflexivity; simpl;
          do 3 eexists; (split; [reflexivity | split; reflexivity]).
      * intros _. unfold Load_slow. rewrite HF by reflexivity. simpl.
        do 3 eexists; (split; [reflexivity | split; reflexivity]).
    + intros _. unfold Load_slow. rewrite HF by reflexivity. simpl.
      do 3 eexists; (split; [reflexivity | split; reflexivity]).
  - case_bool_decide as Hfqn; simpl andb; [| discriminate].
    destruct (caches w !! cache_key lom) as [m |] eqn:Hc; [| discriminate].
    intros Hhit. unfold existsInBucket.
    cbn [BckIsLocal exists_ bmd Bucket md set_md set_exists set_loaded].
    rewrite andb_true_r. apply negb_true_iff in Hhit. rewrite Hhit. cbn [bind].
    exists m. do 2 eexists. split; [reflexivity |]. split; [reflexivity |].
    split; [reflexivity |]. split; [reflexivity |]. by destruct add.
Qed.

(** The object was never written, or its file was removed: nothing at the
    path, nothing cached. *)
Lemma Load_absent_witness :
  let lom := sample_lom sample_fqn (sample_md "1" None) in
  let w := mkWorld ∅ fs_empty [] in
  FromFS lom w = (None, set_exists false lom, w) /\
  exists fromCache lom' w',
    Load false lom w = Ret (fromCache, None, lom', w') /\ exists_ lom' = false.
Proof.
  cbv zeta.
  destruct (Load_absent false (sample_lom sample_fqn (sample_md "1" None))
              (mkWorld ∅ fs_empty []) ENOENT (or_introl eq_refl) eq_refl eq_refl)
    as (HF & HL & _).
  split; [exact HF |].
  destruct (HL eq_refl) as (fc & lom' & w' & HLoad & Hex & _).
  exists fc, lom', w'. split; [exact HLoad | exact Hex].
Defined.

(** The scenario of the spec: the object is loaded with [add = true], its
    file is deleted directly, and it is loaded again with [add = false].
    The second Load is served from the cache: it reports the object as
    existing, although neither the record nor the file is there. *)
Lemma Load_cached_absent :
  let lom := sample_lom sample_fqn (sample_md "" None) in
  let w0 := sample_world "h" (Some (sample_md "1" (xx "h"))) in
  exists lom1 w1,
    Load true lom w0 = Ret (false, None, lom1, w1) /\ exists_ lom1 = true /\
    getxattr (fs (set_fs fs_empty w1)) (FQN lom) = inl ENOENT /\
    os_Stat (fs (set_fs fs_empty w1)) (FQN lom) = inl ENOENT /\
    exists lom2 w3,
      Load false lom (set_fs fs_empty w1) = Ret (true, None, lom2, w3) /\
      exists_ lom2 = true /\ exists_ lom2 <> false.
Proof.
  cbv zeta. do 2 eexists. split; [vm_compute; reflexivity |].
  split; [reflexivity |]. split; [reflexivity |]. split; [reflexivity |].
  do 2 eexists. split; [vm_compute; reflexivity |]. split; [reflexivity | discriminate].
Qed.

(** C7, as amended: when the file of the object exists and its metadata
    record is missing (the xattr read fails with no-data), [FromFS] marks
    the object as not existing, returns an errmeta error and calls the
    filesystem health check, whatever the checksum configuration is. *)
Theorem FromFS_xattr_missing lom w fi :
  getxattr (fs w) (FQN lom) = inl ENODATA ->
  os_Stat (fs w) (FQN lom) = inr fi ->
  FromFS lom w
  = (Some (ErrMeta ENODATA), set_exists false lom, FSHC ENODATA (FQN lom) w).
Proof.
  intros Hx Hst. unfold FromFS.
  rewrite (lmfs_error true (set_exists true lom) w ENODATA) by exact Hx.
  change (FQN (set_exists false (set_exists true lom))) with (FQN lom).
  now rewrite Hst.
Qed.

Lemma FromFS_xattr_missing_witness :
  let lom := sample_lom sample_fqn (sample_md "1" None) in
  let w := sample_world "h" None in
  FromFS lom w
  = (Some (ErrMeta ENODATA), set_exists false lom, FSHC ENODATA sample_fqn w).
Proof.
  cbv zeta.
  apply (FromFS_xattr_missing (sample_lom sample_fqn (sample_md "1" None))
           (sample_world "h" None) (sample_file "h")); reflexivity.
Defined.

(** The file exists, its metadata record is missing and the checksum type
    of the bucket is none: [FromFS] returns an error and the health check
    is called. *)
Lemma FromFS_xattr_missing_no_cksum :
  let lom := sample_lom_nocksum sample_fqn (sample_md "1" None) in
  let w := sample_world "h" None in
  CksumConf_Type lom = ChecksumNone /\
  os_Stat (fs w) (FQN lom) = inr (sample_file "h") /\
  getxattr (fs w) (FQN lom) = inl ENODATA /\
  (FromFS lom w).1.1 = Some (ErrMeta ENODATA) /\
  (FromFS lom w).1.1 <> None /\
  fshc (FromFS lom w).2 = [(ENODATA, sample_fqn)] /\
  fshc w = [].
Proof.
  cbv zeta. repeat split; try reflexivity. discriminate.
Qed.

(** ** Only LOMs in place are cached *)

Lemma FromFS_caches lom w : caches (FromFS lom w).2 = caches w.
Proof.
  unfold FromFS. destruct (lmfs true (set_exists true lom) w) as [[e | m] l1].
  - destruct (_ && _); [reflexivity |]. now destruct (negb _).
  - destruct (os_Stat _ _) as [e | fi].
    + now destruct (negb _).
    + now destruct (negb _).
Qed.

Lemma Load_slow_no_add key fromCache lom w :
  caches (Load_slow key false fromCache lom w).2 = caches w.
Proof.
  unfold Load_slow. pose proof (FromFS_caches lom w) as H.
  destruct (FromFS lom w) as [[e l1] w1]. simpl in H.
  destruct e; [exact H |]. now destruct (exists_ l1).
Qed.

(** C4: a LOM that is not in place never touches the caches: [Load]
    behaves as [Load(false)] and leaves every stripe as it is, and
    [ReCache] and [Uncache] stop on their assertion. *)
Theorem cache_only_in_place lom w :
  FQN lom <> HrwFQN lom ->
  (forall add,
     Load add lom w = Load false lom w /\
     exists fromCache err lom' w',
       Load add lom w = Ret (fromCache, err, lom', w') /\ caches w' = caches w) /\
  ReCache lom w = Panic /\
  Uncache lom w = Panic.
Proof.
  intros Hne. split; [| split].
  - intros add.
    assert (HL : forall a, Load a lom w
                           = Ret (Load_slow (cache_key lom) false false
                                    (set_loaded true lom) w)).
    { intros a. unfold Load.
      change (FQN (set_loaded true lom)) with (FQN lom).
      change (HrwFQN (set_loaded true lom)) with (HrwFQN lom).
      now rewrite bool_decide_eq_false_2 by exact Hne. }
    split; [now rewrite !HL |]. rewrite HL.
    pose proof (Load_slow_no_add (cache_key lom) false (set_loaded true lom) w) as Hc.
    destruct (Load_slow _ _ _ _ _) as [[[fc err] lom'] w'].
    exists fc, err, lom', w'. split; [reflexivity | exact Hc].
  - unfold ReCache. now rewrite bool_decide_eq_false_2 by exact Hne.
  - now apply Uncache_misplaced.
Qed.

(** A copy of the sample object on another mountpath, with the entry of
    the object in the cache. *)
Lemma cache_only_in_place_witness :
  let lom := sample_copy (sample_md "1" None) in
  let w := mkWorld {[ cache_key lom := sample_md "1" None ]}
                   (sample_fs_at copy_fqn "h" (Some (sample_md "1" None))) [] in
  (exists fromCache err lom' w',
     Load true lom w = Ret (fromCache, err, lom', w') /\ caches w' = caches w) /\
  ReCache lom w = Panic /\ Uncache lom w = Panic.
Proof.
  cbv zeta.
  destruct (cache_only_in_place (sample_copy (sample_md "1" None))
              (mkWorld {[ cache_key (sample_copy (sample_md "1" None))
                          := sample_md "1" None ]}
                 (sample_fs_at copy_fqn "h" (Some (sample_md "1" None))) []))
    as (HL & HR & HU).
  - discriminate.
  - split; [exact (proj2 (HL true)) | split; [exact HR | exact HU]].
Defined.

(** ** The cache runner: one tick *)

Lemma Time_Sub_lt now a d :
  Int.min_int64 < d <= Int.max_int64 ->
  (Time_Sub now a <? d) = (now - a <? d).
Proof.
  unfold Time_Sub, Int.min_int64, Int.max_int64. intros Hd.
  destruct (Z.ltb_spec (now - a) d); destruct (Z.ltb_spec (Z.max (- 2 ^ 63) (Z.min (2 ^ 63 - 1) (now - a))) d);
    try reflexivity; lia.
Qed.

Lemma evictAtime_range p : Int.min_int64 < evictAtime p <= Int.max_int64.
Proof. destruct p; vm_compute; split; congruence. Qed.

Lemma flushAtime_caches lom a w :
  caches (flushAtime lom a w) = caches w /\ fshc (flushAtime lom a w) = fshc w.
Proof.
  unfold flushAtime. destruct (os_Stat _ _); [auto |].
  destruct (os_Chtimes _ _ _ _); auto.
Qed.

Lemma flush_entry_caches T b m w :
  caches (flush_entry T b m w) = caches w /\ fshc (flush_entry T b m w) = fshc w.
Proof.
  unfold flush_entry. destruct (negb _); [| auto].
  destruct (lomFromLmeta T m b) as [lom [e |]]; [auto |].
  apply flushAtime_caches.
Qed.

(** What the callback does with one entry while the runner is not
    stopping. *)
Lemma feviat_entry T b now d key m w c :
  Int.min_int64 < d <= Int.max_int64 ->
  feviat T false b now d key m (w, c)
  = (true,
     if fresh now d m
     then (w, mkTally (evicted c) (Int.wrap_u32 (total c + 1)))
     else (set_caches (delete key (caches (flush_entry T b m w))) (flush_entry T b m w),
           mkTally (Int.wrap_u32 (evicted c + 1)) (Int.wrap_u32 (total c + 1)))).
Proof.
  intros Hd. unfold feviat, fresh. rewrite (Time_Sub_lt now (md_atime m) d Hd).
  now destruct (now - md_atime m <? d).
Qed.


Lemma wrap_u32_range z : 0 <= Int.wrap_u32 z < 2 ^ 32.
Proof. unfold Int.wrap_u32. apply Z.mod_pos_bound. lia. Qed.

Lemma Range_feviat T b now d l : forall w c,
  Int.min_int64 < d <= Int.max_int64 ->
  tally_ok c ->
  let r := Range (feviat T false b now d) l (w, c) in
  caches r.1 = evict_list now d l (caches w) /\
  fshc r.1 = fshc w /\
  tally_ok r.2 /\
  total r.2 = Int.wrap_u32 (total c + Z.of_nat (length l)) /\
  evicted r.2 = Int.wrap_u32 (evicted c + Z.of_nat (length (old_entries now d l))).
Proof.
  induction l as [| [key m] l IH]; intros w c Hd Hc; cbv zeta.
  - simpl. destruct Hc as [He Ht].
    rewrite !Z.add_0_r, !wrap_u32_small by assumption. repeat split; tauto.
  - cbn [Range]. rewrite feviat_entry by exact Hd.
    unfold old_entries. rewrite filter_cons. simpl fst; simpl snd.
    destruct (fresh now d m) eqn:Hf.
    + assert (Hc' : tally_ok (mkTally (evicted c) (Int.wrap_u32 (total c + 1)))).
      { split; simpl; [apply Hc | apply wrap_u32_range]. }
      destruct (IH w _ Hd Hc') as (H1 & H2 & H3 & H4 & H5).
      rewrite decide_False by (unfold old_entry; simpl; congruence).
      repeat split; try assumption; try apply H3.
      * rewrite H1. unfold evict_list. simpl. now rewrite Hf.
      * rewrite H4. simpl total. unfold Int.wrap_u32.
        rewrite Zplus_mod_idemp_l. f_equal. cbn [length]. lia.
    + set (w1 := flush_entry T b m w).
      assert (Hc' : tally_ok (mkTally (Int.wrap_u32 (evicted c + 1)) (Int.wrap_u32 (total c + 1)))).
      { split; simpl; apply wrap_u32_range. }
      destruct (IH (set_caches (delete key (caches w1)) w1) _ Hd Hc')
        as (H1 & H2 & H3 & H4 & H5).
      destruct (flush_entry_caches T b m w) as [Hfc Hff]. fold w1 in Hfc, Hff.
      rewrite decide_True by exact Hf.
      repeat split; try apply H3.
      * rewrite H1. unfold evict_list. simpl. now rewrite Hf, Hfc.
      * rewrite H2. simpl. exact Hff.
      * rewrite H4. simpl total. unfold Int.wrap_u32.
        rewrite Zplus_mod_idemp_l. f_equal. cbn [length]. lia.
      * rewrite H5. simpl evicted. unfold Int.wrap_u32.
        rewrite Zplus_mod_idemp_l. f_equal. cbn [length]. unfold old_entries. lia.
Qed.

Lemma evict_list_None now d l : forall c k,
  c !! k = None -> evict_list now d l c !! k = None.
Proof.
  induction l as [| [k' m'] l IH]; intros c k Hk; [exact Hk |].
  unfold evict_list. simpl. destruct (fresh now d m'); [now apply IH |].
  apply IH. rewrite lookup_delete. case_decide; [reflexivity | exact Hk].
Qed.

Lemma evict_list_old now d l : forall c k m,
  (k, m) ∈ l -> fresh now d m = false -> evict_list now d l c !! k = None.
Proof.
  induction l as [| [k' m'] l IH]; intros c k m Hin Hold.
  - now apply elem_of_nil in Hin.
  - apply elem_of_cons in Hin as [[= <- <-] | Hin].
    + unfold evict_list. simpl. rewrite Hold.
      apply evict_list_None. apply lookup_delete_eq.
    + unfold evict_list. simpl. destruct (fresh now d m'); now apply (IH _ k m).
Qed.

Lemma evict_list_kept now d l : forall c k,
  (forall m, (k, m) ∈ l -> fresh now d m = true) ->
  evict_list now d l c !! k = c !! k.
Proof.
  induction l as [| [k' m'] l IH]; intros c k Hall; [reflexivity |].
  unfold evict_list. simpl.
  assert (Hl : forall m, (k, m) ∈ l -> fresh now d m = true).
  { intros m Hm. apply Hall. now apply list_elem_of_further. }
  destruct (fresh now d m') eqn:Hf; [now apply IH |].
  fold (evict_list now d l (delete k' c)). rewrite IH by exact Hl.
  apply lookup_delete_ne. intros ->.
  rewrite (Hall m') in Hf; [discriminate | apply list_elem_of_here].
Qed.

Lemma evict_stripe (cache : string * Z) (now d : Z)
    (c : gmap (string * Z * string) lmeta) :
  evict_list now d (map_to_list (stripe cache c)) c
  = filter (fun kv => ~ evicted_from cache now d kv) c.
Proof.
  apply map_eq. intros k.
  destruct (c !! k) as [m |] eqn:Hk.
  - destruct (decide (evicted_from cache now d (k, m))) as [[Hin Hold] | Hnot].
    + rewrite (evict_list_old now d _ c k m); [| | exact Hold].
      * symmetry. apply map_lookup_filter_None. right.
        intros m' Hm' Hn. rewrite Hk in Hm'. injection Hm' as <-.
        apply Hn. now split.
      * apply elem_of_map_to_list. unfold stripe.
        apply map_lookup_filter_Some. now split.
    + rewrite evict_list_kept.
      * rewrite Hk. symmetry. apply map_lookup_filter_Some. now split.
      * intros m' Hm'. apply elem_of_map_to_list in Hm'. unfold stripe in Hm'.
        apply map_lookup_filter_Some in Hm' as [Hm' Hin]. simpl in Hin.
        rewrite Hk in Hm'. injection Hm' as <-.
        destruct (fresh now d m) eqn:Hf; [reflexivity |].
        destruct Hnot. now split.
  - rewrite evict_list_None by exact Hk.
    symmetry. apply map_lookup_filter_None. left. exact Hk.
Qed.

Lemma length_old_entries (now d : Z) (c : gmap (string * Z * string) lmeta) :
  length (old_entries now d (map_to_list c))
  = size (filter (old_entry now d) c).
Proof.
  rewrite map_filter_alt. rewrite map_size_list_to_map; [reflexivity |].
  eapply sublist_NoDup; [apply (NoDup_fst_map_to_list c) |].
  apply fmap_sublist, sublist_filter.
Qed.

Lemma stripe_evict_other (s s' : string * Z) (now d : Z)
    (c : gmap (string * Z * string) lmeta) :
  s' <> s ->
  stripe s' (filter (fun kv => ~ evicted_from s now d kv) c) = stripe s' c.
Proof.
  intros Hne. unfold stripe. apply map_filter_strong_ext_1. intros k m.
  rewrite map_lookup_filter_Some. unfold evicted_from, in_stripe. simpl.
  split; [tauto |]. intros [Hin Hk]. repeat split; try assumption.
  intros [Hs _]. congruence.
Qed.

Lemma sum_list_with_ext_in {A} (f g : A -> nat) (l : list A) :
  (forall x, x ∈ l -> f x = g x) -> sum_list_with f l = sum_list_with g l.
Proof.
  induction l as [| x l IH]; intros H; [reflexivity |]. simpl.
  rewrite (H x) by apply list_elem_of_here.
  rewrite IH; [reflexivity |]. intros y Hy. apply H. now apply list_elem_of_further.
Qed.

Lemma work_on_cons T b now d s ss st :
  work_on T b now d (s :: ss) st
  = work_on T b now d ss
      (Range (feviat T false b now d) (map_to_list (stripe s (caches st.1))) st).
Proof. reflexivity. Qed.

Lemma work_on_spec T b now d ss :
  Int.min_int64 < d <= Int.max_int64 ->
  NoDup ss ->
  forall w c, tally_ok c ->
  let r := work_on T b now d ss (w, c) in
  caches r.1 = filter (fun kv => ~ visited_old ss now d kv) (caches w) /\
  fshc r.1 = fshc w /\
  tally_ok r.2 /\
  total r.2
  = Int.wrap_u32 (total c
      + Z.of_nat (sum_list_with (fun s => size (stripe s (caches w))) ss)) /\
  evicted r.2
  = Int.wrap_u32 (evicted c
      + Z.of_nat (sum_list_with
                    (fun s => size (filter (old_entry now d) (stripe s (caches w)))) ss)).
Proof.
  intros Hd Hnd. induction Hnd as [| s ss Hs Hnd IH]; intros w c Hc; cbv zeta.
  - simpl. destruct Hc as [He Ht].
    rewrite !Z.add_0_r, !wrap_u32_small by assumption.
    repeat split; try tauto.
    symmetry. apply map_filter_id. intros k m _ [Hin _]. now apply elem_of_nil in Hin.
  - rewrite work_on_cons. cbn [fst].
    destruct (Range_feviat T b now d (map_to_list (stripe s (caches w))) w c Hd Hc)
      as (H1 & H2 & H3 & H4 & H5).
    destruct (Range (feviat T false b now d) (map_to_list (stripe s (caches w))) (w, c))
      as [w1 c1].
    cbn [fst snd] in H1, H2, H3, H4, H5.
    rewrite evict_stripe in H1.
    destruct (IH w1 c1 H3) as (I1 & I2 & I3 & I4 & I5).
    assert (Hstripes : forall s', s' ∈ ss -> stripe s' (caches w1) = stripe s' (caches w)).
    { intros s' Hs'. rewrite H1. apply stripe_evict_other. intros ->. contradiction. }
    split; [| split; [| split; [exact I3 | split]]].
    + rewrite I1, H1. apply map_filter_strong_ext_1. intros k m.
      rewrite map_lookup_filter_Some.
      unfold visited_old, evicted_from, in_stripe. simpl.
      rewrite elem_of_cons. intuition congruence.
    + now rewrite I2.
    + rewrite I4, H4. unfold Int.wrap_u32. rewrite Zplus_mod_idemp_l. f_equal.
      cbn [sum_list_with]. rewrite length_map_to_list.
      rewrite (sum_list_with_ext_in _ (fun s0 => size (stripe s0 (caches w)))).
      * lia.
      * intros s' Hs'. now rewrite Hstripes.
    + rewrite I5, H5. unfold Int.wrap_u32. rewrite Zplus_mod_idemp_l. f_equal.
      cbn [sum_list_with]. rewrite length_old_entries.
      rewrite (sum_list_with_ext_in _
                 (fun s0 => size (filter (old_entry now d) (stripe s0 (caches w))))).
      * lia.
      * intros s' Hs'. now rewrite Hstripes.
Qed.

Lemma NoDup_lomCaches T : NoDup (lomCaches T).
Proof.
  unfold lomCaches. apply NoDup_bind.
  - intros mp1 mp2 [mp idx] _ _ H1 H2.
    apply list_elem_of_bind in H1 as (i1 & H1 & _).
    apply list_elem_of_bind in H2 as (i2 & H2 & _).
    apply list_elem_of_singleton in H1, H2. congruence.
  - intros mp _. apply NoDup_bind.
    + intros i1 i2 y _ _ H1 H2. apply list_elem_of_singleton in H1, H2. congruence.
    + intros i _. apply NoDup_singleton.
    + apply NoDup_seqZ.
  - apply NoDup_elements.
Qed.

Lemma elem_of_lomCaches T mp idx :
  (mp, idx) ∈ lomCaches T <-> mp ∈ availablePaths T /\ 0 <= idx <= LomCacheMask.
Proof.
  unfold lomCaches. rewrite list_elem_of_bind. split.
  - intros (mp' & H & Hmp). apply list_elem_of_bind in H as (i & H & Hi).
    apply list_elem_of_singleton in H. injection H as -> ->.
    apply elem_of_elements in Hmp. apply elem_of_seqZ in Hi. split; [exact Hmp | lia].
  - intros [Hmp Hi]. exists mp. split; [| now apply elem_of_elements].
    apply list_elem_of_bind. exists idx. split; [apply list_elem_of_singleton; reflexivity |].
    apply elem_of_seqZ. lia.
Qed.

(** [flushAtime] on an existing file: the access time is the one given
    and the modification time is kept. *)
Lemma flushAtime_file lom a w fi :
  files (fs w) !! FQN lom = Some fi ->
  stat_fault (fs w) !! FQN lom = None ->
  chtimes_fault (fs w) !! FQN lom = None ->
  files (fs (flushAtime lom a w)) !! FQN lom
  = Some (mkFile (f_size fi) a (f_mtime fi) (f_xxhash fi)).
Proof.
  intros Hf Hs Hc. unfold flushAtime, os_Stat, os_Chtimes.
  rewrite Hs, Hf, Hc. simpl. apply lookup_insert_eq.
Qed.

Lemma touch_touch a a' fi : touch a (touch a' fi) = touch a fi.
Proof. reflexivity. Qed.

(** [flushAtime] on a file that is there and on which [os.Stat] and
    [os.Chtimes] do not fail. *)
Lemma flushAtime_eq lom a w fi :
  files (fs w) !! FQN lom = Some fi ->
  stat_fault (fs w) !! FQN lom = None ->
  chtimes_fault (fs w) !! FQN lom = None ->
  flushAtime lom a w
  = set_fs (mkFsys (<[FQN lom := touch a fi]> (files (fs w))) (xattrs (fs w))
              (stat_fault (fs w)) (getxattr_fault (fs w)) (setxattr_fault (fs w))
              (read_fault (fs w)) (chtimes_fault (fs w))) w.
Proof.
  intros Hf Hs Hc. unfold flushAtime, os_Stat, os_Chtimes.
  rewrite Hs, Hf, Hc. reflexivity.
Qed.

(** [flushAtime] changes the world in this way only. *)
Lemma flushAtime_cases lom a w :
  flushAtime lom a w = w \/
  exists fi,
    files (fs w) !! FQN lom = Some fi /\
    stat_fault (fs w) !! FQN lom = None /\
    chtimes_fault (fs w) !! FQN lom = None.
Proof.
  unfold flushAtime, os_Stat, os_Chtimes.
  destruct (stat_fault (fs w) !! FQN lom) eqn:Hs; [by left |].
  destruct (files (fs w) !! FQN lom) as [fi |] eqn:Hf; [| by left].
  destruct (chtimes_fault (fs w) !! FQN lom) eqn:Hc; [by left |].
  right. by exists fi.
Qed.

Lemma flush_entry_cases T b m w :
  flush_entry T b m w = w \/
  exists lom fi,
    md_atime m <> md_atimefs m /\ lomFromLmeta T m b = (lom, None) /\
    files (fs w) !! FQN lom = Some fi /\
    stat_fault (fs w) !! FQN lom = None /\
    chtimes_fault (fs w) !! FQN lom = None /\
    flush_entry T b m w = flushAtime lom (md_atime m) w.
Proof.
  unfold flush_entry.
  destruct (Z.eqb_spec (md_atime m) (md_atimefs m)) as [He | Hne]; cbn [negb];
    [by left |].
  destruct (lomFromLmeta T m b) as [lom [e |]] eqn:Hl; [by left |].
  destruct (flushAtime_cases lom (md_atime m) w) as [-> | (fi & Hf & Hs & Hc)];
    [by left |].
  right. by exists lom, fi.
Qed.

Lemma flush_entry_eq T b m w lom :
  md_atime m <> md_atimefs m -> lomFromLmeta T m b = (lom, None) ->
  flush_entry T b m w = flushAtime lom (md_atime m) w.
Proof.
  intros Hne Hl. unfold flush_entry.
  destruct (Z.eqb_spec (md_atime m) (md_atimefs m)); [contradiction |].
  cbn [negb]. by rewrite Hl.
Qed.

Lemma walk_inv_start T b now d ss w0 : walk_inv T b now d ss w0 w0.
Proof.
  split; [auto |]. split; [by repeat split |]. split.
  - intros q. destruct (files (fs w0) !! q) as [f |]; [| reflexivity].
    exists f. auto.
  - intros k m lom fi (H & _). by left.
Qed.

(** One entry of a walk. *)
Lemma walk_inv_step T b now d ss w0 w c k' m' :
  Int.min_int64 < d <= Int.max_int64 ->
  caches w0 !! k' = Some m' -> k'.1 ∈ ss ->
  walk_inv T b now d ss w0 w ->
  walk_inv T b now d ss w0 (feviat T false b now d k' m' (w, c)).2.1.
Proof.
  intros Hd Hk' Hs' (HA & HB & HC & HD). rewrite feviat_entry by exact Hd.
  destruct (fresh now d m') eqn:Hold; cbn [fst snd];
    [exact (conj HA (conj HB (conj HC HD))) |].
  destruct (flush_entry_caches T b m' w) as [Hcaches _].
  set (w1 := flush_entry T b m' w) in *.
  assert (forall lom fi,
            md_atime m' <> md_atimefs m' -> lomFromLmeta T m' b = (lom, None) ->
            files (fs w) !! FQN lom = Some fi ->
            stat_fault (fs w) !! FQN lom = None ->
            chtimes_fault (fs w) !! FQN lom = None ->
            fs w1 = mkFsys (<[FQN lom := touch (md_atime m') fi]> (files (fs w)))
                      (xattrs (fs w)) (stat_fault (fs w)) (getxattr_fault (fs w))
                      (setxattr_fault (fs w)) (read_fault (fs w))
                      (chtimes_fault (fs w))) as Hflush.
  { intros lom fi Hne Hl Hf Hst Hch. unfold w1.
    rewrite (flush_entry_eq T b m' w lom Hne Hl).
    by rewrite (flushAtime_eq lom _ w fi Hf Hst Hch). }
  assert (fs w1 = fs w \/
          exists lom fi,
            md_atime m' <> md_atimefs m' /\ lomFromLmeta T m' b = (lom, None) /\
            files (fs w) !! FQN lom = Some fi /\
            fs w1 = mkFsys (<[FQN lom := touch (md_atime m') fi]> (files (fs w)))
                      (xattrs (fs w)) (stat_fault (fs w)) (getxattr_fault (fs w))
                      (setxattr_fault (fs w)) (read_fault (fs w))
                      (chtimes_fault (fs w))) as Hfs.
  { destruct (flush_entry_cases T b m' w)
      as [E | (lom & fi & Hne & Hl & Hf & Hst & Hch & _)].
    - left. unfold w1. by rewrite E.
    - right. exists lom, fi. split; [exact Hne |]. split; [exact Hl |].
      split; [exact Hf |]. by apply Hflush. }
  assert (forall lom, md_atime m' <> md_atimefs m' -> lomFromLmeta T m' b = (lom, None) ->
            written_through T b now d ss (caches w0) (FQN lom) m') as Hwt.
  { intros lom Hne Hl. exists k', lom. by repeat split. }
  clearbody w1.
  split; [| split; [| split]]; cbn [caches fs set_caches].
  - intros k m H. rewrite Hcaches in H. apply lookup_delete_Some in H as [_ H].
    by apply HA.
  - destruct Hfs as [E | (lom & fi & _ & _ & _ & E)]; rewrite E; exact HB.
  - intros q. specialize (HC q). cbn [fs set_caches].
    destruct Hfs as [E | (lom & fi & Hne & Hl & Hf & E)]; rewrite E; [exact HC |].
    cbn [files]. destruct (decide (q = FQN lom)) as [-> | Hq].
    + rewrite lookup_insert_eq. rewrite Hf in HC.
      destruct HC as (f0 & H0 & Hf0). exists f0. split; [exact H0 |].
      right. exists m'. split; [by apply Hwt |].
      destruct Hf0 as [-> | (m1 & _ & ->)]; reflexivity.
    + by rewrite lookup_insert_ne.
  - intros k m lom fi Hto. pose proof Hto as (H1 & H2 & H3 & H4 & H5 & H6 & H7 & H8).
    cbn [caches fs set_caches].
    destruct HB as (B1 & B2 & B3 & B4 & B5 & B6).
    destruct (decide (k = k')) as [-> | Hk].
    + right. assert (m' = m) as -> by congruence.
      pose proof (HC (FQN lom)) as HCq. rewrite H5 in HCq.
      destruct (files (fs w) !! FQN lom) as [f' |] eqn:Hf'; [| discriminate].
      destruct HCq as (f0 & [= <-] & Hf0).
      rewrite (Hflush lom f' H3 H4 Hf') by congruence. cbn [files].
      rewrite lookup_insert_eq. destruct Hf0 as [-> | (m1 & _ & ->)]; reflexivity.
    + destruct (HD k m lom fi Hto) as [Hl | Hr].
      * left. rewrite Hcaches. by rewrite lookup_delete_ne.
      * right. destruct Hfs as [E | (lom' & fi' & Hne & Hl' & Hf' & E)]; rewrite E;
          [exact Hr |].
        cbn [files]. destruct (decide (FQN lom = FQN lom')) as [Heq | Hq].
        -- rewrite Heq, lookup_insert_eq. rewrite <- Heq in Hf'.
           rewrite Hr in Hf'. injection Hf' as <-.
           rewrite touch_touch. f_equal. f_equal. apply H8.
           rewrite Heq. by apply Hwt.
        -- by rewrite lookup_insert_ne.
Qed.

Lemma walk_inv_Range T b now d ss w0
    (l : list (string * Z * string * lmeta)) : forall w c,
  Int.min_int64 < d <= Int.max_int64 ->
  (forall k m, (k, m) ∈ l -> caches w0 !! k = Some m /\ k.1 ∈ ss) ->
  walk_inv T b now d ss w0 w ->
  walk_inv T b now d ss w0 (Range (feviat T false b now d) l (w, c)).1.
Proof.
  induction l as [| [k m] l IH]; intros w c Hd Hl Hinv; [exact Hinv |].
  cbn [Range].
  destruct (Hl k m (list_elem_of_here _ _)) as [Hk Hs].
  pose proof (walk_inv_step T b now d ss w0 w c k m Hd Hk Hs Hinv) as Hstep.
  rewrite feviat_entry in * by exact Hd. cbn [fst snd] in Hstep.
  destruct (if fresh now d m then _ else _) as [w1 c1]. cbn [fst snd] in Hstep.
  apply IH; [exact Hd | | exact Hstep].
  intros k1 m1 H1. apply Hl. by apply list_elem_of_further.
Qed.

Lemma walk_inv_work_on T b now d ss w0 (ss' : list (string * Z)) : forall st,
  Int.min_int64 < d <= Int.max_int64 ->
  (forall s, s ∈ ss' -> s ∈ ss) ->
  walk_inv T b now d ss w0 st.1 ->
  walk_inv T b now d ss w0 (work_on T b now d ss' st).1.
Proof.
  induction ss' as [| s ss' IH]; intros [w c] Hd Hsub Hinv; [exact Hinv |].
  rewrite work_on_cons. cbn [fst] in *.
  apply IH; [exact Hd | intros s' Hs'; apply Hsub; by apply list_elem_of_further |].
  apply walk_inv_Range; [exact Hd | | exact Hinv].
  intros k m H. apply elem_of_map_to_list in H.
  apply map_lookup_filter_Some in H as [H Hin]. unfold in_stripe in Hin. cbn [fst] in Hin.
  split; [by apply (proj1 Hinv) |]. rewrite Hin. apply Hsub, list_elem_of_here.
Qed.

(** The filesystem after a walk of [work]: only access times change, and
    the access time of an evicted entry that had to be flushed is the one
    of its file. *)
Lemma work_fs T now d w :
  Int.min_int64 < d <= Int.max_int64 ->
  let r := work T false now d w in
  same_but_files (fs r.2) (fs w) /\
  files_touched T (GetBMD T) now d (lomCaches T) w r.2 /\
  (forall k m lom fi,
     k.1 ∈ lomCaches T ->
     to_flush T (GetBMD T) now d (lomCaches T) w k m lom fi ->
     files (fs r.2) !! FQN lom = Some (touch (md_atime m) fi)).
Proof.
  intros Hd. cbv zeta.
  assert (H0 : tally_ok (mkTally 0 0)) by (split; simpl; lia).
  destruct (work_on_spec T (GetBMD T) now d (lomCaches T) Hd
              (NoDup_lomCaches T) w (mkTally 0 0) H0) as (Hc & _).
  pose proof (walk_inv_work_on T (GetBMD T) now d (lomCaches T) w (lomCaches T)
                (w, mkTally 0 0) Hd (fun s H => H)
                (walk_inv_start T (GetBMD T) now d (lomCaches T) w))
    as (_ & HB & HC & HD).
  unfold work. unfold work_on in Hc, HB, HC, HD.
  destruct (foldl _ (w, mkTally 0 0) (lomCaches T)) as [w' c'].
  cbn [fst snd] in *. split; [exact HB |]. split; [exact HC |].
  intros k m lom fi Hk Hto. destruct (HD k m lom fi Hto) as [Hl | Hr]; [| exact Hr].
  exfalso. rewrite Hc in Hl. apply map_lookup_filter_Some in Hl as [_ Hl].
  apply Hl. split; [exact Hk |]. apply Hto.
Qed.

(** C1: on a tick the runner takes the eviction age [d] of the current
    memory pressure (OOM one minute, extreme five, high ten, otherwise one
    hour) and walks every stripe of every available mountpath.  Every
    entry counts in [total]; an entry with [now - atime < d] is kept; any
    other entry has its access time written through when it differs from
    the one on the filesystem (the LOM is rebuilt from the entry and
    [flushAtime] calls [os.Chtimes]), is deleted and counts in [evicted].
    After the walk the filesystem differs in the access times of files
    only, each being the one the file had or the one of an entry written
    through to it; and the file of an evicted entry whose access time was
    not the one on the filesystem has the access time of the entry, with
    its own size, modification time and content, provided the LOM of the
    entry can be rebuilt, the file is there, [os.Stat] and [os.Chtimes] do
    not fail on it, and the entries written through to this file agree on
    the time. *)
Theorem work_evicts T p now w :
  let d := evictAtime p in
  let r := work T false now d w in
  (* a tick of [Run] is this walk *)
  (forall p2 rn o,
     Run_select T (TimerFired p p2 now) rn w = Some o ->
     stopped rn = false /\
     forall rn' w', o = Ret (rn', w') -> w' = r.2) /\
  (* the table *)
  d = match p with
      | OOM => Minute
      | MemPressureExtreme => 5 * Minute
      | MemPressureHigh => 10 * Minute
      | MemPressureNormal => Hour
      end /\
  (* one entry *)
  (forall key m w0 c,
     let e := feviat T false (GetBMD T) now d key m (w0, c) in
     e.1 = true /\
     total e.2.2 = Int.wrap_u32 (total c + 1) /\
     (now - md_atime m < d -> e.2.1 = w0 /\ evicted e.2.2 = evicted c) /\
     (d <= now - md_atime m ->
      let w1 := if negb (md_atime m =? md_atimefs m)
                then match lomFromLmeta T m (GetBMD T) with
                     | (lom, None) => flushAtime lom (md_atime m) w0
                     | (_, Some _) => w0
                     end
                else w0 in
      e.2.1 = set_caches (delete key (caches w1)) w1 /\
      evicted e.2.2 = Int.wrap_u32 (evicted c + 1))) /\
  (* all entries *)
  caches r.2
  = filter (fun kv => ~ (kv.1.1 ∈ lomCaches T /\ (now - md_atime kv.2 <? d) = false))
           (caches w) /\
  r.1.2 = Int.wrap_u32 (Z.of_nat
            (sum_list_with (fun s => size (stripe s (caches w))) (lomCaches T))) /\
  r.1.1 = Int.wrap_u32 (Z.of_nat
            (sum_list_with
               (fun s => size (filter (fun kv => (now - md_atime kv.2 <? d) = false)
                                      (stripe s (caches w))))
               (lomCaches T))) /\
  fshc r.2 = fshc w /\
  (* the filesystem *)
  same_but_files (fs r.2) (fs w) /\
  files_touched T (GetBMD T) now d (lomCaches T) w r.2 /\
  (forall k m lom fi,
     caches w !! k = Some m -> k.1 ∈ lomCaches T ->
     (now - md_atime m <? d) = false ->
     md_atime m <> md_atimefs m ->
     lomFromLmeta T m (GetBMD T) = (lom, None) ->
     files (fs w) !! FQN lom = Some fi ->
     stat_fault (fs w) !! FQN lom = None ->
     chtimes_fault (fs w) !! FQN lom = None ->
     (forall m',
        written_through T (GetBMD T) now d (lomCaches T) (caches w) (FQN lom) m' ->
        md_atime m' = md_atime m) ->
     files (fs r.2) !! FQN lom
     = Some (mkFile (f_size fi) (md_atime m) (f_mtime fi) (f_xxhash fi))).
Proof.
  cbv zeta. pose proof (evictAtime_range p) as Hd.
  split.
  { intros p2 rn o. unfold Run_select.
    destruct (stopped rn) eqn:Hst; [discriminate |].
    destruct (timer rn); [| discriminate]. intros [= <-].
    split; [reflexivity |]. intros rn' w'. unfold Run_tick. cbn [stopped].
    destruct (work T false now (evictAtime p) w) as [[ev tot] w1].
    destruct (ev <? minev); (destruct (Assert (tot >=? ev)); simpl; [| discriminate]);
      now intros [= <- <-]. }
  split; [now destruct p |]. split.
  - intros key m w0 c. rewrite feviat_entry by exact Hd. unfold fresh.
    split; [reflexivity |].
    destruct (Z.ltb_spec (now - md_atime m) (evictAtime p)) as [Hlt | Hge]; simpl.
    + repeat split; try reflexivity; intros; lia.
    + split; [reflexivity |]. split; [intros; lia |]. intros _.
      split; reflexivity.
  - destruct (work_fs T now (evictAtime p) w Hd) as (F1 & F2 & F3).
    unfold work in *.
    assert (H0 : tally_ok (mkTally 0 0)) by (split; simpl; lia).
    destruct (work_on_spec T (GetBMD T) now (evictAtime p) (lomCaches T) Hd
                (NoDup_lomCaches T) w (mkTally 0 0) H0) as (H1 & H2 & _ & H4 & H5).
    unfold work_on in H1, H2, H4, H5.
    destruct (foldl _ (w, mkTally 0 0) (lomCaches T)) as [w' c'].
    cbn [fst snd] in *. rewrite H1, H2, H4, H5.
    split; [reflexivity |]. split; [reflexivity |]. split; [reflexivity |].
    split; [reflexivity |]. split; [exact F1 |]. split; [exact F2 |].
    intros k m lom fi K1 K2 K3 K4 K5 K6 K7 K8 K9.
    apply (F3 k m lom fi K2). unfold to_flush.
    split; [exact K1 |]. split; [exact K3 |]. split; [exact K4 |].
    split; [exact K5 |]. split; [exact K6 |]. split; [exact K7 |].
    split; [exact K8 | exact K9].
Qed.

(** Under high pressure (ten minutes) at time [two_hours]: of the two
    sample entries the old one is evicted and its access time, 100,
    replaces the one of the file, 90, whose modification time stays; the
    recent one is kept. *)
Lemma work_evicts_witness :
  let r := work sample_target false two_hours (evictAtime MemPressureHigh)
             sample_stale_world in
  r.1.1 = 1 /\ r.1.2 = 2 /\
  caches r.2 = {[ ("/mp1", 7, "b/p") := entry_at (two_hours - Second) 0 ]} /\
  files (fs sample_stale_world) !! sample_fqn = Some (mkFile 1024 90 80 "h") /\
  files (fs r.2) !! sample_fqn = Some (mkFile 1024 100 80 "h").
Proof.
  cbv zeta.
  destruct (work_evicts sample_target MemPressureHigh two_hours sample_stale_world)
    as (_ & _ & _ & Hc & Ht & He & _ & _ & _ & Hf).
  split; [rewrite He; vm_compute; reflexivity |].
  split; [rewrite Ht; vm_compute; reflexivity |].
  split; [rewrite Hc; vm_compute; reflexivity |].
  split; [reflexivity |].
  apply (Hf ("/mp1", 5, "b/o") (entry_at 100 90)
            (lomFromLmeta sample_target (entry_at 100 90) (GetBMD sample_target)).1
            (mkFile 1024 90 80 "h")); try reflexivity.
  - apply elem_of_lomCaches. split; [vm_compute; reflexivity |].
    vm_compute. split; discriminate.
  - discriminate.
  - intros m' (k' & lom' & Hk' & _ & Hold & _).
    unfold sample_stale_world in Hk'. cbn [caches] in Hk'.
    apply lookup_insert_Some in Hk' as [[_ <-] | [_ Hk']]; [reflexivity |].
    apply lookup_singleton_Some in Hk' as [_ <-]. vm_compute in Hold. discriminate.
Defined.

(** ** The cache runner: the next tick *)

(** [Run] never calls [work] while the runner is stopping: the flag is
    only set on the way out of the loop. *)
Lemma Run_select_running T ev r w o :
  Run_select T ev r w = Some o -> stopped r = false.
Proof. unfold Run_select. now destruct (stopped r). Qed.

(** The timer after a tick: re-armed with the interval of the current
    memory pressure when at least [minev] entries were evicted, and left
    expired otherwise. *)
Lemma Run_tick_timer T p1 p2 now r w d r' w' :
  Run_tick T p1 p2 now r w = Ret (d, r', w') ->
  let ev := (work T (stopped r) now (evictAtime p1) w).1.1 in
  (ev < minev -> d = mpnTimeIntval /\ timer r' = None) /\
  (minev <= ev -> d = timeIntval p2 /\ timer r' = Some (timeIntval p2)).
Proof.
  unfold Run_tick.
  destruct (work T (stopped r) now (evictAtime p1) w) as [[ev tot] w1]. simpl.
  destruct (Z.ltb_spec ev minev) as [Hlt | Hge];
    (destruct (Assert (tot >=? ev)); simpl; [| discriminate]);
    intros [= <- <- <-]; simpl; split; intros; (lia || tauto).
Qed.

(** Once the timer is left expired, the only event that [Run] can still
    take is the stop signal. *)
Lemma Run_select_expired T r w p1 p2 now :
  timer r = None -> Run_select T (TimerFired p1 p2 now) r w = None.
Proof. intros H. unfold Run_select. rewrite H. now destruct (stopped r). Qed.

(** C2, on the code: a runner on a target with no cached entries, normal
    memory pressure.  The first tick evicts nothing, which is below
    [minev]; the interval of ten minutes is computed and logged, yet the
    timer is not reset, and no later tick can happen. *)
Theorem Run_low_eviction_no_next_tick :
  let T := sample_target in
  let w := mkWorld ∅ fs_empty [] in
  let r0 := Run_start NewLomCacheRunner in
  timer r0 = Some (Minute * 10) /\
  Run_tick T MemPressureNormal MemPressureNormal two_hours (mkRunner false None) w
  = Ret (mpnTimeIntval, mkRunner false None, w) /\
  Run_select T (TimerFired MemPressureNormal MemPressureNormal two_hours) r0 w
  = Some (Ret (mkRunner false None, w)) /\
  forall p1 p2 now,
    Run_select T (TimerFired p1 p2 now) (mkRunner false None) w = None.
Proof.
  cbv zeta. split; [reflexivity |].
  split; [vm_compute; reflexivity |].
  split; [vm_compute; reflexivity |].
  intros p1 p2 now. reflexivity.
Qed.

(** ** The capacity flags *)

(** C9, as amended: when the capacity refresh succeeds and either updated
    the snapshot or reported a capacity error, [_cap] sets [OOS] if the
    snapshot is out of space; otherwise, if the snapshot has an error, it
    sets [LowCapacity] and clears [OOS]; otherwise it clears both.  When
    the refresh fails, or nothing was updated and no capacity error was
    reported, it sets and clears nothing. *)
Theorem cap_flags (OOS LowCapacity DiskFault maxCapLogInterval : Z)
    (cap_lines : list string) (cp : CapPeriodic) (CleanupWM : Z)
    (hasAlerts : bool) (flags now : Z) (r : Trunner) :
  let res := _cap OOS LowCapacity DiskFault maxCapLogInterval cap_lines
                  cp CleanupWM hasAlerts flags now r in
  let set := res.1.1 in
  let clr := res.1.2 in
  (cp_err cp = false -> cp_updated cp = true \/ cp_errCap cp = true ->
   (cs_IsOOS (cp_cs cp) = true -> set = OOS) /\
   (cs_IsOOS (cp_cs cp) = false -> cs_Err (cp_cs cp) = true ->
    set = LowCapacity /\ clr = OOS) /\
   (cs_IsOOS (cp_cs cp) = false -> cs_Err (cp_cs cp) = false ->
    set = 0 /\ clr = Z.lor OOS LowCapacity)) /\
  (cp_err cp = true \/ (cp_updated cp = false /\ cp_errCap cp = false) ->
   res = (0, 0, r)).
Proof.
  cbv zeta. unfold _cap.
  destruct cp as [[pm oos cerr] upd err errCap]. cbn [cp_cs cp_updated cp_err cp_errCap
    PctMax cs_IsOOS cs_Err]. split.
  - intros -> Hupd.
    assert (Hgo : negb upd && negb errCap = false).
    { destruct Hupd as [-> | ->]; [reflexivity | apply andb_false_r]. }
    rewrite Hgo. cbv iota.
    destruct upd, errCap, hasAlerts, (wrap32 CleanupWM <? pm),
      (Z.min (next r) (cs_last r + maxCapLogInterval) <=? now),
      (IsSet flags DiskFault), oos, cerr; cbn;
      repeat split; intros; (discriminate || reflexivity).
  - intros [-> | [-> ->]]; [reflexivity |]. now destruct err.
Qed.

(** A refreshed snapshot at 85% with the cleanup watermark at 80%, above
    the high watermark but not out of space: the space manager is called,
    [LowCapacity] is set and [OOS] is cleared. *)
Lemma cap_flags_witness :
  let cp := mkCapPeriodic (mkCapStatus 85 false true) true false false in
  (sample_cap cp).1.1 = bit_LowCapacity /\
  (sample_cap cp).1.2 = bit_OOS /\
  oos_calls (sample_cap cp).2 = [true].
Proof.
  cbv zeta.
  destruct (cap_flags bit_OOS bit_LowCapacity bit_DiskFault (Minute * 60)
              ["/mp1: used 85%"]
              (mkCapPeriodic (mkCapStatus 85 false true) true false false)
              80 false 0 Second sample_trunner) as [H _].
  destruct (H eq_refl (or_introl eq_refl)) as (_ & Hlow & _).
  destruct (Hlow eq_refl eq_refl) as [Hset Hclr].
  split; [exact Hset |]. split; [exact Hclr |]. reflexivity.
Defined.

(** A check between two refreshes: nothing was updated and there is no
    capacity error.  The snapshot is not out of space and has no error,
    and yet neither [OOS] nor [LowCapacity] is cleared. *)
Lemma cap_not_updated_clears_nothing :
  let cp := mkCapPeriodic (mkCapStatus 0 false false) false false false in
  cs_IsOOS (cp_cs cp) = false /\ cs_Err (cp_cs cp) = false /\
  sample_cap cp = (0, 0, sample_trunner) /\
  (sample_cap cp).1.2 <> Z.lor bit_OOS bit_LowCapacity.
Proof.
  cbv zeta. repeat split; try reflexivity. vm_compute. discriminate.
Qed.

(** ** Local copies *)

(** Case analysis on the [bool_decide]s of a goal about list membership. *)
Ltac solve_cases :=
  repeat case_bool_decide; try reflexivity; exfalso;
  set_unfold; intuition congruence.

Section CopiesFacts.

Variable remove_fault : gmap string errno.

Lemma os_Remove_cases f p :
  (removal_fails remove_fault p = true /\
   exists e, os_Remove remove_fault f p = (Some e, f) /\ os_IsNotExist e = false) \/
  (removal_fails remove_fault p = false /\
   ((exists e, os_Remove remove_fault f p = (Some e, f) /\ os_IsNotExist e = true) \/
    (exists f1, os_Remove remove_fault f p = (None, f1)))).
Proof.
  unfold removal_fails, os_Remove.
  destruct (remove_fault !! p) as [e|].
  - destruct (os_IsNotExist e) eqn:E; [right | left]; split; eauto.
  - right. split; [reflexivity |]. destruct (files f !! p); eauto.
Qed.

Lemma os_Remove_files f p q :
  files (os_Remove remove_fault f p).2 !! q =
  if bool_decide (q = p /\ remove_fault !! p = None) then None else files f !! q.
Proof.
  unfold os_Remove.
  destruct (remove_fault !! p) as [e|] eqn:E.
  - rewrite bool_decide_eq_false_2; [reflexivity | intros [_ ?]; discriminate].
  - destruct (files f !! p) eqn:F; simpl.
    + case_bool_decide as H.
      * destruct H as [-> _]. apply lookup_delete_eq.
      * apply lookup_delete_ne. intros ->. apply H. done.
    + case_bool_decide as H; [| reflexivity]. destruct H as [-> _]. exact F.
Qed.

(** One round of the loop, by cases on the removal. *)
Lemma del_step_eq f c n e (cpy : string * string) :
  del_step remove_fault (f, c, n, e) cpy =
  if removal_fails remove_fault cpy.1
  then ((os_Remove remove_fault f cpy.1).2, c, n,
        (del_step remove_fault (f, c, n, e) cpy).2)
  else ((os_Remove remove_fault f cpy.1).2, delete cpy.1 c, n + 1, e).
Proof.
  unfold del_step.
  destruct (os_Remove_cases f cpy.1) as [[-> (x & -> & E)] | [-> [(x & -> & E) | (f1 & ->)]]];
    simpl; rewrite ?E; reflexivity.
Qed.

Lemma del_step_err f c n e (cpy : string * string) :
  (del_step remove_fault (f, c, n, e) cpy).2 = None <->
  e = None /\ removal_fails remove_fault cpy.1 = false.
Proof.
  unfold del_step.
  destruct (os_Remove_cases f cpy.1) as [[-> (x & -> & E)] | [-> [(x & -> & E) | (f1 & ->)]]];
    simpl; rewrite ?E; simpl; intuition congruence.
Qed.

(** The loop of [DelAllCopies] over any list of distinct copies. *)
Lemma del_loop (l : list (string * string)) :
  forall f c n e,
    NoDup l.*1 ->
    (forall k, k ∈ l.*1 -> is_Some (c !! k)) ->
    exists f' c' n' e',
      foldl (del_step remove_fault) (f, c, n, e) l = (f', c', n', e') /\
      (forall k, c' !! k =
         if bool_decide (k ∈ l.*1 /\ removal_fails remove_fault k = false)
         then None else c !! k) /\
      Z.of_nat (size c') + n' = Z.of_nat (size c) + n /\
      (e' = None <->
       e = None /\ forall k, k ∈ l.*1 -> removal_fails remove_fault k = false) /\
      (forall q, files f' !! q =
         if bool_decide (q ∈ l.*1 /\ remove_fault !! q = None)
         then None else files f !! q).
Proof.
  induction l as [|[k v] l IH]; intros f c n e ND Hin.
  - exists f, c, n, e. cbn [foldl fmap list_fmap].
    split; [reflexivity |]. split; [| split; [reflexivity | split]].
    + intros k. solve_cases.
    + split; [intros ->; split; [reflexivity |] | tauto].
      intros k H. by apply elem_of_nil in H.
    + intros q. solve_cases.
  - cbn [foldl]. rewrite fmap_cons in ND, Hin. cbn [fst] in ND, Hin.
    apply NoDup_cons in ND as [Hk ND].
    pose proof (del_step_err f c n e (k, v)) as He.
    pose proof (os_Remove_files f k) as Hf.
    rewrite del_step_eq in *. cbn [fst] in *.
    destruct (removal_fails remove_fault k) eqn:Efail.
    + destruct (IH (os_Remove remove_fault f k).2 c n
                  (del_step remove_fault (f, c, n, e) (k, v)).2 ND)
        as (f' & c' & n' & e' & -> & Hc & Hn & Hne & Hfs).
      { intros k' Hk'. apply Hin. by apply list_elem_of_further. }
      exists f', c', n', e'. split; [reflexivity |].
      split; [| split; [exact Hn | split]].
      * intros k'. rewrite Hc. rewrite fmap_cons. cbn [fst]. solve_cases.
      * rewrite Hne. cbn [snd] in He. rewrite He. rewrite fmap_cons. cbn [fst].
        split.
        -- intros [[_ ?] _]. discriminate.
        -- intros [_ H]. specialize (H k (list_elem_of_here _ _)). congruence.
      * intros q. rewrite Hfs, Hf. rewrite fmap_cons. cbn [fst].
        assert (remove_fault !! k <> None) as Hrf.
        { unfold removal_fails in Efail. destruct (remove_fault !! k); congruence. }
        solve_cases.
    + destruct (IH (os_Remove remove_fault f k).2 (delete k c) (n + 1) e ND)
        as (f' & c' & n' & e' & -> & Hc & Hn & Hne & Hfs).
      { intros k' Hk'. rewrite lookup_delete_ne; [| by intros ->].
        apply Hin. by apply list_elem_of_further. }
      exists f', c', n', e'. split; [reflexivity |].
      split; [| split; [| split]].
      * intros k'. rewrite Hc. rewrite fmap_cons. cbn [fst].
        destruct (decide (k' = k)) as [-> | Hne'].
        -- rewrite lookup_delete_eq. solve_cases.
        -- rewrite lookup_delete_ne by done. solve_cases.
      * destruct (Hin k (list_elem_of_here _ _)) as [x Hx].
        rewrite map_size_delete, Hx in Hn.
        assert (size c <> 0%nat).
        { intros H0. apply map_size_empty_iff in H0. subst c. by rewrite lookup_empty in Hx. }
        cbn [pred] in Hn. lia.
      * rewrite Hne. rewrite fmap_cons. cbn [fst]. split.
        -- intros [-> H]. split; [reflexivity |]. intros k' Hk'.
           apply elem_of_cons in Hk' as [-> | Hk']; [done | by apply H].
        -- intros [-> H]. split; [reflexivity |]. intros k' Hk'.
           apply H. by apply list_elem_of_further.
      * intros q. rewrite Hfs, Hf. rewrite fmap_cons. cbn [fst]. solve_cases.
Qed.

Lemma elem_of_keys (c : gmap string string) k :
  k ∈ (map_to_list c).*1 <-> is_Some (c !! k).
Proof.
  rewrite list_elem_of_fmap. split.
  - intros ([k' v] & -> & H). apply elem_of_map_to_list in H. by exists v.
  - intros [v H]. exists (k, v). split; [reflexivity | by apply elem_of_map_to_list].
Qed.

Lemma set_md_copies_id lom :
  set_md (set_md_copies (md_copies (md lom)) (md lom)) lom = lom.
Proof. destruct lom as [[] ?]. reflexivity. Qed.

(** X1: DelAllCopies on a LOM that is not itself a copy: [os.Remove] is tried
    on every registered copy and on nothing else; the call returns no
    error iff no removal failed; the metadata keeps the copies whose
    removal failed when they outnumber the removed ones, and forgets all
    copies otherwise. *)
Theorem DelAllCopies_spec lom f :
  IsCopy lom = false ->
  let copies := md_copies (md lom) in
  let failed := failed_copies remove_fault lom in
  let r := DelAllCopies remove_fault lom f in
  (r.1.1 = None <-> failed = ∅) /\
  r.1.2 = set_md (set_md_copies
                    (if bool_decide (size copies < 2 * size failed)%nat
                     then failed else ∅) (md lom)) lom /\
  (forall q, files r.2 !! q =
     if bool_decide (is_Some (copies !! q) /\ remove_fault !! q = None)
     then None else files f !! q).
Proof.
  intros Hcopy copies failed r. subst r.
  unfold DelAllCopies, _whingeCopy, HasCopies, NumCopies, len_copies.
  rewrite Hcopy. cbn [negb andb]. fold copies.
  assert (forall k, failed !! k =
            if bool_decide (is_Some (copies !! k) /\ removal_fails remove_fault k = false)
            then None else copies !! k) as Hfailed.
  { intros k. unfold failed, failed_copies. fold copies.
    destruct (copies !! k) as [v|] eqn:E.
    - case_bool_decide as H.
      + apply map_lookup_filter_None. right. intros v' _. cbn. destruct H. congruence.
      + apply map_lookup_filter_Some. split; [exact E |]. cbn.
        destruct (removal_fails remove_fault k); [reflexivity |].
        exfalso. apply H. split; [by exists v | reflexivity].
    - case_bool_decide; apply map_lookup_filter_None; by left. }
  destruct (decide (copies = ∅)) as [Hempty | Hne].
  - assert (failed = ∅) as ->.
    { unfold failed, failed_copies. fold copies. rewrite Hempty. apply map_filter_empty. }
    replace (if bool_decide (size copies < 2 * size (∅ : gmap string string))%nat
             then ∅ else ∅) with copies by (by case_bool_decide).
    replace (1 <? Z.of_nat (size copies) + 1) with false
      by (rewrite Hempty, map_size_empty; reflexivity).
    cbn [negb fst snd]. split; [tauto |]. split.
    + unfold copies. by rewrite set_md_copies_id.
    + intros q. rewrite Hempty, lookup_empty. case_bool_decide as H; [| reflexivity].
      by destruct H as [[] _].
  - assert (size copies <> 0%nat) as Hsz by (by rewrite map_size_empty_iff).
    replace (1 <? Z.of_nat (size copies) + 1) with true by (symmetry; apply Z.ltb_lt; lia).
    cbn [negb].
    destruct (del_loop (map_to_list copies) f copies 0 None)
      as (f' & c' & n' & e' & -> & Hc & Hn & Hne' & Hfs).
    { apply NoDup_fst_map_to_list. }
    { intros k. apply elem_of_keys. }
    assert (c' = failed) as ->.
    { apply map_eq. intros k. rewrite Hc, Hfailed.
      destruct (copies !! k) eqn:E; [| by repeat case_bool_decide].
      assert (k ∈ (map_to_list copies).*1) by (apply elem_of_keys; eauto).
      assert (is_Some (copies !! k)) by eauto. rewrite E in *.
      repeat case_bool_decide; try reflexivity; exfalso; intuition congruence. }
    assert ((n' <? Z.of_nat (size failed)) =
            bool_decide (size copies < 2 * size failed)%nat) as ->.
    { case_bool_decide; [apply Z.ltb_lt | apply Z.ltb_ge]; lia. }
    assert (e' = None <-> failed = ∅) as Herr.
    { rewrite Hne'. split.
      - intros [_ H]. apply map_eq. intros k. rewrite Hfailed, lookup_empty.
        case_bool_decide as Hk; [reflexivity |].
        destruct (copies !! k) eqn:E; [| reflexivity].
        exfalso. apply Hk. split; [eauto |]. apply H. apply elem_of_keys. eauto.
      - intros H. split; [reflexivity |]. intros k Hk. apply elem_of_keys in Hk.
        pose proof (Hfailed k) as Hk'. rewrite H, lookup_empty in Hk'.
        case_bool_decide as Hd; [tauto |]. destruct Hk as [? Hk]. congruence. }
    case_bool_decide; cbn [fst snd]; (split; [exact Herr |]); (split; [reflexivity |]);
      intros q; rewrite Hfs; pose proof (elem_of_keys copies q);
      repeat case_bool_decide; try reflexivity; exfalso; intuition congruence.
Qed.


Lemma map_size_1_lookup (c : gmap string string) k v :
  size c = 1%nat -> c !! k = Some v -> c = {[ k := v ]}.
Proof.
  intros Hs Hk. rewrite <- (insert_delete_id c k v Hk).
  assert (delete k c = ∅) as ->; [| reflexivity].
  apply map_size_empty_iff. rewrite map_size_delete, Hk, Hs. reflexivity.
Qed.

(** DelAllCopies on a LOM with a single copy. *)
Lemma DelAllCopies_single lom f cpyfqn v :
  md_copies (md lom) = {[ cpyfqn := v ]} ->
  IsCopy lom = false ->
  let r := DelAllCopies remove_fault lom f in
  (r.1.1 = None <-> removal_fails remove_fault cpyfqn = false) /\
  r.1.2 = set_md (set_md_copies
                    (if removal_fails remove_fault cpyfqn
                     then {[ cpyfqn := v ]} else ∅) (md lom)) lom /\
  r.2 = (os_Remove remove_fault f cpyfqn).2.
Proof.
  intros Hc Hcopy. cbv zeta.
  unfold DelAllCopies, _whingeCopy, HasCopies, NumCopies, len_copies.
  rewrite Hcopy, Hc, map_size_singleton, map_to_list_singleton.
  cbn [negb andb Z.of_nat Z.add Z.ltb Z.compare Pos.of_succ_nat Pos.succ Pos.add
       Pos.compare Pos.compare_cont foldl].
  pose proof (del_step_err f {[cpyfqn := v]} 0 None (cpyfqn, v)) as He.
  rewrite del_step_eq in *. cbn [fst snd] in *.
  destruct (removal_fails remove_fault cpyfqn) eqn:E.
  - rewrite map_size_singleton. cbn [Z.of_nat Z.ltb Z.compare Pos.of_succ_nat fst snd].
    split; [| done]. rewrite He. split; [intros [_ ?]; done | discriminate].
  - rewrite delete_singleton_eq, map_size_empty.
    cbn [Z.of_nat Z.add Z.ltb Z.compare fst snd]. done.
Qed.

(** X2: DelCopy of a registered copy, on a LOM that is not itself a copy:
    [os.Remove] is tried on that copy only, and the call returns no error
    iff the removal did not fail. The copy leaves the metadata, except
    when it is the only one and its removal failed. *)
Theorem DelCopy_spec lom f cpyfqn :
  IsCopy lom = false ->
  is_Some (md_copies (md lom) !! cpyfqn) ->
  let copies := md_copies (md lom) in
  let r := DelCopy remove_fault cpyfqn lom f in
  (r.1.1 = None <-> removal_fails remove_fault cpyfqn = false) /\
  r.1.2 = set_md (set_md_copies
                    (if removal_fails remove_fault cpyfqn
                        && bool_decide (size copies = 1%nat)
                     then copies else delete cpyfqn copies) (md lom)) lom /\
  (forall q, files r.2 !! q =
     if bool_decide (q = cpyfqn /\ remove_fault !! cpyfqn = None)
     then None else files f !! q).
Proof.
  intros Hcopy [v Hv] copies r. subst r. unfold DelCopy, len_copies, _whingeCopy.
  fold copies. rewrite Hcopy, bool_decide_eq_true_2 by (by exists v). cbn [negb].
  pose proof (os_Remove_files f cpyfqn) as Hf.
  destruct (Z.eqb_spec (Z.of_nat (size copies)) 1) as [H1 | H1].
  - assert (size copies = 1%nat) as Hs by lia.
    pose proof (map_size_1_lookup copies cpyfqn v Hs Hv) as Hc.
    destruct (DelAllCopies_single lom f cpyfqn v Hc Hcopy) as (He & Hl & Hfs).
    rewrite bool_decide_eq_true_2 by exact Hs. rewrite andb_true_r.
    split; [exact He |]. split; [| by rewrite Hfs].
    rewrite Hl. destruct (removal_fails remove_fault cpyfqn); [by rewrite <- Hc |].
    rewrite Hc. by rewrite delete_singleton_eq.
  - rewrite bool_decide_eq_false_2 by lia. rewrite andb_false_r.
    destruct (os_Remove_cases f cpyfqn)
      as [[-> (x & E & Ex)] | [-> [(x & E & Ex) | (f1 & E)]]];
      rewrite E in *; rewrite ?Ex; cbn [negb fst snd] in *;
      (split; [split; [discriminate || reflexivity | discriminate || reflexivity] |]);
      (split; [reflexivity | exact Hf]).
Qed.


(** X3: A copy added with AddCopy and deleted again with DelCopy leaves the
    LOM as it was, provided the copy was not registered yet, its removal
    does not fail and, for a LOM without copies, the copy is not the LOM's
    own HRW path. *)
Theorem AddCopy_DelCopy lom f cpyfqn mpi :
  md_copies (md lom) !! cpyfqn = None ->
  removal_fails remove_fault cpyfqn = false ->
  (md_copies (md lom) = ∅ -> cpyfqn <> HrwFQN lom) ->
  exists lom1,
    AddCopy cpyfqn mpi lom = Ret lom1 /\
    GetCopies lom1 = <[cpyfqn := mpi]> (md_copies (md lom)) /\
    NumCopies lom1 = NumCopies lom + 1 /\
    (DelCopy remove_fault cpyfqn lom1 f).1 = (None, lom).
Proof.
  intros Hnew Hok Hhrw.
  set (lom1 := set_md (set_md_copies (<[cpyfqn := mpi]> (md_copies (md lom))) (md lom)) lom).
  assert (AddCopy cpyfqn mpi lom = Ret lom1) as HA.
  { unfold AddCopy, SetCopies. case_bool_decide as He.
    - unfold lom1. rewrite He. reflexivity.
    - rewrite Hnew. rewrite bool_decide_eq_false_2 by (by intros [? ?]). reflexivity. }
  assert (md_copies (md lom1) = <[cpyfqn := mpi]> (md_copies (md lom))) as Hc1
    by (destruct lom as [[] ?]; reflexivity).
  assert (HrwFQN lom1 = HrwFQN lom) as Hh1 by (destruct lom as [[] ?]; reflexivity).
  assert (size (md_copies (md lom1)) = S (size (md_copies (md lom)))) as Hs1
    by (rewrite Hc1; by apply map_size_insert_None).
  assert (forall c, md_copies (md lom) = c ->
            set_md (set_md_copies c (md lom1)) lom1 = lom) as Hback
    by (intros c <-; destruct lom as [[] ?]; reflexivity).
  exists lom1. split; [exact HA |]. split; [exact Hc1 |]. split.
  { unfold NumCopies, len_copies. rewrite Hs1. lia. }
  unfold DelCopy, len_copies, _whingeCopy.
  rewrite bool_decide_eq_true_2 by (rewrite Hc1, lookup_insert_eq; eauto). cbn [negb].
  destruct (decide (md_copies (md lom) = ∅)) as [He | He].
  - (* the first copy: DelCopy goes through DelAllCopies *)
    replace (Z.of_nat (size (md_copies (md lom1))) =? 1) with true
      by (rewrite Hs1, He, map_size_empty; reflexivity).
    assert (md_copies (md lom1) = {[ cpyfqn := mpi ]}) as Hsingle
      by (by rewrite Hc1, He).
    assert (IsCopy lom1 = false) as Hcopy.
    { unfold IsCopy, len_copies. rewrite Hsingle, map_size_singleton.
      change (negb (Z.of_nat 1 =? 1)) with false. cbv iota.
      apply bool_decide_eq_false_2. rewrite Hh1.
      rewrite lookup_singleton_ne by (by apply Hhrw). by intros [? ?]. }
    destruct (DelAllCopies_single lom1 f cpyfqn mpi Hsingle Hcopy) as (E1 & E2 & _).
    rewrite Hok in E2.
    destruct (DelAllCopies remove_fault lom1 f) as [[e l] f']. cbn [fst snd] in *.
    f_equal; [tauto |]. rewrite E2. by apply Hback.
  - assert (size (md_copies (md lom)) <> 0%nat) by (by rewrite map_size_empty_iff).
    replace (Z.of_nat (size (md_copies (md lom1))) =? 1) with false
      by (symmetry; apply Z.eqb_neq; lia).
    assert (IsCopy lom1 = false) as ->.
    { unfold IsCopy, len_copies.
      replace (Z.of_nat (size (md_copies (md lom1))) =? 1) with false
        by (symmetry; apply Z.eqb_neq; lia). reflexivity. }
    rewrite Hc1, delete_insert_id by exact Hnew.
    rewrite (Hback _ eq_refl).
    destruct (os_Remove_cases f cpyfqn)
      as [[Hf _] | [_ [(x & -> & ->) | (f1 & ->)]]]; [congruence | reflexivity ..].
Qed.

(** X4: A LOM that is itself a copy deletes no file and keeps its metadata,
    whichever copy it is asked to delete. *)
Theorem DelCopy_on_copy lom f cpyfqn :
  IsCopy lom = true ->
  DelAllCopies remove_fault lom f = (None, lom, f) /\
  (DelCopy remove_fault cpyfqn lom f).1.2 = lom /\
  (DelCopy remove_fault cpyfqn lom f).2 = f.
Proof.
  intros Hcopy.
  assert (DelAllCopies remove_fault lom f = (None, lom, f)) as HD
    by (unfold DelAllCopies, _whingeCopy; by rewrite Hcopy).
  split; [exact HD |]. unfold DelCopy.
  assert (len_copies lom = 1) as ->.
  { unfold IsCopy in Hcopy. destruct (Z.eqb_spec (len_copies lom) 1); [done | discriminate]. }
  rewrite HD. cbn [Z.eqb Pos.eqb]. by case_bool_decide.
Qed.

End CopiesFacts.

Lemma DelAllCopies_spec_witness :
  IsCopy sample_mirrored = false /\
  ((DelAllCopies sample_remove_fault sample_mirrored sample_mirrored_fs).1.1 = None <->
   failed_copies sample_remove_fault sample_mirrored = ∅).
Proof.
  split; [reflexivity |].
  apply (DelAllCopies_spec sample_remove_fault sample_mirrored sample_mirrored_fs).
  reflexivity.
Defined.

Lemma DelCopy_spec_witness :
  IsCopy sample_mirrored = false /\
  is_Some (md_copies (md sample_mirrored) !! copy_fqn) /\
  ((DelCopy sample_remove_fault copy_fqn sample_mirrored sample_mirrored_fs).1.1 = None <->
   removal_fails sample_remove_fault copy_fqn = false).
Proof.
  split; [reflexivity |]. split; [by eexists |].
  apply (DelCopy_spec sample_remove_fault sample_mirrored sample_mirrored_fs copy_fqn);
    [reflexivity | by eexists].
Defined.

Lemma AddCopy_DelCopy_witness :
  md_copies (md (sample_lom sample_fqn (sample_md "1" None))) !! copy_fqn = None /\
  removal_fails sample_remove_fault copy_fqn = false /\
  exists lom1,
    AddCopy copy_fqn "/mp2" (sample_lom sample_fqn (sample_md "1" None)) = Ret lom1 /\
    GetCopies lom1 = {[ copy_fqn := "/mp2" ]} /\
    NumCopies lom1 = 2 /\
    (DelCopy sample_remove_fault copy_fqn lom1 sample_mirrored_fs).1 =
    (None, sample_lom sample_fqn (sample_md "1" None)).
Proof.
  split; [reflexivity |]. split; [reflexivity |].
  apply (AddCopy_DelCopy sample_remove_fault (sample_lom sample_fqn (sample_md "1" None))
           sample_mirrored_fs copy_fqn "/mp2"); [reflexivity | reflexivity |].
  intros _. discriminate.
Defined.

Lemma DelCopy_on_copy_witness :
  IsCopy (sample_copy (mkLmeta "b/o" "1" 1024 100 100 1 None {[ sample_fqn := "/mp1" ]}))
  = true /\
  (DelCopy sample_remove_fault sample_fqn
     (sample_copy (mkLmeta "b/o" "1" 1024 100 100 1 None {[ sample_fqn := "/mp1" ]}))
     sample_mirrored_fs).2 = sample_mirrored_fs.
Proof.
  split; [reflexivity |].
  apply (DelCopy_on_copy sample_remove_fault
           (sample_copy (mkLmeta "b/o" "1" 1024 100 100 1 None {[ sample_fqn := "/mp1" ]}))
           sample_mirrored_fs sample_fqn).
  reflexivity.
Defined.

(** ** Load and the cache *)

(** What [FromFS] leaves alone. *)
Lemma FromFS_frame lom w :
  fs (FromFS lom w).2 = fs w /\
  FQN (FromFS lom w).1.2 = FQN lom /\
  HrwFQN (FromFS lom w).1.2 = HrwFQN lom /\
  loaded (FromFS lom w).1.2 = loaded lom /\
  BckProps (FromFS lom w).1.2 = BckProps lom /\
  md_uname (md (FromFS lom w).1.2) = md_uname (md lom).
Proof.
  unfold FromFS, lmfs. cbn [FQN set_exists md].
  destruct (getxattr (fs w) (FQN lom)) as [e | m]; cbn [FQN set_exists md set_md].
  - destruct (_ && _); [repeat split |]. destruct (negb _); repeat split.
  - destruct (os_Stat (fs w) (FQN lom)) as [e | fi]; cbn [FQN set_exists md set_md].
    + destruct (negb _); repeat split.
    + destruct (negb _); repeat split.
Qed.

Lemma FromFS_success lom w m fi :
  getxattr (fs w) (FQN lom) = inr m ->
  os_Stat (fs w) (FQN lom) = inr fi ->
  md_size m = f_size fi ->
  FromFS lom w = (None, set_md (md_from_fs (md lom) m fi) (set_exists true lom), w).
Proof.
  intros Hx Hs Hsz. unfold FromFS, lmfs. cbn [FQN set_exists md].
  rewrite Hx. cbn [FQN set_exists md set_md]. rewrite Hs.
  cbn [populate_md md_size]. rewrite Hsz, Z.eqb_refl. reflexivity.
Qed.

Lemma FromFS_exists_inv lom w :
  (FromFS lom w).1.1 = None -> exists_ (FromFS lom w).1.2 = true ->
  exists m fi,
    getxattr (fs w) (FQN lom) = inr m /\ os_Stat (fs w) (FQN lom) = inr fi /\
    md_size m = f_size fi.
Proof.
  unfold FromFS, lmfs. cbn [FQN set_exists md].
  destruct (getxattr (fs w) (FQN lom)) as [e | m]; cbn [FQN set_exists md set_md].
  - destruct (_ && _); [cbn; discriminate |]. destruct (negb _); cbn; discriminate.
  - destruct (os_Stat (fs w) (FQN lom)) as [e | fi]; cbn [FQN set_exists md set_md].
    + destruct (negb _); cbn; discriminate.
    + cbn [populate_md md_size].
      destruct (Z.eqb_spec (md_size m) (f_size fi)); cbn [negb]; [| cbn; discriminate].
      intros _ _. by exists m, fi.
Qed.

(** X5: FromFS finds the object (no error, [exists]) exactly when its metadata
    record can be read, its file can be stat'ed and the recorded size is
    the size of the file; the LOM then takes the version, size, checksum
    and copies of the record and the access time of the file, and the
    world is left as it is. *)
Theorem FromFS_exists lom w :
  ((FromFS lom w).1.1 = None /\ exists_ (FromFS lom w).1.2 = true <->
   exists m fi,
     getxattr (fs w) (FQN lom) = inr m /\ os_Stat (fs w) (FQN lom) = inr fi /\
     md_size m = f_size fi) /\
  (forall m fi,
     getxattr (fs w) (FQN lom) = inr m -> os_Stat (fs w) (FQN lom) = inr fi ->
     md_size m = f_size fi ->
     FromFS lom w
     = (None, set_md (md_from_fs (md lom) m fi) (set_exists true lom), w)).
Proof.
  split; [split |].
  - intros [H1 H2]. by apply FromFS_exists_inv.
  - intros (m & fi & Hx & Hs & Hsz). by rewrite (FromFS_success lom w m fi).
  - apply FromFS_success.
Qed.

(** X6: FromFS calls the filesystem health check exactly when it reports an
    I/O error of the xattr read or of the stat other than not-exist, with
    that error and the path of the LOM, and the object is then marked as
    not existing; in every other case, a size mismatch included, the world
    is left as it is. *)
Theorem FromFS_fshc lom w :
  ((FromFS lom w).2 = w /\
   ((FromFS lom w).1.1 = None \/
    exists a b, (FromFS lom w).1.1 = Some (ErrSize a b))) \/
  (exists e,
     os_IsNotExist e = false /\
     ((FromFS lom w).1.1 = Some (ErrMeta e) \/ (FromFS lom w).1.1 = Some (ErrStat e)) /\
     (FromFS lom w).2 = FSHC e (FQN lom) w /\
     exists_ (FromFS lom w).1.2 = false).
Proof.
  unfold FromFS, lmfs. cbn [FQN set_exists md].
  destruct (getxattr (fs w) (FQN lom)) as [e | m]; cbn [FQN set_exists md set_md].
  - destruct (_ && _); [left; split; [reflexivity | by left] |].
    destruct (os_IsNotExist e) eqn:E; cbn [negb].
    + left; split; [reflexivity | by left].
    + right. exists e. split; [exact E |]. split; [by left |]. split; reflexivity.
  - destruct (os_Stat (fs w) (FQN lom)) as [e | fi]; cbn [FQN set_exists md set_md].
    + destruct (os_IsNotExist e) eqn:E; cbn [negb].
      * left; split; [reflexivity | by left].
      * right. exists e. split; [exact E |]. split; [by right |]. split; reflexivity.
    + destruct (negb _); left; (split; [reflexivity |]); [right; eauto | by left].
Qed.

(** The slow path of [Load], from the result of [FromFS]. *)
Lemma Load_slow_eq key add fromCache lom w :
  Load_slow key add fromCache lom w =
  let r := FromFS lom w in
  if is_nil r.1.1 && exists_ r.1.2 then
    let lom' := set_md (set_md_bckID (BID (BckProps r.1.2)) (md r.1.2)) r.1.2 in
    (fromCache, None, lom',
     if add then set_caches (<[key := md lom']> (caches r.2)) r.2 else r.2)
  else (fromCache, r.1.1, r.1.2, r.2).
Proof.
  unfold Load_slow. cbv zeta. destruct (FromFS lom w) as [[[e|] l1] w1]; cbn [fst snd is_nil andb].
  - reflexivity.
  - destruct (exists_ l1); [| reflexivity]. by destruct add.
Qed.

(** A LOM that is not in place takes its checksum from the metadata
    record on every Load that finds the object: its cached checksum is
    the stored one. *)
Lemma Load_not_in_place_cksum add lom w fromCache lom' w' :
  FQN lom <> HrwFQN lom ->
  Load add lom w = Ret (fromCache, None, lom', w') ->
  exists_ lom' = true ->
  exists m,
    getxattr (fs w') (FQN lom') = inr m /\ md_cksum (md lom') = md_cksum m.
Proof.
  intros Hne. unfold Load. cbv zeta.
  change (FQN (set_loaded true lom)) with (FQN lom).
  change (HrwFQN (set_loaded true lom)) with (HrwFQN lom).
  rewrite bool_decide_eq_false_2 by exact Hne.
  rewrite Load_slow_eq. cbv zeta.
  destruct (FromFS_frame (set_loaded true lom) w) as (Hfs & Hfqn & _).
  pose proof (FromFS_exists_inv (set_loaded true lom) w) as Hinv.
  pose proof (FromFS_success (set_loaded true lom) w) as Hok.
  destruct (FromFS (set_loaded true lom) w) as [[e l1] w1]. cbn [fst snd] in *.
  destruct (is_nil e && exists_ l1) eqn:E.
  - apply andb_true_iff in E as [E1 E2]. destruct e; [discriminate |].
    destruct (Hinv eq_refl E2) as (m & fi & Hx & Hs & Hsz).
    specialize (Hok m fi Hx Hs Hsz). inversion Hok; subst l1 w1.
    intros H _. inversion H; subst. exists m. split; [exact Hx | reflexivity].
  - intros H Hex. inversion H; subst. cbn [is_nil andb] in E. congruence.
Qed.

Lemma Load_slow_spec key add fromCache lom w :
  caches w !! key = None ->
  md_uname (md lom) = key.2 ->
  caches_wf w ->
  let r := Load_slow key add fromCache lom w in
  loaded r.1.2 = loaded lom /\ FQN r.1.2 = FQN lom /\ fs r.2 = fs w /\
  caches r.2 !! key
  = (if add && is_nil r.1.1.2 && exists_ r.1.2 then Some (md r.1.2) else None) /\
  (forall k, k <> key -> caches r.2 !! k = caches w !! k) /\
  caches_wf r.2.
Proof.
  intros Hk Hu Hwf. cbv zeta. rewrite Load_slow_eq. cbv zeta.
  destruct (FromFS_frame lom w) as (Hfs & Hfqn & _ & Hld & _ & Hun).
  pose proof (FromFS_caches lom w) as Hc.
  destruct (FromFS lom w) as [[e l1] w1]. cbn [fst snd] in *.
  destruct (is_nil e && exists_ l1) eqn:E; cbn [fst snd].
  - apply andb_true_iff in E as [E1 E2].
    destruct add; cbn [andb is_nil fst snd caches set_caches fs exists_ set_md loaded FQN md];
      (split; [exact Hld |]); (split; [exact Hfqn |]); (split; [exact Hfs |]).
    + rewrite E2. rewrite lookup_insert_eq. split; [reflexivity | split].
      * intros k Hne. rewrite lookup_insert_ne by done. by rewrite Hc.
      * intros k m. cbn [caches set_caches]. destruct (decide (k = key)) as [-> | Hne].
        -- rewrite lookup_insert_eq. intros [= <-]. cbn. congruence.
        -- rewrite lookup_insert_ne by done. rewrite Hc. apply Hwf.
    + rewrite Hc, Hk. split; [reflexivity | split; [reflexivity |]].
      intros k m. rewrite Hc. apply Hwf.
  - (split; [exact Hld |]); (split; [exact Hfqn |]); (split; [exact Hfs |]).
    rewrite Hc, Hk. split; [| split; [reflexivity |]].
    + destruct add; cbn [andb]; [| reflexivity].
      destruct e; cbn [is_nil andb] in *; [reflexivity | by rewrite E].
    + intros k m. rewrite Hc. apply Hwf.
Qed.

Lemma Load_slow_frame key add fromCache lom w :
  let r := Load_slow key add fromCache lom w in
  loaded r.1.2 = loaded lom /\ FQN r.1.2 = FQN lom /\ fs r.2 = fs w.
Proof.
  cbv zeta. rewrite Load_slow_eq. cbv zeta.
  destruct (FromFS_frame lom w) as (Hfs & Hfqn & _ & Hld & _ & _).
  destruct (FromFS lom w) as [[e l1] w1]. cbn [fst snd] in *.
  destruct (is_nil e && exists_ l1); [| done]. by destruct add.
Qed.

Lemma existsInBucket_cases lom w :
  FQN lom = HrwFQN lom ->
  (existsInBucket lom w = Ret (false, set_exists false lom, uncached lom w) /\
   exists_ lom = true) \/
  existsInBucket lom w = Ret (exists_ lom, lom, w).
Proof.
  intros Hin. unfold existsInBucket. destruct (_ && _) eqn:E; [left | by right].
  rewrite Uncache_in_place by exact Hin. split; [reflexivity |].
  apply andb_true_iff in E as [E _]. by apply andb_true_iff in E as [_ E].
Qed.

Lemma caches_wf_delete k w :
  caches_wf w -> caches_wf (set_caches (delete k (caches w)) w).
Proof.
  intros Hwf k' m. cbn [caches set_caches]. intros H.
  apply lookup_delete_Some in H as [_ H]. by apply Hwf.
Qed.

Lemma Load_result add lom w :
  exists fromCache err lom' w',
    Load add lom w = Ret (fromCache, err, lom', w') /\
    loaded lom' = true /\ FQN lom' = FQN lom /\ fs w' = fs w /\
    (FQN lom = HrwFQN lom -> caches_wf w ->
     caches w' !! cache_key lom
     = (if add && is_nil err && exists_ lom' then Some (md lom') else None) /\
     (forall k, k <> cache_key lom -> caches w' !! k = caches w !! k) /\
     caches_wf w').
Proof.
  unfold Load. cbv zeta.
  change (FQN (set_loaded true lom)) with (FQN lom).
  change (HrwFQN (set_loaded true lom)) with (HrwFQN lom).
  set (key := cache_key lom).
  assert (forall a fc l0 w0,
            loaded l0 = true -> FQN l0 = FQN lom -> fs w0 = fs w ->
            (FQN lom = HrwFQN lom -> caches_wf w ->
             caches w0 !! key = None /\ md_uname (md l0) = key.2 /\ caches_wf w0 /\
             (forall k, k <> key -> caches w0 !! k = caches w !! k) /\ a = add) ->
            exists fromCache err lom' w',
              Ret (Load_slow key a fc l0 w0) = Ret (fromCache, err, lom', w') /\
              loaded lom' = true /\ FQN lom' = FQN lom /\ fs w' = fs w /\
              (FQN lom = HrwFQN lom -> caches_wf w ->
               caches w' !! key
               = (if add && is_nil err && exists_ lom' then Some (md lom') else None) /\
               (forall k, k <> key -> caches w' !! k = caches w !! k) /\
               caches_wf w')) as Hslow.
  { intros a fc l0 w0 Hld Hfqn Hfs Hc.
    destruct (Load_slow_frame key a fc l0 w0) as (F1 & F2 & F3).
    pose proof (Load_slow_spec key a fc l0 w0) as S.
    destruct (Load_slow key a fc l0 w0) as [[[fc' err] lom'] w'].
    cbn [fst snd] in *. exists fc', err, lom', w'.
    split; [reflexivity |]. split; [congruence |]. split; [congruence |].
    split; [congruence |]. intros Hin Hwf.
    destruct (Hc Hin Hwf) as (C1 & C2 & C3 & C4 & ->).
    destruct (S C1 C2 C3) as (_ & _ & _ & S4 & S5 & S6).
    split; [exact S4 |]. split; [| exact S6].
    intros k Hk. rewrite S5 by exact Hk. by apply C4. }
  case_bool_decide as Hin.
  - destruct (caches w !! key) as [m |] eqn:Hm.
    + set (lom2 := set_md m (set_exists true (set_loaded true lom))).
      set (w2 := if negb add then set_caches (delete key (caches w)) w else w).
      assert (fs w2 = fs w) as Hfs2 by (unfold w2; by destruct add).
      assert (FQN lom2 = HrwFQN lom2) as Hin2 by exact Hin.
      destruct (existsInBucket_cases lom2 w2 Hin2) as [[-> _] | ->]; cbn [bind].
      * apply Hslow; [reflexivity | reflexivity | exact Hfs2 |].
        intros _ Hwf. pose proof (Hwf key m Hm) as Hu.
        assert (cache_key lom2 = key) as Hk2.
        { unfold key, cache_key, Hkey, lom2. cbn [md set_md parsedFQN set_exists set_loaded].
          rewrite Hu. reflexivity. }
        unfold uncached. rewrite Hk2. cbn [caches set_caches md set_exists].
        split; [apply lookup_delete_eq |]. split; [exact Hu |]. split; [| split; [| reflexivity]].
        -- apply caches_wf_delete. unfold w2. destruct add; cbn [negb]; [exact Hwf |].
           by apply caches_wf_delete.
        -- intros k Hk. rewrite lookup_delete_ne by done.
           unfold w2. destruct add; cbn [negb caches set_caches]; [reflexivity |].
           by rewrite lookup_delete_ne.
      * change (exists_ lom2) with true. cbv iota.
        exists true, None, lom2, w2. split; [reflexivity |].
        split; [reflexivity |]. split; [reflexivity |]. split; [exact Hfs2 |].
        intros _ Hwf. cbn [is_nil andb]. rewrite andb_true_r.
        change (exists_ lom2) with true. change (md lom2) with m. rewrite andb_true_r.
        unfold w2. destruct add; cbn [negb caches set_caches].
        -- split; [exact Hm |]. split; [reflexivity | exact Hwf].
        -- split; [apply lookup_delete_eq |]. split; [| by apply caches_wf_delete].
           intros k Hk. by rewrite lookup_delete_ne.
    + apply Hslow; try reflexivity. intros _ Hwf.
      split; [exact Hm |]. split; [reflexivity |]. split; [exact Hwf |].
      split; [reflexivity | reflexivity].
  - destruct (Hslow false false (set_loaded true lom) w eq_refl eq_refl eq_refl)
      as (fc & err & lom' & w' & H1 & H2 & H3 & H4 & _).
    { intros Hin'. contradiction. }
    exists fc, err, lom', w'. split; [exact H1 |]. split; [exact H2 |].
    split; [exact H3 |]. split; [exact H4 |]. intros Hin'. contradiction.
Qed.

(** X7: Load always returns: its only assertion, the one of Uncache, is
    reached on the fast path only, where the LOM is in place.  It marks
    the LOM as loaded, keeps its path and never writes to the filesystem. *)
Theorem Load_never_panics add lom w :
  exists fromCache err lom' w',
    Load add lom w = Ret (fromCache, err, lom', w') /\
    loaded lom' = true /\ FQN lom' = FQN lom /\ fs w' = fs w.
Proof.
  destruct (Load_result add lom w) as (fc & err & lom' & w' & H1 & H2 & H3 & H4 & _).
  exists fc, err, lom', w'. auto.
Qed.

(** X8: Load of a LOM in place, on caches whose entries sit at the key of
    their uname: afterwards the entry of the LOM holds the metadata of the
    LOM when [add] is set and the object was found without error, and is
    absent otherwise; the other entries are untouched and the caches are
    still well formed. *)
Theorem Load_cache_entry add lom w :
  FQN lom = HrwFQN lom ->
  caches_wf w ->
  exists fromCache err lom' w',
    Load add lom w = Ret (fromCache, err, lom', w') /\
    caches w' !! cache_key lom
    = (if add && is_nil err && exists_ lom' then Some (md lom') else None) /\
    (forall k, k <> cache_key lom -> caches w' !! k = caches w !! k) /\
    caches_wf w'.
Proof.
  intros Hin Hwf.
  destruct (Load_result add lom w) as (fc & err & lom' & w' & H1 & _ & _ & _ & H5).
  exists fc, err, lom', w'. split; [exact H1 | by apply H5].
Qed.

Lemma Load_cache_entry_witness :
  let lom := sample_lom sample_fqn (sample_md "1" None) in
  let w := sample_world "h" (Some (sample_md "2" (xx "h"))) in
  FQN lom = HrwFQN lom /\ caches_wf w /\
  exists fromCache err lom' w',
    Load true lom w = Ret (fromCache, err, lom', w') /\
    caches w' !! cache_key lom
    = (if true && is_nil err && exists_ lom' then Some (md lom') else None) /\
    (forall k, k <> cache_key lom -> caches w' !! k = caches w !! k) /\
    caches_wf w'.
Proof.
  cbv zeta. split; [reflexivity |].
  assert (caches_wf (sample_world "h" (Some (sample_md "2" (xx "h"))))) as Hwf
    by (apply (bool_decide_unpack _); vm_compute; exact I).
  split; [exact Hwf |].
  apply (Load_cache_entry true (sample_lom sample_fqn (sample_md "1" None))
           (sample_world "h" (Some (sample_md "2" (xx "h"))))); [reflexivity | exact Hwf].
Defined.

(** X9: An entry stored by ReCache is found by the next Load, provided the
    bucket of a local object exists under the bucket id of the LOM: Load
    returns from the cache without error, with the stored metadata, and
    leaves the filesystem and the health check alone; Load(false) takes
    the entry out of the cache. *)
Theorem ReCache_Load add lom w :
  FQN lom = HrwFQN lom ->
  (BckIsLocal lom = true ->
   bmd_Exists (bmd lom) (Bucket lom) (BID (BckProps lom)) true = true) ->
  exists lom1 w1,
    ReCache lom w = Ret (lom1, w1) /\
    IsLoaded lom w1 = true /\
    Load add lom1 w1
    = Ret (true, None,
           set_md (set_md_bckID (BID (BckProps lom)) (md lom)) (set_exists true lom1),
           if add then w1 else uncached lom w1).
Proof.
  intros Hin Hbck. unfold ReCache. rewrite bool_decide_eq_true_2 by exact Hin.
  cbn [Assert bind]. do 2 eexists. split; [reflexivity |]. split.
  { unfold IsLoaded. cbn [caches set_caches]. rewrite lookup_insert_eq.
    apply bool_decide_eq_true_2. eauto. }
  unfold Load. cbv zeta.
  change (cache_key (set_loaded true lom)) with (cache_key lom).
  change (FQN (set_loaded true (set_loaded true lom))) with (FQN lom).
  change (HrwFQN (set_loaded true (set_loaded true lom))) with (HrwFQN lom).
  rewrite bool_decide_eq_true_2 by exact Hin.
  cbn [caches set_caches]. rewrite lookup_insert_eq.
  unfold existsInBucket.
  cbn [BckIsLocal exists_ set_md set_exists set_loaded bmd Bucket md md_bckID set_md_bckID].
  destruct (BckIsLocal lom) eqn:Hloc.
  - rewrite Hbck by reflexivity. cbn [andb negb bind]. by destruct add.
  - cbn [andb negb bind]. by destruct add.
Qed.

Lemma ReCache_Load_witness :
  let lom := sample_lom sample_fqn (sample_md "1" None) in
  let w := mkWorld ∅ fs_empty [] in
  FQN lom = HrwFQN lom /\
  exists lom1 w1,
    ReCache lom w = Ret (lom1, w1) /\
    IsLoaded lom w1 = true /\
    Load false lom1 w1
    = Ret (true, None,
           set_md (set_md_bckID (BID (BckProps lom)) (md lom)) (set_exists true lom1),
           uncached lom w1).
Proof.
  cbv zeta. split; [reflexivity |].
  apply (ReCache_Load false (sample_lom sample_fqn (sample_md "1" None))
           (mkWorld ∅ fs_empty [])); reflexivity.
Defined.

Lemma FromFS_exists_witness :
  let lom := sample_lom sample_fqn (sample_md "1" None) in
  let w := sample_world "h" (Some (sample_md "2" (xx "h"))) in
  FromFS lom w
  = (None, set_md (md_from_fs (md lom) (sample_md "2" (xx "h")) (sample_file "h"))
             (set_exists true lom), w).
Proof.
  cbv zeta.
  apply (FromFS_exists (sample_lom sample_fqn (sample_md "1" None))
           (sample_world "h" (Some (sample_md "2" (xx "h"))))); reflexivity.
Defined.

(** X10: Exists after Load.  When the bucket id in the properties of a local
    LOM is the one of its bucket in the BMD, Exists after a Load that
    returned no error never trips an assertion: it returns the exists flag
    that Load has set and changes neither the LOM nor the world. *)
Theorem Load_then_Exists add lom w :
  (BckIsLocal lom = true ->
   bmd_Exists (bmd lom) (Bucket lom) (BID (BckProps lom)) true = true) ->
  exists fromCache err lom' w',
    Load add lom w = Ret (fromCache, err, lom', w') /\
    (err = None -> Exists lom' w' = Ret (exists_ lom', lom', w')).
Proof.
  intros Hbck.
  assert (forall l0 w0,
            loaded l0 = true ->
            (BckIsLocal l0 && exists_ l0
             && negb (bmd_Exists (bmd l0) (Bucket l0) (md_bckID (md l0)) (BckIsLocal l0))
             = false) ->
            Exists l0 w0 = Ret (exists_ l0, l0, w0)) as HE.
  { intros l0 w0 Hl Hc. unfold Exists, existsInBucket. by rewrite Hl, Hc. }
  assert (forall key a fc l0 w0,
            loaded l0 = true -> BckIsLocal l0 = BckIsLocal lom -> bmd l0 = bmd lom ->
            Bucket l0 = Bucket lom -> BckProps l0 = BckProps lom ->
            exists fromCache err lom' w',
              Ret (Load_slow key a fc l0 w0) = Ret (fromCache, err, lom', w') /\
              (err = None -> Exists lom' w' = Ret (exists_ lom', lom', w'))) as Hslow.
  { intros key a fc l0 w0 Hl H1 H2 H3 H4. rewrite Load_slow_eq. cbv zeta.
    destruct (FromFS_frame l0 w0) as (_ & _ & _ & Hld & Hbp & _).
    assert (BckIsLocal (FromFS l0 w0).1.2 = BckIsLocal l0 /\
            bmd (FromFS l0 w0).1.2 = bmd l0 /\
            Bucket (FromFS l0 w0).1.2 = Bucket l0) as (F1 & F2 & F3).
    { unfold FromFS, lmfs. cbn [FQN set_exists md].
      destruct (getxattr (fs w0) (FQN l0)) as [e | m]; cbn [FQN set_exists md set_md].
      - destruct (_ && _); [done |]. by destruct (negb _).
      - destruct (os_Stat (fs w0) (FQN l0)) as [e | fi]; cbn [FQN set_exists md set_md];
          by destruct (negb _). }
    destruct (FromFS l0 w0) as [[e l1] w1]. cbn [fst snd] in *.
    destruct (is_nil e && exists_ l1) eqn:E; do 4 eexists; (split; [reflexivity |]);
      intros He.
    - apply HE; [cbn; congruence |].
      cbn [BckIsLocal exists_ bmd Bucket md md_bckID set_md set_md_bckID].
      rewrite F1, F2, F3, Hbp, H1, H2, H3, H4.
      destruct (BckIsLocal lom) eqn:Hloc; [| reflexivity].
      rewrite Hbck by reflexivity. apply andb_false_r.
    - apply HE; [congruence |]. subst e. cbn [is_nil andb] in E. rewrite E.
      by rewrite andb_false_r. }
  unfold Load. cbv zeta.
  change (FQN (set_loaded true lom)) with (FQN lom).
  change (HrwFQN (set_loaded true lom)) with (HrwFQN lom).
  case_bool_decide as Hin; [| by apply Hslow].
  destruct (caches w !! cache_key lom) as [m |] eqn:Hm; [| by apply Hslow].
  set (lom2 := set_md m (set_exists true (set_loaded true lom))).
  set (w2 := if negb add then _ else w).
  unfold existsInBucket.
  destruct (BckIsLocal lom2 && exists_ lom2
            && negb (bmd_Exists (bmd lom2) (Bucket lom2) (md_bckID (md lom2))
                       (BckIsLocal lom2))) eqn:E.
  - rewrite Uncache_in_place by exact Hin. cbn [bind]. by apply Hslow.
  - cbn [bind]. change (exists_ lom2) with true. cbv iota.
    do 4 eexists. split; [reflexivity |]. intros _. by apply HE.
Qed.

Lemma Load_then_Exists_witness :
  let lom := sample_lom sample_fqn (sample_md "1" None) in
  let w := sample_world "h" (Some (sample_md "2" (xx "h"))) in
  exists fromCache err lom' w',
    Load true lom w = Ret (fromCache, err, lom', w') /\
    (err = None -> Exists lom' w' = Ret (exists_ lom', lom', w')).
Proof.
  cbv zeta.
  apply (Load_then_Exists true (sample_lom sample_fqn (sample_md "1" None))
           (sample_world "h" (Some (sample_md "2" (xx "h"))))).
  reflexivity.
Defined.

(** X11: The access time survives an eviction: once flushAtime has written the
    access time of an entry to the file of the object, FromFS reads it
    back as the access time of the LOM and as the one on the filesystem. *)
Theorem flushAtime_then_FromFS lom a w m fi :
  files (fs w) !! FQN lom = Some fi ->
  stat_fault (fs w) !! FQN lom = None ->
  chtimes_fault (fs w) !! FQN lom = None ->
  getxattr (fs w) (FQN lom) = inr m ->
  md_size m = f_size fi ->
  exists lom',
    FromFS lom (flushAtime lom a w) = (None, lom', flushAtime lom a w) /\
    exists_ lom' = true /\ md_atime (md lom') = a /\ md_atimefs (md lom') = a /\
    md_size (md lom') = f_size fi.
Proof.
  intros Hf Hst Hch Hx Hsz.
  pose proof (flushAtime_file lom a w fi Hf Hst Hch) as Hfile.
  assert (getxattr (fs (flushAtime lom a w)) (FQN lom) = inr m /\
          stat_fault (fs (flushAtime lom a w)) = stat_fault (fs w)) as [Hx' Hst'].
  { unfold flushAtime, os_Stat, os_Chtimes. rewrite Hst, Hf, Hch. cbn [fs set_fs].
    split; [| reflexivity]. revert Hx. unfold getxattr. cbn [getxattr_fault files xattrs].
    destruct (getxattr_fault (fs w) !! FQN lom); [done |].
    rewrite Hf, lookup_insert_eq. done. }
  assert (os_Stat (fs (flushAtime lom a w)) (FQN lom)
          = inr (mkFile (f_size fi) a (f_mtime fi) (f_xxhash fi))) as Hs'.
  { unfold os_Stat. by rewrite Hst', Hst, Hfile. }
  eexists. split.
  - apply (FromFS_success lom _ m _ Hx' Hs'). exact Hsz.
  - cbn. by rewrite Hsz.
Qed.

Lemma flushAtime_then_FromFS_witness :
  let lom := sample_lom sample_fqn (sample_md "1" None) in
  let w := sample_world "h" (Some (sample_md "2" (xx "h"))) in
  exists lom',
    FromFS lom (flushAtime lom 777 w) = (None, lom', flushAtime lom 777 w) /\
    exists_ lom' = true /\ md_atime (md lom') = 777 /\ md_atimefs (md lom') = 777 /\
    md_size (md lom') = f_size (sample_file "h").
Proof.
  cbv zeta.
  apply (flushAtime_then_FromFS (sample_lom sample_fqn (sample_md "1" None)) 777
           (sample_world "h" (Some (sample_md "2" (xx "h"))))
           (sample_md "2" (xx "h")) (sample_file "h")); reflexivity.
Defined.

(** ** Evicting a bucket *)

Lemma reached_lomCaches T key : reached T key <-> key.1 ∈ lomCaches T.
Proof.
  destruct key as [[mp idx] u]. unfold reached. cbn [fst snd].
  by rewrite elem_of_lomCaches.
Qed.

(** Deleting from a map the keys of a list that satisfy [P]. *)
Lemma lookup_foldl_delete {V} (P : string * Z * string -> bool)
    (l : list (string * Z * string * V)) :
  forall (c : gmap (string * Z * string) V) k,
    foldl (fun cc kv => if P kv.1 then delete kv.1 cc else cc) c l !! k
    = if bool_decide (k ∈ l.*1 /\ P k = true) then None else c !! k.
Proof.
  induction l as [| [k0 v0] l IH]; intros c k; cbn [foldl fmap list_fmap fst].
  - rewrite bool_decide_eq_false_2; [reflexivity |]. intros [H _]. by apply elem_of_nil in H.
  - rewrite IH. destruct (P k0) eqn:E.
    + destruct (decide (k = k0)) as [-> | Hne].
      * rewrite lookup_delete_eq.
        rewrite (bool_decide_eq_true_2 (k0 ∈ k0 :: l.*1 /\ _));
          [by case_bool_decide | split; [apply list_elem_of_here | exact E]].
      * rewrite lookup_delete_ne by done.
        repeat case_bool_decide; try reflexivity; exfalso; set_unfold; intuition congruence.
    + repeat case_bool_decide; try reflexivity; exfalso; set_unfold; intuition congruence.
Qed.

Lemma Range_fevict T bucket l : forall w,
  Range (fevict T bucket) l w
  = set_caches
      (foldl (fun cc kv =>
                if bool_decide ((Uname2Bo T kv.1.2).1 = bucket)
                then delete kv.1 cc else cc) (caches w) l) w.
Proof.
  induction l as [| [k v] l IH]; intros w; cbn [Range foldl fst].
  - by destruct w.
  - unfold fevict at 1. destruct (Uname2Bo T k.2) as [b o] eqn:E. cbn [fst].
    rewrite IH. case_bool_decide as H1; case_bool_decide as H2; try congruence;
      reflexivity.
Qed.

Lemma elem_of_stripe_keys (s : string * Z) (c : gmap (string * Z * string) lmeta) k :
  k ∈ (map_to_list (stripe s c)).*1 <-> is_Some (c !! k) /\ k.1 = s.
Proof.
  rewrite list_elem_of_fmap. split.
  - intros ([k' m] & -> & H). apply elem_of_map_to_list in H.
    apply map_lookup_filter_Some in H as [H Hs]. split; [by exists m | exact Hs].
  - intros [[m H] Hs]. exists (k, m). split; [reflexivity |].
    apply elem_of_map_to_list. apply map_lookup_filter_Some. by split.
Qed.

Lemma EvictCache_on T bucket (ss : list (string * Z)) : forall w,
  let w' := foldl (fun w cache =>
                     Range (fevict T bucket)
                           (map_to_list (stripe cache (caches w))) w) w ss in
  (forall k, caches w' !! k
     = if bool_decide (k.1 ∈ ss /\ (Uname2Bo T k.2).1 = bucket)
       then None else caches w !! k) /\
  fs w' = fs w /\ fshc w' = fshc w.
Proof.
  induction ss as [| s ss IH]; intros w; cbv zeta; cbn [foldl].
  - split; [| done]. intros k. rewrite bool_decide_eq_false_2; [reflexivity |].
    intros [H _]. by apply elem_of_nil in H.
  - destruct (IH (Range (fevict T bucket) (map_to_list (stripe s (caches w))) w))
      as (Hc & Hfs & Hfshc).
    rewrite Range_fevict in Hc, Hfs, Hfshc |- *. cbn [caches set_caches fs fshc] in *.
    split; [| done]. intros k. rewrite Hc.
    pose proof (lookup_foldl_delete
                  (fun k0 => bool_decide ((Uname2Bo T k0.2).1 = bucket))
                  (map_to_list (stripe s (caches w))) (caches w)) as HL.
    cbv beta in HL. rewrite HL. clear HL.
    pose proof (elem_of_stripe_keys s (caches w) k) as Hk.
    destruct (caches w !! k) as [m |] eqn:E.
    + assert (is_Some (Some m)) by eauto.
      repeat case_bool_decide; try reflexivity; exfalso; set_unfold;
        rewrite ?bool_decide_eq_true in *; intuition congruence.
    + by repeat case_bool_decide.
Qed.

(** X12: EvictCache deletes the entries of the bucket that are cached on an
    available mountpath, keeps every other entry, and touches neither the
    filesystem nor the health check. *)
Theorem EvictCache_spec T bucket w :
  caches (EvictCache T bucket w)
  = filter (fun kv => ~ evicted_bucket T bucket kv) (caches w) /\
  fs (EvictCache T bucket w) = fs w /\
  fshc (EvictCache T bucket w) = fshc w.
Proof.
  unfold EvictCache.
  destruct (EvictCache_on T bucket (lomCaches T) w) as (Hc & Hfs & Hfshc).
  split; [| done]. apply map_eq. intros k. rewrite Hc.
  pose proof (reached_lomCaches T k) as Hr.
  destruct (caches w !! k) as [m |] eqn:E.
  - case_bool_decide as H.
    + symmetry. apply map_lookup_filter_None. right. intros m' _ Hn. apply Hn.
      unfold evicted_bucket. cbn [fst]. tauto.
    + symmetry. apply map_lookup_filter_Some. split; [exact E |].
      unfold evicted_bucket. cbn [fst]. tauto.
  - case_bool_decide; symmetry; apply map_lookup_filter_None; by left.
Qed.

(** ** The cache runner: more on one tick *)

(** The stripe of a LOM's key is one of the stripes of its mountpath. *)
Lemma Hkey_stripe lom : 0 <= (Hkey lom).2 <= LomCacheMask.
Proof.
  unfold Hkey, LomCacheMask. cbn [snd].
  change 63 with (Z.ones 6). rewrite Z.land_ones by lia.
  pose proof (Z.mod_pos_bound (Digest (parsedFQN lom)) (2 ^ 6)).
  change (Z.ones 6) with (2 ^ 6 - 1). lia.
Qed.

Lemma cache_key_reached T lom :
  MpathInfo (parsedFQN lom) ∈ availablePaths T -> reached T (cache_key lom).
Proof.
  intros Hmp. unfold reached, cache_key. pose proof (Hkey_stripe lom) as H.
  destruct (Hkey lom) as [hkey idx]. cbn [fst snd] in *. by split.
Qed.

Lemma work_caches T now d w :
  Int.min_int64 < d <= Int.max_int64 ->
  caches (work T false now d w).2
  = filter (fun kv => ~ (reached T kv.1 /\ fresh now d kv.2 = false)) (caches w).
Proof.
  intros Hd. unfold work.
  assert (H0 : tally_ok (mkTally 0 0)) by (split; simpl; lia).
  destruct (work_on_spec T (GetBMD T) now d (lomCaches T) Hd
              (NoDup_lomCaches T) w (mkTally 0 0) H0) as (H1 & _).
  unfold work_on in H1.
  destruct (foldl _ (w, mkTally 0 0) (lomCaches T)) as [w' c'].
  cbn [fst snd] in *. rewrite H1.
  apply map_filter_ext. intros k m _. unfold visited_old. cbn [fst snd].
  by rewrite reached_lomCaches.
Qed.

(** X13: An entry stored by ReCache on an available mountpath is reached by
    the next tick of the runner: it is kept when the LOM was accessed less
    than the eviction age of the memory pressure ago, and evicted
    otherwise. *)
Theorem ReCache_then_work T p now lom w :
  FQN lom = HrwFQN lom ->
  MpathInfo (parsedFQN lom) ∈ availablePaths T ->
  exists lom1 w1,
    ReCache lom w = Ret (lom1, w1) /\
    caches (work T false now (evictAtime p) w1).2 !! cache_key lom
    = if now - md_atime (md lom) <? evictAtime p
      then Some (set_md_bckID (BID (BckProps lom)) (md lom)) else None.
Proof.
  intros Hin Hmp. unfold ReCache. rewrite bool_decide_eq_true_2 by exact Hin.
  cbn [Assert bind]. do 2 eexists. split; [reflexivity |].
  rewrite work_caches by apply evictAtime_range. cbn [caches set_caches].
  pose proof (cache_key_reached T lom Hmp) as Hr.
  destruct (now - md_atime (md lom) <? evictAtime p) eqn:E.
  - apply map_lookup_filter_Some. split; [apply lookup_insert_eq |].
    cbn [fst snd]. unfold fresh. cbn [md_atime set_md_bckID]. intros [_ H]. congruence.
  - apply map_lookup_filter_None. right. intros m Hm Hn.
    rewrite lookup_insert_eq in Hm. injection Hm as <-. apply Hn.
    split; [exact Hr |]. exact E.
Qed.

Lemma ReCache_then_work_witness :
  let lom := sample_lom sample_fqn (sample_md "1" None) in
  let w := mkWorld ∅ fs_empty [] in
  FQN lom = HrwFQN lom /\
  MpathInfo (parsedFQN lom) ∈ availablePaths sample_target /\
  exists lom1 w1,
    ReCache lom w = Ret (lom1, w1) /\
    caches (work sample_target false two_hours (evictAtime OOM) w1).2 !! cache_key lom
    = None.
Proof.
  cbv zeta. split; [reflexivity |]. split; [vm_compute; reflexivity |].
  apply (ReCache_then_work sample_target OOM two_hours
           (sample_lom sample_fqn (sample_md "1" None)) (mkWorld ∅ fs_empty []));
    [reflexivity | vm_compute; reflexivity].
Defined.

(** X14: The higher the memory pressure, the more is evicted: an entry that
    survives a tick under one eviction age survives it under any longer
    one. *)
Theorem work_pressure_monotone T now d d' w :
  Int.min_int64 < d <= Int.max_int64 ->
  Int.min_int64 < d' <= Int.max_int64 ->
  d <= d' ->
  caches (work T false now d w).2 ⊆ caches (work T false now d' w).2.
Proof.
  intros Hd Hd' Hle. rewrite !work_caches by assumption.
  apply map_subseteq_spec. intros k m. rewrite !map_lookup_filter_Some.
  intros [Hk Hkeep]. split; [exact Hk |]. intros [Hr Hold]. apply Hkeep.
  split; [exact Hr |]. unfold fresh in *. cbn [snd] in *.
  apply Z.ltb_ge in Hold. apply Z.ltb_ge. lia.
Qed.

Lemma work_pressure_monotone_witness :
  caches (work sample_target false two_hours (evictAtime OOM) sample_cached_world).2
  ⊆ caches (work sample_target false two_hours (evictAtime MemPressureNormal)
              sample_cached_world).2.
Proof.
  apply (work_pressure_monotone sample_target two_hours (evictAtime OOM)
           (evictAtime MemPressureNormal) sample_cached_world);
    vm_compute; (split; congruence) || congruence.
Defined.

Lemma Range_stopping T b now d l st :
  Range (feviat T true b now d) l st = st.
Proof. destruct l as [| [k m] l]; reflexivity. Qed.

(** X15: A runner that is stopping evicts nothing: the callback returns at
    once and each walk ends at its first entry, so that work returns
    (0, 0) and leaves the world as it is. *)
Theorem work_stopping T now d w : work T true now d w = (0, 0, w).
Proof.
  unfold work.
  assert (forall ss st,
            foldl (fun st cache =>
                     Range (feviat T true (GetBMD T) now d)
                           (map_to_list (stripe cache (caches st.1))) st) st ss = st) as H.
  { induction ss as [| s ss IH]; intros st; cbn [foldl]; [reflexivity |].
    by rewrite Range_stopping. }
  by rewrite H.
Qed.

(** The stripes of a list without duplicates hold no more entries than the
    caches. *)
Lemma sum_stripes (c : gmap (string * Z * string) lmeta) (ss : list (string * Z)) :
  NoDup ss ->
  sum_list_with (fun s => size (stripe s c)) ss
  = size (filter (fun kv : string * Z * string * lmeta => kv.1.1 ∈ ss) c).
Proof.
  induction 1 as [| s ss Hs Hnd IH]; cbn [sum_list_with].
  - symmetry. apply map_size_empty_iff. apply map_empty_filter_2.
    intros k m _ H. by apply elem_of_nil in H.
  - rewrite IH.
    assert (filter (fun kv : string * Z * string * lmeta => kv.1.1 ∈ s :: ss) c
            = filter (fun kv => in_stripe s kv.1 \/ kv.1.1 ∈ ss) c) as ->.
    { apply map_filter_ext. intros k m _. cbn [fst]. unfold in_stripe.
      rewrite elem_of_cons. tauto. }
    rewrite map_filter_or. rewrite map_size_disj_union; [reflexivity |].
    apply map_disjoint_spec. intros k m1 m2 H1 H2.
    apply map_lookup_filter_Some in H1 as [_ H1].
    apply map_lookup_filter_Some in H2 as [_ H2].
    unfold in_stripe in H1. cbn [fst] in *. congruence.
Qed.

Lemma sum_old_le (now d : Z) (c : gmap (string * Z * string) lmeta) (ss : list (string * Z)) :
  (sum_list_with (fun s => size (filter (old_entry now d) (stripe s c))) ss
   <= sum_list_with (fun s => size (stripe s c)) ss)%nat.
Proof.
  induction ss as [| s ss IH]; cbn [sum_list_with]; [lia |].
  pose proof (map_size_filter (old_entry now d) (stripe s c)). lia.
Qed.

Lemma work_counts T now d w :
  Int.min_int64 < d <= Int.max_int64 ->
  Z.of_nat (size (caches w)) < 2 ^ 32 ->
  0 <= (work T false now d w).1.1 <= (work T false now d w).1.2 /\
  (work T false now d w).1.2 <= Z.of_nat (size (caches w)).
Proof.
  intros Hd Hsz. unfold work.
  assert (H0 : tally_ok (mkTally 0 0)) by (split; simpl; lia).
  destruct (work_on_spec T (GetBMD T) now d (lomCaches T) Hd
              (NoDup_lomCaches T) w (mkTally 0 0) H0) as (_ & _ & _ & Ht & He).
  unfold work_on in Ht, He.
  destruct (foldl _ (w, mkTally 0 0) (lomCaches T)) as [w' c'].
  cbn [fst snd evicted total] in *.
  pose proof (sum_old_le now d (caches w) (lomCaches T)) as Hle.
  assert (sum_list_with (fun s => size (stripe s (caches w))) (lomCaches T)
          <= size (caches w))%nat as Hle2.
  { rewrite sum_stripes by apply NoDup_lomCaches. apply map_size_filter. }
  rewrite wrap_u32_small in Ht, He by lia. lia.
Qed.

(** X16: The assertion [total >= evicted] of Run holds on every tick, as long
    as the caches hold fewer than 2^32 entries (the two counters are
    32-bit): the tick returns, and it has logged the normal interval when
    fewer than [minev] entries were evicted and the interval of the
    current memory pressure otherwise. *)
Theorem Run_tick_returns T p1 p2 now r w :
  Z.of_nat (size (caches w)) < 2 ^ 32 ->
  exists d r' w',
    Run_tick T p1 p2 now r w = Ret (d, r', w') /\
    stopped r' = stopped r /\
    w' = (work T (stopped r) now (evictAtime p1) w).2 /\
    (d = mpnTimeIntval \/ d = timeIntval p2).
Proof.
  intros Hsz. unfold Run_tick.
  assert (let r0 := work T (stopped r) now (evictAtime p1) w in r0.1.1 <= r0.1.2) as Hle.
  { cbv zeta. destruct (stopped r).
    - rewrite work_stopping. cbn. lia.
    - apply work_counts; [apply evictAtime_range | exact Hsz]. }
  cbv zeta in Hle.
  destruct (work T (stopped r) now (evictAtime p1) w) as [[ev tot] w1].
  cbn [fst snd] in *.
  replace (tot >=? ev) with true by (symmetry; apply Z.geb_le; lia).
  destruct (ev <? minev); cbn [Assert bind]; do 3 eexists;
    (split; [reflexivity |]); (split; [reflexivity |]); (split; [reflexivity |]);
    [by left | by right].
Qed.

Lemma Run_tick_returns_witness :
  Z.of_nat (size (caches sample_cached_world)) < 2 ^ 32 /\
  exists d r' w',
    Run_tick sample_target MemPressureHigh MemPressureNormal two_hours
      (mkRunner false None) sample_cached_world = Ret (d, r', w') /\
    stopped r' = false /\
    w' = (work sample_target false two_hours (evictAtime MemPressureHigh)
            sample_cached_world).2 /\
    (d = mpnTimeIntval \/ d = timeIntval MemPressureNormal).
Proof.
  split; [vm_compute; reflexivity |].
  apply (Run_tick_returns sample_target MemPressureHigh MemPressureNormal two_hours
           (mkRunner false None) sample_cached_world).
  vm_compute. reflexivity.
Defined.

(** ** Versions and checksums: what the next call sees *)

(** X17: The version that IncObjectVersion returns can always be incremented
    again: it is never empty and strconv.Atoi accepts it, also after the
    wrap-around at the largest int.  With an error the version is empty. *)
Theorem IncObjectVersion_parseable lom w :
  match IncObjectVersion lom w with
  | (v, None) => v <> "" /\ exists n, Strconv.Atoi v = inr n
  | (v, Some _) => v = ""
  end.
Proof.
  assert (forall n, Int.in_int64 n ->
            Strconv.FormatInt n <> "" /\ exists k, Strconv.Atoi (Strconv.FormatInt n) = inr k)
    as Hfmt.
  { intros n Hn. pose proof (Atoi_FormatInt n Hn) as H. split; [| eauto].
    intros E. rewrite E, Atoi_empty in H. discriminate. }
  unfold IncObjectVersion, initialVersion.
  destruct (exists_ lom); cbn [negb]; [| split; [discriminate | by exists 1]].
  rewrite lmfs_false. destruct (getxattr (fs w) (FQN lom)) as [e | m]; [reflexivity |].
  case_bool_decide; [split; [discriminate | by exists 1] |].
  destruct (Strconv.Atoi (md_version m)) as [e | n]; [reflexivity |].
  apply Hfmt, wrap64_range.
Qed.

Lemma CksumConf_Type_set_md m lom : CksumConf_Type (set_md m lom) = CksumConf_Type lom.
Proof. reflexivity. Qed.

(** X18: After ValidateDiskChecksum has returned without error, with checksums
    enabled, the object has the xxhash of its file for checksum:
    CksumComputeIfMissing returns it without error. *)
Theorem CksumComputeIfMissing_validated lom w lom' w' :
  CksumConf_Type lom <> ChecksumNone ->
  ValidateDiskChecksum lom w = Ret (None, lom', w') ->
  exists h,
    computeXXHash w (FQN lom) = (h, None) /\
    CksumComputeIfMissing lom' w' = (NewCksum ChecksumXXHash h, None).
Proof.
  intros Hty. unfold ValidateDiskChecksum.
  rewrite bool_decide_eq_false_2 by exact Hty.
  destruct (storedCksum_of lom) as [s |] eqn:Hs; cbn [bind]; [| discriminate].
  case_bool_decide as Hxx; cbn [Assert bind]; [| discriminate].
  destruct (computeXXHash w (FQN lom)) as [h [e |]] eqn:Hh; [discriminate |].
  exists h. split; [reflexivity |].
  case_bool_decide as Hempty.
  - subst s. apply storedCksum_of_empty in Hs.
    destruct (Persist _ w) as [[err |] w1] eqn:HP; [discriminate |].
    apply Persist_ok in HP as (f' & HP & ->).
    apply setxattr_inr in HP as (-> & _ & _).
    destruct (ReCache _ _) as [[lom2 w2] |] eqn:HR; cbn [bind] in H; [| discriminate].
    apply ReCache_inr in HR as (_ & -> & ->).
    injection H as <- <-.
    unfold CksumComputeIfMissing.
    change (CksumConf_Type (set_loaded true (set_md _ lom))) with (CksumConf_Type lom).
    rewrite bool_decide_eq_false_2 by exact Hty.
    cbn [md set_loaded set_md md_cksum set_md_cksum FQN].
    rewrite Hxx. destruct (NewCksum ChecksumXXHash h) eqn:HN; [reflexivity |].
    rewrite (computeXXHash_files w _ (FQN lom)) by reflexivity.
    by rewrite Hh, HN.
  - destruct (EqCksum (md_cksum (md lom)) (NewCksum (CksumConf_Type lom) h)) eqn:HE;
      cbn [negb] in H.
    + injection H as <- <-. apply EqCksum_true in HE as (c & Hc & HN).
      unfold CksumComputeIfMissing. rewrite bool_decide_eq_false_2 by exact Hty.
      rewrite Hc. by rewrite <- Hxx, HN.
    + destruct (Uncache _ w); cbn [bind] in H; discriminate.
Qed.

(** The first validation of an object without a checksum computes the
    checksum of the file, and CksumComputeIfMissing then returns it. *)
Lemma CksumComputeIfMissing_validated_witness :
  let lom := sample_lom sample_fqn (sample_md "1" None) in
  let w := sample_world "h" (Some (sample_md "1" None)) in
  CksumConf_Type lom <> ChecksumNone /\
  exists lom' w',
    ValidateDiskChecksum lom w = Ret (None, lom', w') /\
    exists h,
      computeXXHash w (FQN lom) = (h, None) /\
      CksumComputeIfMissing lom' w' = (NewCksum ChecksumXXHash h, None).
Proof.
  cbv zeta. split; [discriminate |]. do 2 eexists. split; [vm_compute; reflexivity |].
  eapply (CksumComputeIfMissing_validated (sample_lom sample_fqn (sample_md "1" None))
            (sample_world "h" (Some (sample_md "1" None))));
    [discriminate | vm_compute; reflexivity].
Defined.

(** ** Disk metrics *)

Lemma length_append (a b : string) :
  String.length (a ++ b) = (String.length a + String.length b)%nat.
Proof. induction a as [| c a IH]; simpl; [reflexivity | by rewrite IH]. Qed.

Lemma drop_string_app (a t : string) (n : nat) :
  drop_string (String.length a + n) (a ++ t) = drop_string n t.
Proof. induction a as [| c a IH]; simpl; [reflexivity | exact IH]. Qed.

(** The last [k] characters of a string. *)
Lemma last_chars_app (k : nat) (a t : string) :
  (k <= String.length t)%nat ->
  drop_string (String.length (a ++ t) - k) (a ++ t)
  = drop_string (String.length t - k) t.
Proof.
  intros Hk. rewrite length_append.
  replace (String.length a + String.length t - k)%nat
    with (String.length a + (String.length t - k))%nat by lia.
  apply drop_string_app.
Qed.

Lemma HasSuffix_app (a t suf : string) :
  (String.length suf <= String.length t)%nat ->
  HasSuffix (a ++ t) suf = HasSuffix t suf.
Proof.
  intros Hk. unfold HasSuffix. rewrite last_chars_app by exact Hk.
  rewrite length_append.
  destruct (Nat.leb_spec (String.length suf) (String.length t)); [| lia].
  destruct (Nat.leb_spec (String.length suf) (String.length a + String.length t));
    [reflexivity | lia].
Qed.

Lemma append_inj_r (t a b : string) : a ++ t = b ++ t -> a = b.
Proof.
  revert b. induction a as [| c a IH]; intros [| c' b] H.
  - reflexivity.
  - exfalso. apply (f_equal String.length) in H. simpl in H.
    rewrite !length_append in H. simpl in H. lia.
  - exfalso. apply (f_equal String.length) in H. simpl in H.
    rewrite !length_append in H. simpl in H. lia.
  - simpl in H. injection H as -> H. f_equal. by apply IH.
Qed.

Lemma _dmetric_app disk metric :
  _dmetric disk metric = ("disk." ++ disk) ++ ("." ++ metric).
Proof. reflexivity. Qed.

Lemma _dmetric_inj disk1 disk2 metric :
  _dmetric disk1 metric = _dmetric disk2 metric -> disk1 = disk2.
Proof.
  rewrite !_dmetric_app. intros H. apply append_inj_r in H.
  cbn in H. by injection H.
Qed.

(** The last five characters tell the five metrics apart. *)
Lemma _dmetric_last5 disk metric :
  (5 <= String.length ("." ++ metric))%nat ->
  drop_string (String.length (_dmetric disk metric) - 5) (_dmetric disk metric)
  = drop_string (String.length ("." ++ metric) - 5) ("." ++ metric).
Proof. intros H. rewrite _dmetric_app. by apply last_chars_app. Qed.

Lemma disk_metric_names_inv disk n :
  n ∈ disk_metric_names disk ->
  exists metric,
    n = _dmetric disk metric /\
    metric ∈ ["read.bps"; "avg.rsize"; "write.bps"; "avg.wsize"; "util"].
Proof.
  unfold disk_metric_names. intros H. set_unfold.
  destruct H as [-> | [-> | [-> | [-> | [-> | []]]]]]; eexists; (split; [reflexivity |]);
    set_unfold; tauto.
Qed.

Lemma _dmetric_last5_neq disk1 disk2 m1 m2 :
  (5 <= String.length ("." ++ m1))%nat ->
  (5 <= String.length ("." ++ m2))%nat ->
  drop_string (String.length ("." ++ m1) - 5) ("." ++ m1)
  <> drop_string (String.length ("." ++ m2) - 5) ("." ++ m2) ->
  _dmetric disk1 m1 <> _dmetric disk2 m2.
Proof.
  intros H1 H2 Hne H. apply Hne.
  rewrite <- (_dmetric_last5 disk1 m1 H1), <- (_dmetric_last5 disk2 m2 H2).
  by rewrite H.
Qed.

Lemma _dmetric_metric_inj disk1 disk2 m1 m2 :
  m1 ∈ ["read.bps"; "avg.rsize"; "write.bps"; "avg.wsize"; "util"] ->
  m2 ∈ ["read.bps"; "avg.rsize"; "write.bps"; "avg.wsize"; "util"] ->
  _dmetric disk1 m1 = _dmetric disk2 m2 -> m1 = m2.
Proof.
  intros H1 H2. set_unfold.
  destruct H1 as [-> | [-> | [-> | [-> | [-> | []]]]]];
    destruct H2 as [-> | [-> | [-> | [-> | [-> | []]]]]]; try reflexivity;
    intros H; exfalso; revert H;
    (apply _dmetric_last5_neq; [simpl; lia | simpl; lia | simpl; discriminate]).
Qed.

(** X19: The names of the disk metrics never collide: the five metrics of a
    disk have five different names, and a name of one disk is the name of
    no metric of another disk. *)
Theorem disk_metric_names_distinct :
  (forall disk, NoDup (disk_metric_names disk)) /\
  (forall disk1 disk2 n,
     n ∈ disk_metric_names disk1 -> n ∈ disk_metric_names disk2 -> disk1 = disk2).
Proof.
  split.
  - intros disk.
    assert (forall m1 m2,
              m1 ∈ ["read.bps"; "avg.rsize"; "write.bps"; "avg.wsize"; "util"] ->
              m2 ∈ ["read.bps"; "avg.rsize"; "write.bps"; "avg.wsize"; "util"] ->
              m1 <> m2 -> _dmetric disk m1 <> _dmetric disk m2) as Hne.
    { intros m1 m2 H1 H2 Hm H. apply Hm. by apply (_dmetric_metric_inj disk disk). }
    unfold disk_metric_names, nameRbps, nameRavg, nameWbps, nameWavg, nameUtil.
    repeat (apply NoDup_cons; split;
            [set_unfold; intros Hin;
             repeat destruct Hin as [Hin | Hin]; try done;
             revert Hin; apply Hne; set_unfold; (tauto || discriminate) |]).
    apply NoDup_nil_2.
  - intros disk1 disk2 n H1 H2.
    apply disk_metric_names_inv in H1 as (m1 & -> & Hm1).
    apply disk_metric_names_inv in H2 as (m2 & E & Hm2).
    pose proof (_dmetric_metric_inj disk1 disk2 m1 m2 Hm1 Hm2 E) as ->.
    by apply (_dmetric_inj disk1 disk2 m2).
Qed.

(** X20: Every metric of a disk is a disk metric, and only its utilization is a
    disk-utilization metric, whatever the name of the disk. *)
Theorem disk_metric_classes disk :
  (forall n, n ∈ disk_metric_names disk -> isDiskMetric n = true) /\
  (forall n, n ∈ disk_metric_names disk ->
     isDiskUtilMetric n = bool_decide (n = nameUtil disk)).
Proof.
  assert (forall metric, isDiskMetric (_dmetric disk metric) = true) as Hd
    by (intros metric; destruct disk; reflexivity).
  split.
  - intros n H. apply disk_metric_names_inv in H as (m & -> & _). apply Hd.
  - intros n H. apply disk_metric_names_inv in H as (m & -> & Hm).
    unfold isDiskUtilMetric. rewrite Hd. cbn [andb].
    unfold nameUtil.
    assert (HasSuffix (_dmetric disk m) ".util" = HasSuffix ("." ++ m) ".util") as ->.
    { rewrite _dmetric_app. apply HasSuffix_app. set_unfold.
      destruct Hm as [-> | [-> | [-> | [-> | [-> | []]]]]]; simpl; lia. }
    case_bool_decide as E.
    + apply (_dmetric_metric_inj disk disk) in E; [subst m; reflexivity | exact Hm |].
      set_unfold; tauto.
    + set_unfold.
      destruct Hm as [-> | [-> | [-> | [-> | [-> | []]]]]]; try reflexivity.
      by destruct E.
Qed.

Lemma disk_metric_names_distinct_witness :
  NoDup (disk_metric_names "sda") /\
  (nameUtil "sda" ∈ disk_metric_names "sda" ->
   nameUtil "sda" ∈ disk_metric_names "sda" -> "sda" = "sda").
Proof.
  split; [apply (proj1 disk_metric_names_distinct) |].
  apply (proj2 disk_metric_names_distinct "sda" "sda" (nameUtil "sda")).
Defined.

Lemma disk_metric_classes_witness :
  nameUtil "sda" ∈ disk_metric_names "sda" /\
  isDiskMetric (nameUtil "sda") = true /\
  isDiskUtilMetric (nameUtil "sda") = bool_decide (nameUtil "sda" = nameUtil "sda").
Proof.
  assert (nameUtil "sda" ∈ disk_metric_names "sda") as H
    by (unfold disk_metric_names; set_solver).
  split; [exact H |]. split.
  - apply (proj1 (disk_metric_classes "sda")). exact H.
  - apply (proj2 (disk_metric_classes "sda")). exact H.
Defined.

Lemma reg_lookup name k t n :
  reg name k t !! n
  = match t !! n with
    | Some v => Some v
    | None => if bool_decide (n = name) then Some (mkStatsValue k 0) else None
    end.
Proof.
  unfold reg. destruct (t !! name) eqn:E.
  - destruct (t !! n) eqn:En; [reflexivity |].
    case_bool_decide; [congruence | reflexivity].
  - destruct (decide (n = name)) as [-> | Hne].
    + rewrite lookup_insert_eq, E. by rewrite bool_decide_eq_true_2.
    + rewrite lookup_insert_ne by done. destruct (t !! n); [reflexivity |].
      by rewrite bool_decide_eq_false_2.
Qed.

Lemma RegDiskMetrics_lookup disk s n :
  s !! nameRbps disk = None ->
  RegDiskMetrics disk s !! n
  = match s !! n with
    | Some v => Some v
    | None =>
        if bool_decide (n = nameRbps disk \/ n = nameWbps disk)
        then Some (mkStatsValue KindComputedThroughput 0)
        else if bool_decide (n = nameRavg disk \/ n = nameWavg disk \/ n = nameUtil disk)
        then Some (mkStatsValue KindGauge 0)
        else None
    end.
Proof.
  intros Hfresh. unfold RegDiskMetrics. rewrite Hfresh. cbv zeta.
  rewrite !reg_lookup.
  destruct (s !! n); [reflexivity |].
  repeat case_bool_decide; try reflexivity; exfalso; intuition congruence.
Qed.

(** X21: RegDiskMetrics returns at once for a disk whose read throughput is
    registered, and registering the same disk again changes nothing.  For
    a disk none of whose metrics is registered, it registers the read and
    write throughput as computed throughput and the average read size,
    the average write size and the utilization as gauges, and leaves
    every other metric as it is. *)
Theorem RegDiskMetrics_spec disk s :
  (is_Some (s !! nameRbps disk) -> RegDiskMetrics disk s = s) /\
  RegDiskMetrics disk (RegDiskMetrics disk s) = RegDiskMetrics disk s /\
  ((forall n, n ∈ disk_metric_names disk -> s !! n = None) ->
   forall n,
     sv_kind <$> (RegDiskMetrics disk s !! n)
     = if bool_decide (n = nameRbps disk \/ n = nameWbps disk)
       then Some KindComputedThroughput
       else if bool_decide (n = nameRavg disk \/ n = nameWavg disk \/ n = nameUtil disk)
       then Some KindGauge
       else sv_kind <$> (s !! n)).
Proof.
  split; [| split].
  - intros [v E]. unfold RegDiskMetrics. by rewrite E.
  - destruct (s !! nameRbps disk) eqn:E.
    + unfold RegDiskMetrics. by rewrite !E.
    + unfold RegDiskMetrics at 1.
      rewrite (RegDiskMetrics_lookup disk s (nameRbps disk) E), E.
      rewrite bool_decide_eq_true_2 by (by left). reflexivity.
  - intros Hfresh n.
    assert (s !! nameRbps disk = None) as E
      by (apply Hfresh; unfold disk_metric_names; set_solver).
    rewrite (RegDiskMetrics_lookup disk s n E).
    destruct (s !! n) as [v |] eqn:En; [| by repeat case_bool_decide].
    assert (n ∉ disk_metric_names disk) as Hn
      by (intros Hin; rewrite (Hfresh n Hin) in En; discriminate).
    unfold disk_metric_names in Hn.
    set_unfold. rewrite !bool_decide_eq_false_2; [reflexivity | tauto | tauto].
Qed.

Lemma RegDiskMetrics_spec_witness :
  (forall n, n ∈ disk_metric_names "sda" -> (∅ : gmap string statsValue) !! n = None) /\
  sv_kind <$> (RegDiskMetrics "sda" ∅ !! nameUtil "sda") = Some KindGauge.
Proof.
  split; [intros n _; apply lookup_empty |].
  rewrite (proj2 (proj2 (RegDiskMetrics_spec "sda" ∅)));
    [reflexivity | intros n _; apply lookup_empty].
Defined.

(** ** Soft errors *)

(** X22: With the health check enabled, a stats period of at least five
    seconds and counters that do not overflow, _softErrs records the
    number of soft I/O errors and wakes up FSHC exactly when the errors
    raised since the previous call, scaled from the stats period to
    SoftErrTime, reach the configured limit. *)
Theorem _softErrs_threshold c statsTime numSoftErrs nonIOErr softErrs :
  FSHC_Enabled c = true ->
  5 * Second <= statsTime ->
  0 <= softErrs <= numSoftErrs - nonIOErr ->
  numSoftErrs - nonIOErr <= Int.max_int64 ->
  0 <= SoftErrTime c ->
  (numSoftErrs - nonIOErr - softErrs) * SoftErrTime c <= Int.max_int64 ->
  _softErrs c statsTime numSoftErrs nonIOErr softErrs
  = (numSoftErrs - nonIOErr,
     bool_decide (SoftErrs c * statsTime
                  <= (numSoftErrs - nonIOErr - softErrs) * SoftErrTime c)).
Proof.
  intros Hen Hst Hse Hn HT Hprod. unfold _softErrs. rewrite Hen. cbn [negb].
  assert (0 < statsTime) as Hpos by (unfold Second in Hst; lia).
  replace (statsTime <? 5 * Second) with false by (symmetry; apply Z.ltb_ge; lia).
  cbv zeta.
  assert (Int.max_int64 = 2 ^ 63 - 1) as Hmax by reflexivity.
  assert (Int.min_int64 = - 2 ^ 63) as Hmin by reflexivity.
  rewrite (wrap64_id (numSoftErrs - nonIOErr)) by (unfold Int.in_int64; lia).
  set (d := numSoftErrs - nonIOErr - softErrs) in *.
  rewrite (wrap64_id d) by (unfold Int.in_int64, d; lia).
  assert (0 <= d * SoftErrTime c) as Hnn by (apply Z.mul_nonneg_nonneg; unfold d; lia).
  rewrite (wrap64_id (d * SoftErrTime c)) by (unfold Int.in_int64; lia).
  rewrite Z.quot_div_nonneg by lia.
  assert (0 <= d * SoftErrTime c / statsTime <= d * SoftErrTime c) as Hq.
  { split; [apply Z.div_pos; lia |]. apply Z.div_le_upper_bound; [lia |]. nia. }
  rewrite (wrap64_id (d * SoftErrTime c / statsTime)) by (unfold Int.in_int64; lia).
  destruct (Z.ltb_spec (d * SoftErrTime c / statsTime) (SoftErrs c)) as [Hlt | Hge];
    f_equal.
  - symmetry. apply bool_decide_eq_false_2. intros Hle.
    assert (SoftErrs c <= d * SoftErrTime c / statsTime); [| lia].
    apply Z.div_le_lower_bound; lia.
  - symmetry. apply bool_decide_eq_true_2.
    pose proof (Z.mul_div_le (d * SoftErrTime c) statsTime Hpos). nia.
Qed.

(** Twelve soft errors in a stats period of ten seconds, with a limit of
    ten errors per ten seconds. *)
Lemma _softErrs_threshold_witness :
  _softErrs (mkFSHCConf true 10 (10 * Second)) (10 * Second) 15 3 0 = (12, true).
Proof.
  rewrite (_softErrs_threshold (mkFSHCConf true 10 (10 * Second)) (10 * Second) 15 3 0);
    [reflexivity | reflexivity | vm_compute; congruence | vm_compute; split; congruence
    | vm_compute; congruence | vm_compute; congruence | vm_compute; congruence].
Defined.

(** X23: A soft error is counted once: when no soft error is raised between
    two calls, the second call leaves the recorded number as it is and
    does not wake up FSHC, whatever the first call did. *)
Theorem _softErrs_counted_once c statsTime numSoftErrs nonIOErr softErrs :
  0 < SoftErrs c ->
  let r := _softErrs c statsTime numSoftErrs nonIOErr softErrs in
  _softErrs c statsTime numSoftErrs nonIOErr r.1 = (r.1, false).
Proof.
  intros HS. cbv zeta. unfold _softErrs.
  destruct (negb (FSHC_Enabled c)) eqn:E; [reflexivity |].
  destruct (statsTime <? 5 * Second) eqn:E2; [reflexivity |].
  cbv zeta.
  set (n := Int.wrap64 (numSoftErrs - nonIOErr)).
  assert (forall b : bool, (if b then (n, false) else (n, true)).1 = n) as Hn
    by (by intros []).
  rewrite Hn, Z.sub_diag.
  assert (Int.wrap64 0 = 0) as H0 by reflexivity.
  rewrite H0, Z.mul_0_l, H0, Z.quot_0_l, H0.
  - replace (0 <? SoftErrs c) with true by (symmetry; apply Z.ltb_lt; lia). reflexivity.
  - unfold Second in E2. apply Z.ltb_ge in E2. lia.
Qed.

Lemma _softErrs_counted_once_witness :
  0 < SoftErrs (mkFSHCConf true 10 (10 * Second)) /\
  _softErrs (mkFSHCConf true 10 (10 * Second)) (10 * Second) 15 3
    (_softErrs (mkFSHCConf true 10 (10 * Second)) (10 * Second) 15 3 0).1
  = ((_softErrs (mkFSHCConf true 10 (10 * Second)) (10 * Second) 15 3 0).1, false).
Proof.
  split; [reflexivity |].
  apply (_softErrs_counted_once (mkFSHCConf true 10 (10 * Second)) (10 * Second) 15 3 0).
  reflexivity.
Defined.

(** ** Logging the disks *)

Section LogDiskStatsFacts.

Variable ToSizeIEC : Z -> Z -> string.

Lemma logDiskStats_foldl now next_ (l : list (string * DiskStats)) : forall ls,
  foldl (fun ls ds =>
           if skip_disk now next_ ds.2 then ls
           else (ls ++ [disk_line ToSizeIEC ds.1 ds.2])%list) ls l
  = (ls ++ ((fun ds => disk_line ToSizeIEC ds.1 ds.2)
              <$> filter (fun ds => skip_disk now next_ ds.2 = false) l))%list.
Proof.
  induction l as [| ds l IH]; intros ls; cbn [foldl].
  - cbn. by rewrite app_nil_r.
  - rewrite IH, filter_cons. destruct (skip_disk now next_ ds.2) eqn:E.
    + rewrite decide_False by congruence. reflexivity.
    + rewrite decide_True by reflexivity. rewrite fmap_cons, <- app_assoc. reflexivity.
Qed.

(** X24: logDiskStats keeps the lines that are there and appends one line per
    disk that is busy enough: a disk at 10% utilization or more is always
    logged, a disk between 5% and 10% only when the time of the next
    periodic log has come, and a disk below 5% never. *)
Theorem logDiskStats_spec disk now next_ ls :
  exists logged,
    logDiskStats ToSizeIEC disk now next_ ls = (ls ++ logged)%list /\
    length logged
    = size (filter (fun ds : string * DiskStats =>
                      10 <= Util ds.2 \/ (5 <= Util ds.2 /\ next_ <= now)) disk) /\
    forall line,
      line ∈ logged <->
      exists d st,
        disk !! d = Some st /\
        (10 <= Util st \/ (5 <= Util st /\ next_ <= now)) /\
        line = disk_line ToSizeIEC d st.
Proof.
  assert (forall st, skip_disk now next_ st = false
                     <-> 10 <= Util st \/ (5 <= Util st /\ next_ <= now)) as Hskip.
  { intros st. unfold skip_disk, minLogDiskUtil. change (Z.quot 10 2) with 5.
    rewrite orb_false_iff, andb_false_iff, !Z.ltb_ge. lia. }
  unfold logDiskStats. rewrite logDiskStats_foldl.
  eexists. split; [reflexivity |]. split.
  - rewrite length_fmap.
    assert (filter (fun ds : string * DiskStats =>
                      10 <= Util ds.2 \/ (5 <= Util ds.2 /\ next_ <= now)) disk
            = filter (fun ds : string * DiskStats => skip_disk now next_ ds.2 = false) disk)
      as ->.
    { apply map_filter_ext. intros d st _. cbn [snd]. by rewrite Hskip. }
    rewrite map_filter_alt. rewrite map_size_list_to_map; [reflexivity |].
    eapply sublist_NoDup; [apply (NoDup_fst_map_to_list disk) |].
    apply fmap_sublist, sublist_filter.
  - intros line. rewrite list_elem_of_fmap. split.
    + intros ([d st] & -> & H). apply list_elem_of_filter in H as [H1 H2].
      apply elem_of_map_to_list in H2. exists d, st. cbn [fst snd] in *.
      split; [exact H2 |]. split; [by apply Hskip | reflexivity].
    + intros (d & st & H1 & H2 & ->). exists (d, st). split; [reflexivity |].
      apply list_elem_of_filter. split; [by apply Hskip |].
      by apply elem_of_map_to_list.
Qed.

End LogDiskStatsFacts.

(** ** The capacity check: the space manager and the DiskFault flag *)

Section CapFacts.

Variables OOS LowCapacity DiskFault maxCapLogInterval : Z.
Variable cap_lines : list string.

(** Case analysis on every test of [_cap]. *)
Ltac cap_cases :=
  repeat match goal with
         | |- context [if ?b then _ else _] => destruct b eqn:?; cbn
         end.

(** X25: _cap calls the out-of-space handler [r.t.OOS] at most once: exactly
    when the refresh succeeded and either reported a capacity error or
    updated a snapshot whose maximum use is above the cleanup watermark.
    The handler gets the snapshot iff it was updated.  The lines logged
    so far are kept, and the time of the next periodic log is not
    changed. *)
Theorem cap_OOS_handler cp CleanupWM hasAlerts flags now r :
  let res := _cap OOS LowCapacity DiskFault maxCapLogInterval cap_lines
                  cp CleanupWM hasAlerts flags now r in
  oos_calls res.2
  = (if negb (cp_err cp)
        && (cp_errCap cp
            || (cp_updated cp && (wrap32 CleanupWM <? PctMax (cp_cs cp))))
     then cp_updated cp :: oos_calls r else oos_calls r) /\
  next res.2 = next r /\
  exists more, lines res.2 = (lines r ++ more)%list.
Proof.
  cbv zeta. unfold _cap.
  destruct cp as [[pm oos cerr] upd err errCap].
  cbn [cp_cs cp_updated cp_err cp_errCap PctMax cs_IsOOS cs_Err].
  destruct upd, err, errCap, hasAlerts, oos, cerr; cbn; cap_cases;
    (split; [reflexivity |]); (split; [reflexivity |]);
    rewrite <- ?app_assoc; try (eexists; reflexivity);
    exists []; by rewrite app_nil_r.
Qed.

Lemma IsSet_0 flag : flag <> 0 -> IsSet 0 flag = false.
Proof. intros H. unfold IsSet. rewrite Z.land_0_l. apply Z.eqb_neq. congruence. Qed.

Lemma IsSet_self flag : IsSet flag flag = true.
Proof. unfold IsSet. rewrite Z.land_diag. apply Z.eqb_refl. Qed.

Lemma IsSet_disjoint flags flag :
  flag <> 0 -> Z.land flags flag = 0 -> IsSet flags flag = false.
Proof. intros H H0. unfold IsSet. rewrite H0. apply Z.eqb_neq. congruence. Qed.

(** X26: With DiskFault a flag of its own, _cap clears it only on a check that
    finds the node out of space: the refresh succeeded and updated the
    snapshot, there are no mountpath alerts, the flag is set and the
    snapshot is out of space.  On any other check the clearing of
    DiskFault, if any, is overwritten by the clearing of OOS. *)
Theorem cap_clears_DiskFault cp CleanupWM hasAlerts flags now r :
  DiskFault <> 0 ->
  Z.land (Z.lor OOS LowCapacity) DiskFault = 0 ->
  let res := _cap OOS LowCapacity DiskFault maxCapLogInterval cap_lines
                  cp CleanupWM hasAlerts flags now r in
  IsSet res.1.2 DiskFault
  = negb (cp_err cp) && cp_updated cp && negb hasAlerts
    && IsSet flags DiskFault && cs_IsOOS (cp_cs cp).
Proof.
  intros Hne Hdisj. cbv zeta.
  assert (Z.land OOS DiskFault = 0) as HO.
  { rewrite Z.land_lor_distr_l in Hdisj. by apply Z.lor_eq_0_iff in Hdisj as [? _]. }
  pose proof (IsSet_0 DiskFault Hne) as H0.
  pose proof (IsSet_disjoint OOS DiskFault Hne HO) as H1.
  pose proof (IsSet_disjoint _ DiskFault Hne Hdisj) as H2.
  pose proof (IsSet_self DiskFault) as H3.
  unfold _cap.
  destruct cp as [[pm oos cerr] upd err errCap].
  cbn [cp_cs cp_updated cp_err cp_errCap PctMax cs_IsOOS cs_Err].
  destruct upd, err, errCap, hasAlerts, oos, cerr; cbn; cap_cases; cbn; try assumption; try discriminate;
    rewrite ?andb_true_r, ?andb_false_r, ?Z.lor_0_l in *; congruence.
Qed.

(** X27: With OOS distinct from LowCapacity and from DiskFault, _cap never
    sets and clears the same flag. *)
Theorem cap_set_clr_disjoint cp CleanupWM hasAlerts flags now r :
  Z.land OOS LowCapacity = 0 ->
  Z.land OOS DiskFault = 0 ->
  let res := _cap OOS LowCapacity DiskFault maxCapLogInterval cap_lines
                  cp CleanupWM hasAlerts flags now r in
  Z.land res.1.1 res.1.2 = 0.
Proof.
  intros H1 H2. cbv zeta. unfold _cap.
  destruct cp as [[pm oos cerr] upd err errCap].
  cbn [cp_cs cp_updated cp_err cp_errCap PctMax cs_IsOOS cs_Err].
  destruct upd, err, errCap, hasAlerts, oos, cerr; cbn; cap_cases; cbn; rewrite ?Z.land_0_l, ?Z.land_0_r;
    try reflexivity; try assumption; by rewrite Z.land_comm.
Qed.

End CapFacts.

(** The disk fault is set and the snapshot at 85% is not out of space:
    DiskFault is not cleared. *)
Lemma cap_clears_DiskFault_witness :
  bit_DiskFault <> 0 /\
  Z.land (Z.lor bit_OOS bit_LowCapacity) bit_DiskFault = 0 /\
  IsSet (_cap bit_OOS bit_LowCapacity bit_DiskFault (Minute * 60) ["/mp1: used 85%"]
           (mkCapPeriodic (mkCapStatus 85 false true) true false false)
           80 false bit_DiskFault Second sample_trunner).1.2 bit_DiskFault
  = false.
Proof.
  split; [discriminate |]. split; [reflexivity |].
  rewrite (cap_clears_DiskFault bit_OOS bit_LowCapacity bit_DiskFault (Minute * 60)
             ["/mp1: used 85%"]
             (mkCapPeriodic (mkCapStatus 85 false true) true false false)
             80 false bit_DiskFault Second sample_trunner);
    [reflexivity | discriminate | reflexivity].
Defined.

Lemma cap_set_clr_disjoint_witness :
  Z.land bit_OOS bit_LowCapacity = 0 /\
  Z.land bit_OOS bit_DiskFault = 0 /\
  Z.land (sample_cap (mkCapPeriodic (mkCapStatus 85 false true) true false false)).1.1
         (sample_cap (mkCapPeriodic (mkCapStatus 85 false true) true false false)).1.2
  = 0.
Proof.
  split; [reflexivity |]. split; [reflexivity |].
  apply (cap_set_clr_disjoint bit_OOS bit_LowCapacity bit_DiskFault (Minute * 60)
           ["/mp1: used 85%"]
           (mkCapPeriodic (mkCapStatus 85 false true) true false false)
           80 false 0 Second sample_trunner); reflexivity.
Defined.
